(** * rom_converter.py: the conversion engine

    The development follows class [ROMConverter] of [src/rom_converter.py].

    - Text is a list of characters ([ascii]: the code points U+0000..U+00FF
      of a Python [str]); the regular expressions of the source become
      scanners over such lists.
    - A path is the list of its components, in the POSIX flavour of
      [pathlib]: names are compared and matched case by case.
    - The file system is a finite map from paths to entries (files with
      their content, directories).  A path is looked up as it is written:
      links are not modelled and a step back to the parent folder is not
      followed.  An operation fails for the reasons that its definition
      names (a missing source, a directory in the place of a file, a file
      in the place of a directory), not for reasons of the operating
      system such as a missing permission.
    - The methods become functions that pass the application state; the
      widgets are left out, and a log line is a value of [LogLine].
    - The external tools (chdman, the archive decoders) are the methods of
      the class [ExternalTools]: nothing is assumed about what they do.
    - The threads of the pool are an explicit interleaving of events; the
      conversion and the postprocessing of one job are one step.  What two
      jobs do to the backup folder at the same time is modelled apart, by
      the steps of [BackupJob].
    - Clock readings and durations are rationals. *)

From Stdlib Require Import Ascii String List Bool Arith Lia ZArith QArith.
From Stdlib Require Import DecimalString DecimalNat.
From stdpp Require Import base gmap strings list sorting.
Import ListNotations.

Local Open Scope list_scope.

(** ** Characters and the regular expressions of the source *)

Module Text.

Definition text := list ascii.

Definition of_string (s : string) : text := list_ascii_of_string s.
Definition to_string (t : text) : string := string_of_list_ascii t.

(** [\s] of Python's [re] on [str] and [str.isspace], restricted to
    U+0000..U+00FF: TAB..CR, FS..US, SPACE, NEL and NBSP. *)
Definition py_isspace (ch : ascii) : bool :=
  let n := nat_of_ascii ch in
  ((9 <=? n) && (n <=? 13)) || ((28 <=? n) && (n <=? 32))
  || (n =? 133) || (n =? 160).

(** [\d] of Python's [re] on [str], restricted to U+0000..U+00FF. *)
Definition py_isdigit (ch : ascii) : bool :=
  let n := nat_of_ascii ch in (48 <=? n) && (n <=? 57).

(** Lower-casing of the ASCII letters: what [re.IGNORECASE] compares for the
    ASCII letters of a pattern when the subject stays in U+0000..U+00FF. *)
Definition lower (ch : ascii) : ascii :=
  let n := nat_of_ascii ch in
  if (65 <=? n) && (n <=? 90) then ascii_of_nat (n + 32) else ch.

Definition ieq (ch lit : ascii) : bool := Ascii.eqb (lower ch) (lower lit).

Fixpoint skip (p : ascii -> bool) (s : text) : text :=
  match s with
  | [] => []
  | x :: t => if p x then skip p t else s
  end.

Fixpoint run (p : ascii -> bool) (s : text) : text :=
  match s with
  | [] => []
  | x :: t => if p x then x :: run p t else []
  end.

(** A case-insensitive literal prefix: [Some rest] when [s] starts with
    [lit] up to case. *)
Fixpoint ilit (lit s : text) : option text :=
  match lit with
  | [] => Some s
  | l :: lit' =>
      match s with
      | x :: t => if ieq x l then ilit lit' t else None
      | [] => None
      end
  end.

(** *** [re.sub(r'\s*<o>[^<c>]+<c>', '', name)]

    The pattern is matched without any backtracking choice: [\s*] is
    followed by the opening character, which is no white space, and the
    body [[^c]+] is followed by the closing character itself. *)
Section Group.
Variables o c : ascii.

(** the rest of the subject after the first closing character *)
Fixpoint find_close (t : text) : option text :=
  match t with
  | [] => None
  | x :: t' => if Ascii.eqb x c then Some t' else find_close t'
  end.

(** [[^c]+c] at the head of [t]: the rest after the match *)
Definition body_at (t : text) : option text :=
  match t with
  | [] => None
  | x :: t' => if Ascii.eqb x c then None else find_close t'
  end.

(** one attempt of the pattern at the head of [s] *)
Definition group_at (s : text) : option text :=
  match skip py_isspace s with
  | x :: t => if Ascii.eqb x o then body_at t else None
  | [] => None
  end.

(** the left-to-right scan of [re.sub] with an empty replacement *)
Fixpoint rm_fuel (n : nat) (s : text) : text :=
  match n with
  | 0 => s
  | S n' =>
      match s with
      | [] => []
      | x :: t =>
          match group_at s with
          | Some rest => rm_fuel n' rest
          | None => x :: rm_fuel n' t
          end
      end
  end.

Definition rm (s : text) : text := rm_fuel (length s) s.

(** no attempt of the pattern succeeds anywhere in [s] *)
Fixpoint quiet (s : text) : Prop :=
  match s with
  | [] => True
  | _ :: t => group_at s = None /\ quiet t
  end.
End Group.

(** [re.sub(r'\s+', ' ', name)]: [in_run] tells that the previous character
    belonged to the white-space run already replaced. *)
Fixpoint collapse_ws (in_run : bool) (s : text) : text :=
  match s with
  | [] => []
  | x :: t =>
      if py_isspace x
      then (if in_run then collapse_ws true t else " "%char :: collapse_ws true t)
      else x :: collapse_ws false t
  end.

Fixpoint rstrip (s : text) : text :=
  match s with
  | [] => []
  | x :: t =>
      match rstrip t with
      | [] => if py_isspace x then [] else [x]
      | t' => x :: t'
      end
  end.

(** [str.strip()] *)
Definition strip (s : text) : text := rstrip (skip py_isspace s).

(** White space in normal form: every white-space character is a single
    space that no white space follows. *)
Fixpoint semi (s : text) : Prop :=
  match s with
  | [] => True
  | x :: t =>
      (py_isspace x = true ->
       x = " "%char /\ match t with y :: _ => py_isspace y = false | [] => True end)
      /\ semi t
  end.

(** the same, and no white space at the end *)
Fixpoint tidy (s : text) : Prop :=
  match s with
  | [] => True
  | x :: t =>
      (py_isspace x = true ->
       x = " "%char /\ match t with y :: _ => py_isspace y = false | [] => False end)
      /\ tidy t
  end.

(** no white space at the start *)
Definition headed (s : text) : Prop :=
  match s with [] => True | x :: _ => py_isspace x = false end.

(** *** [re.search(r'\(Disc\s*\d+\)', name, flags=re.IGNORECASE)] *)

(** one attempt at the head of [s]: the matched text, [group(0)] *)
Definition disc_at (s : text) : option text :=
  match s with
  | "("%char :: s1 =>
      match ilit (of_string "Disc") s1 with
      | Some s2 =>
          let ws := run py_isspace s2 in
          let s3 := skip py_isspace s2 in
          let ds := run py_isdigit s3 in
          match ds, skip py_isdigit s3 with
          | _ :: _, ")"%char :: _ =>
              Some ("("%char :: firstn 4 s1 ++ ws ++ ds ++ [")"%char])
          | _, _ => None
          end
      | None => None
      end
  | _ => None
  end.

Fixpoint search_disc (s : text) : option text :=
  match disc_at s with
  | Some m => Some m
  | None => match s with [] => None | _ :: t => search_disc t end
  end.

End Text.

(** ** The [FILE] entries of a track list (line 817)

    [re.compile(r'FILE\s+Q([^Q]+)Q\s+BINARY', re.IGNORECASE).findall(content)],
    where Q stands for the double quote (character 34). *)

Module Cue.
Import Text.

Definition not_quote (ch : ascii) : bool := negb (Ascii.eqb ch "034"%char).

(** one attempt at the head of [s]: the captured name and the rest of the
    subject after the match *)
Definition file_at (s : text) : option (text * text) :=
  match ilit (of_string "FILE") s with
  | Some s1 =>
      match run py_isspace s1, skip py_isspace s1 with
      | _ :: _, q :: s2 =>
          if Ascii.eqb q "034"%char then
            match run not_quote s2, skip not_quote s2 with
            | (_ :: _) as nm, _ :: s3 =>
                match run py_isspace s3 with
                | _ :: _ =>
                    match ilit (of_string "BINARY") (skip py_isspace s3) with
                    | Some rest => Some (nm, rest)
                    | None => None
                    end
                | [] => None
                end
            | _, _ => None
            end
          else None
      | _, _ => None
      end
  | None => None
  end.

(** the left-to-right scan of [findall] *)
Fixpoint findall_fuel (n : nat) (s : text) : list text :=
  match n with
  | 0 => []
  | S n' =>
      match s with
      | [] => []
      | _ :: t =>
          match file_at s with
          | Some (nm, rest) => nm :: findall_fuel n' rest
          | None => findall_fuel n' t
          end
      end
  end.

Definition findall (content : string) : list string :=
  map to_string (findall_fuel (String.length content) (of_string content)).

End Cue.

(** ** [clean_game_name] (lines 1256-1277) *)

(** lines 1264-1271: the name without its tags *)
Definition clean_base (name : Text.text) : Text.text :=
  let name := Text.rm "("%char ")"%char name in
  let name := Text.rm "["%char "]"%char name in
  Text.strip (Text.collapse_ws false name).

Definition clean_game_text (filename : Text.text) : Text.text :=
  let name := filename in
  let disc_tag := Text.search_disc name in
  let name := clean_base name in
  match disc_tag with
  | Some tag => name ++ " "%char :: tag
  | None => name
  end.

Definition clean_game_name (filename : string) : string :=
  Text.to_string (clean_game_text (Text.of_string filename)).

(** ** Paths ([pathlib], POSIX flavour) *)

Abbreviation Path := (list string).

Module Pathlib.
Import Text.

Definition name (p : Path) : string := List.last p EmptyString.
Definition parent (p : Path) : Path := removelast p.

Definition not_dot (ch : ascii) : bool := negb (Ascii.eqb ch "."%char).

(** [(stem, suffix)] of a final component: the suffix starts at the last
    dot, unless that dot is the first or the last character. *)
Definition split_ext (nm : text) : text * text :=
  let r := rev nm in
  match run not_dot r, skip not_dot r with
  | (_ :: _) as ext_rev, _ :: ((_ :: _) as base_rev) =>
      (rev base_rev, "."%char :: rev ext_rev)
  | _, _ => (nm, [])
  end.

Definition stem (p : Path) : string := to_string (fst (split_ext (of_string (name p)))).
Definition suffix (p : Path) : string := to_string (snd (split_ext (of_string (name p)))).

(** [path.with_suffix(sfx)] for a path with a non-empty name *)
Definition with_suffix (p : Path) (sfx : string) : Path :=
  parent p ++ [(stem p ++ sfx)%string].

Fixpoint split_on (sep : ascii) (cur : text) (s : text) : list text :=
  match s with
  | [] => [rev cur]
  | x :: t =>
      if Ascii.eqb x sep then rev cur :: split_on sep [] t
      else split_on sep (x :: cur) t
  end.

Definition keep_part (t : text) : bool :=
  match t with
  | [] => false
  | [d] => not_dot d
  | _ => true
  end.

(** the components of a string given to [/]: empty and [.] components are
    dropped, [..] is kept *)
Definition parts (s : string) : Path :=
  map to_string (List.filter keep_part (split_on "/"%char [] (of_string s))).

(** [d / s] *)
Definition joinpath (d : Path) (s : string) : Path :=
  match of_string s with
  | "/"%char :: _ => "/"%string :: parts s
  | _ => d ++ parts s
  end.

(** [str.lower()] on the ASCII letters *)
Definition lower_string (s : string) : string := to_string (map lower (of_string s)).

(** [name.endswith(sfx)] *)
Fixpoint starts_with (pre s : text) : bool :=
  match pre, s with
  | [], _ => true
  | a :: pre', b :: s' => Ascii.eqb a b && starts_with pre' s'
  | _ :: _, [] => false
  end.

Definition endswith (nm sfx : string) : bool :=
  starts_with (rev (of_string sfx)) (rev (of_string nm)).

(** [new_name.rsplit('.', 1)[0]] *)
Definition rsplit_dot_head (nm : string) : string :=
  let r := rev (of_string nm) in
  match skip not_dot r with
  | _ :: base_rev => to_string (rev base_rev)
  | [] => nm
  end.

(** [s.replace(pat, '')] for a non-empty [pat]: [k] characters of the
    occurrence found last are still to be dropped *)
Fixpoint remove_all (pat : text) (k : nat) (s : text) : text :=
  match s with
  | [] => []
  | x :: t =>
      match k with
      | S k' => remove_all pat k' t
      | 0 =>
          if starts_with pat s then remove_all pat (length pat - 1) t
          else x :: remove_all pat 0 t
      end
  end.

Definition replace_empty (nm pat : string) : string :=
  to_string (remove_all (of_string pat) 0 (of_string nm)).

(** the order of [sorted] on paths: component by component, strings by
    code point *)
Fixpoint path_cmp (p q : Path) : comparison :=
  match p, q with
  | [], [] => Eq
  | [], _ :: _ => Lt
  | _ :: _, [] => Gt
  | a :: p', b :: q' =>
      match String.compare a b with
      | Eq => path_cmp p' q'
      | cmp => cmp
      end
  end.

Definition path_le (p q : Path) : Prop := path_cmp p q <> Gt.

#[global] Instance path_le_dec : RelDecision path_le.
Proof. intros p q. unfold path_le. apply _. Defined.

(** [str(n)] for a counter *)
Definition str_of_nat (n : nat) : string := NilEmpty.string_of_uint (Nat.to_uint n).

End Pathlib.

(** a name that is one path component *)
Definition no_slash (s : string) : Prop := ~ In "/"%char (Text.of_string s).

Definition path_eq_dec : forall p q : list string, {p = q} + {p <> q} :=
  List.list_eq_dec String.string_dec.

(** ** The file system *)

Inductive entry : Type :=
  | File (content : string)
  | Dir.

Module Fs.

(** A path is present when the map has an entry for it; the directories on
    the way to an entry are not required to be entries themselves. *)
Definition exists_ (fs : gmap (list string) entry) (p : Path) : bool :=
  match fs !! p with Some _ => true | None => false end.

(** [os.path.isdir] *)
Definition isdir (fs : gmap (list string) entry) (p : Path) : bool :=
  match fs !! p with Some Dir => true | _ => false end.

(** [p.stat().st_size]; [None] when [stat] raises *)
Definition st_size (fs : gmap (list string) entry) (p : Path) : option nat :=
  match fs !! p with
  | Some (File content) => Some (String.length content)
  | Some Dir => Some 0
  | None => None
  end.

(** [p.unlink()]; [None] when it raises (missing, or a directory) *)
Definition unlink (fs : gmap (list string) entry) (p : Path) : option (gmap (list string) entry) :=
  match fs !! p with
  | Some (File _) => Some (delete p fs)
  | _ => None
  end.

(** [p.mkdir(exist_ok=True)]; [None] when a file is in the way *)
Definition mkdir (fs : gmap (list string) entry) (p : Path) : option (gmap (list string) entry) :=
  match fs !! p with
  | Some (File _) => None
  | Some Dir => Some fs
  | None => Some (<[p := Dir]> fs)
  end.

(** [p.mkdir(parents=True, exist_ok=True)]: every prefix of [p], shortest
    first *)
Fixpoint mkdir_parents (fs : gmap (list string) entry) (done todo : Path)
  : option (gmap (list string) entry) :=
  match todo with
  | [] => Some fs
  | x :: todo' =>
      match mkdir fs (done ++ [x]) with
      | Some fs' => mkdir_parents fs' (done ++ [x]) todo'
      | None => None
      end
  end.

Definition is_under (src k : Path) : bool := bool_decide (src `prefix_of` k).

(** the entries below a moved directory follow it *)
Definition rename_tree (src dst : Path) (fs : gmap (list string) entry)
  : gmap (list string) entry :=
  list_to_map
    (map (fun kv => (if is_under src (fst kv) then dst ++ drop (length src) (fst kv)
                     else fst kv, snd kv))
         (map_to_list fs)).

(** [shutil.move(src, dst)] to a destination that is no directory: a file
    that is there is replaced, as by [os.rename]; [None] when it raises *)
Definition move (fs : gmap (list string) entry) (src dst : Path)
  : option (gmap (list string) entry) :=
  match fs !! src with
  | Some (File content) => Some (<[dst := File content]> (delete src fs))
  | Some Dir => Some (rename_tree src dst fs)
  | None => None
  end.

(** [shutil.copy2(src, dst)]; [None] when it raises *)
Definition copy2 (fs : gmap (list string) entry) (src dst : Path)
  : option (gmap (list string) entry) :=
  match fs !! src with
  | Some (File content) => Some (<[dst := File content]> fs)
  | _ => None
  end.

(** [while dest.exists(): dest = candidate(counter); counter += 1].
    [None] stands for a loop that has not ended after [fuel] rounds. *)
Fixpoint first_free (fuel : nat) (candidate : nat -> Path) (counter : nat)
    (dest : Path) (fs : gmap (list string) entry) : option Path :=
  if exists_ fs dest then
    match fuel with
    | 0 => None
    | S fuel' => first_free fuel' candidate (S counter) (candidate counter) fs
    end
  else Some dest.

(** [path.glob(pattern)] and [path.rglob(pattern)] for a pattern ["*" + ext]:
    the entries below [dir] (directly below for [glob]) whose name ends
    with [ext], in the order of the directory listing.  Every path listed
    has an entry; a link that leads nowhere, which the source would list
    as well, is not modelled. *)
Definition below (dir : Path) (recursive : bool) (p : Path) : bool :=
  is_under dir p &&
  (if recursive then length dir <? length p else length p =? S (length dir)).

Definition glob (fs : gmap (list string) entry) (dir : Path) (recursive : bool)
    (ext : string) : list (list string) :=
  List.filter (fun p => below dir recursive p && Pathlib.endswith (Pathlib.name p) ext)
    (map fst (map_to_list fs)).

End Fs.

(** [sorted(paths)] *)
Definition sorted (l : list (list string)) : list (list string) :=
  merge_sort Pathlib.path_le l.

(** ** The application state *)

(** The lines given to [self.log], one constructor per kind of message;
    lines that are always printed together are one entry. *)
Inductive LogLine : Type :=
  | LogBinMissing (ref : string)
  | LogCueError
  | LogChdExists (chd_name : string)
  | LogUnsupported (nm : string)
  | LogConverting (label nm chd_name : string)
  | LogSuccess (original_size chd_size : nat)
  | LogConversionFailed (stderr : string)
  | LogTimeout
  | LogException
  | LogMovedToBackup (nm : string)
  | LogBackupError
  | LogDeleted (nm : string)
  | LogDeleteError
  | LogProcessing (file_num total : nat) (nm : string)
  | LogExtractingHeader
  | LogNoCompressed
  | LogFoundCompressed (names : list string)
  | LogExtracting (decoder nm : string)
  | LogExtracted (folder : string)
  | LogNoSevenZip (ext : string)
  | LogUnsupportedArchive (ext : string)
  | LogExtractFailed (cause : string)
  | LogArchiveDeleted (nm : string)
  | LogArchiveNotDeleted
  | LogExtractedCount (n : nat)
  | LogNoGameFiles
  | LogStarting (cores : nat)
  | LogStopped
  | LogJobException (nm : string)
  | LogSummary (successful failed total : nat)
  | LogSavings (original chd : nat).

Inductive Dialog : Type :=
  | WarnInvalidDirectory
  | WarnConflictingOptions
  | AskConfirmDeletion.

(** The check boxes and paths of the window: fixed during a run. *)
Record Options : Type := {
  source_dir : option (list string);
  recursive : bool;
  delete_originals : bool;
  move_to_backup : bool;
  extract_compressed : bool;
  delete_archives_after_extract : bool;
  process_ps1_cues : bool;
  process_ps2_isos : bool;
  chdman_path : string;
  seven_zip_path : option string;
  cpu_cores : nat
}.

(** One call of the external converter. *)
Record Cmd : Type := {
  tool : string;
  mode : string;
  input : list string;
  output : list string
}.

Record State : Type := {
  fs : gmap (list string) entry;
  is_converting : bool;
  log : list LogLine;
  chdman_calls : list Cmd;
  extract_calls : list (list string);
  total_original_size : nat;
  total_chd_size : nat;
  file_start_times : gmap (list string) Q;
  file_durations : list Q;
  total_jobs : nat;
  completed_jobs : nat;
  metrics_running : bool;
  dialogs : list Dialog
}.

Definition with_fs (f : gmap (list string) entry) (st : State) : State :=
  {| fs := f; is_converting := is_converting st; log := log st;
     chdman_calls := chdman_calls st; extract_calls := extract_calls st;
     total_original_size := total_original_size st;
     total_chd_size := total_chd_size st;
     file_start_times := file_start_times st;
     file_durations := file_durations st; total_jobs := total_jobs st;
     completed_jobs := completed_jobs st;
     metrics_running := metrics_running st; dialogs := dialogs st |}.

Definition with_converting (b : bool) (st : State) : State :=
  {| fs := fs st; is_converting := b; log := log st;
     chdman_calls := chdman_calls st; extract_calls := extract_calls st;
     total_original_size := total_original_size st;
     total_chd_size := total_chd_size st;
     file_start_times := file_start_times st;
     file_durations := file_durations st; total_jobs := total_jobs st;
     completed_jobs := completed_jobs st;
     metrics_running := metrics_running st; dialogs := dialogs st |}.

(** [self.log(message)] *)
Definition add_log (l : LogLine) (st : State) : State :=
  {| fs := fs st; is_converting := is_converting st; log := log st ++ [l];
     chdman_calls := chdman_calls st; extract_calls := extract_calls st;
     total_original_size := total_original_size st;
     total_chd_size := total_chd_size st;
     file_start_times := file_start_times st;
     file_durations := file_durations st; total_jobs := total_jobs st;
     completed_jobs := completed_jobs st;
     metrics_running := metrics_running st; dialogs := dialogs st |}.

Definition add_logs (ls : list LogLine) (st : State) : State :=
  fold_left (fun st l => add_log l st) ls st.

(** everything but the file system and the log *)
Definition control (st : State) :=
  (is_converting st, chdman_calls st, extract_calls st,
   (total_original_size st, total_chd_size st),
   (file_start_times st, file_durations st, total_jobs st, completed_jobs st),
   metrics_running st, dialogs st).

(** what a job leaves alone: the flag and the figures of the sampler *)
Definition sampler (st : State) :=
  (is_converting st, file_start_times st, file_durations st,
   total_jobs st, completed_jobs st, metrics_running st).

Definition record_chdman (c : Cmd) (st : State) : State :=
  {| fs := fs st; is_converting := is_converting st; log := log st;
     chdman_calls := chdman_calls st ++ [c]; extract_calls := extract_calls st;
     total_original_size := total_original_size st;
     total_chd_size := total_chd_size st;
     file_start_times := file_start_times st;
     file_durations := file_durations st; total_jobs := total_jobs st;
     completed_jobs := completed_jobs st;
     metrics_running := metrics_running st; dialogs := dialogs st |}.

Definition record_extract (p : Path) (st : State) : State :=
  {| fs := fs st; is_converting := is_converting st; log := log st;
     chdman_calls := chdman_calls st; extract_calls := extract_calls st ++ [p];
     total_original_size := total_original_size st;
     total_chd_size := total_chd_size st;
     file_start_times := file_start_times st;
     file_durations := file_durations st; total_jobs := total_jobs st;
     completed_jobs := completed_jobs st;
     metrics_running := metrics_running st; dialogs := dialogs st |}.

Definition with_sizes (orig chd : nat) (st : State) : State :=
  {| fs := fs st; is_converting := is_converting st; log := log st;
     chdman_calls := chdman_calls st; extract_calls := extract_calls st;
     total_original_size := orig; total_chd_size := chd;
     file_start_times := file_start_times st;
     file_durations := file_durations st; total_jobs := total_jobs st;
     completed_jobs := completed_jobs st;
     metrics_running := metrics_running st; dialogs := dialogs st |}.

Definition with_metrics (starts : gmap (list string) Q) (durations : list Q)
    (total completed : nat) (running : bool) (st : State) : State :=
  {| fs := fs st; is_converting := is_converting st; log := log st;
     chdman_calls := chdman_calls st; extract_calls := extract_calls st;
     total_original_size := total_original_size st;
     total_chd_size := total_chd_size st;
     file_start_times := starts; file_durations := durations;
     total_jobs := total; completed_jobs := completed;
     metrics_running := running; dialogs := dialogs st |}.

Definition show_dialog (d : Dialog) (st : State) : State :=
  {| fs := fs st; is_converting := is_converting st; log := log st;
     chdman_calls := chdman_calls st; extract_calls := extract_calls st;
     total_original_size := total_original_size st;
     total_chd_size := total_chd_size st;
     file_start_times := file_start_times st;
     file_durations := file_durations st; total_jobs := total_jobs st;
     completed_jobs := completed_jobs st;
     metrics_running := metrics_running st; dialogs := dialogs st ++ [d] |}.

(** What a call can do besides returning: raise. *)
Inductive Outcome (A : Type) : Type :=
  | Return (a : A)
  | Raise.
Arguments Return {A} a.
Arguments Raise {A}.

(** ** The external tools *)

(** [subprocess.run(cmd, ..., timeout=1800)] for chdman: the outcome and
    the file system it leaves. *)
Inductive ConvResult : Type :=
  | Exited (returncode : Z) (stderr : string) (fs' : gmap (list string) entry)
  | TimedOut (fs' : gmap (list string) entry)
  | Failed (fs' : gmap (list string) entry).

Inductive Decoder : Type := Zip | Tar (gz : bool) | SevenZip (exe : string).

(** What an archive decoder does: [BadArchive] is [zipfile.BadZipFile] or
    [tarfile.TarError], [NonZeroExit] a 7-Zip failure, [Expired] the
    time-out of the 7-Zip call, [OtherError] any other exception. *)
Inductive UnpackResult : Type :=
  | Unpacked (fs' : gmap (list string) entry)
  | BadArchive (fs' : gmap (list string) entry)
  | NonZeroExit (stderr : string) (fs' : gmap (list string) entry)
  | Expired (fs' : gmap (list string) entry)
  | OtherError (fs' : gmap (list string) entry).

Class ExternalTools : Type := {
  chdman : Cmd -> gmap (list string) entry -> ConvResult;
  unpack : Decoder -> list string -> list string -> gmap (list string) entry -> UnpackResult
}.

(** ** The conversion pipeline *)

Section Engine.
Context {tools : ExternalTools}.
Variable opts : Options.

(** [parse_cue_file]: the loop over the matches (lines 820-825) *)
Fixpoint resolve_refs (cue_dir : Path) (matches : list string) (st : State)
  : State * list (list string) :=
  match matches with
  | [] => (st, [])
  | m :: rest =>
      let bin_path := Pathlib.joinpath cue_dir m in
      if Fs.exists_ (fs st) bin_path then
        let '(st', bins) := resolve_refs cue_dir rest st in
        (st', bin_path :: bins)
      else resolve_refs cue_dir rest (add_log (LogBinMissing m) st)
  end.

(** a reference that resolves to no entry *)
Definition missing (f : gmap (list string) entry) (cue_dir : Path) (m : string) : bool :=
  negb (Fs.exists_ f (Pathlib.joinpath cue_dir m)).

(** [parse_cue_file] (lines 807-830) *)
Definition parse_cue_file (cue_path : Path) (st : State)
  : State * list (list string) :=
  let cue_dir := Pathlib.parent cue_path in
  match fs st !! cue_path with
  | Some (File content) => resolve_refs cue_dir (Cue.findall content) st
  | _ => (add_log LogCueError st, [])
  end.

(** [sum(f.stat().st_size for f in bins)] *)
Fixpoint sum_sizes (f : gmap (list string) entry) (bins : list (list string))
  : option nat :=
  match bins with
  | [] => Some 0
  | b :: rest =>
      match Fs.st_size f b, sum_sizes f rest with
      | Some n, Some m => Some (n + m)
      | _, _ => None
      end
  end.

(** the [try] block of [convert_to_chd] (lines 947-973) *)
Definition run_chdman (cmd : Cmd) (original_size : nat) (label : string)
    (path chd_path : Path) (st : State) : State * bool :=
  let st := add_log (LogConverting label (Pathlib.name path) (Pathlib.name chd_path)) st in
  let st := record_chdman cmd st in
  match chdman cmd (fs st) with
  | Exited returncode stderr fs' =>
      let st := with_fs fs' st in
      match Z.eqb returncode 0, Fs.st_size fs' chd_path with
      | true, Some chd_size =>
          let st := with_sizes (total_original_size st + original_size)
                               (total_chd_size st + chd_size) st in
          (add_log (LogSuccess original_size chd_size) st, true)
      | _, _ => (add_log (LogConversionFailed stderr) st, false)
      end
  | TimedOut fs' => (add_log LogTimeout (with_fs fs' st), false)
  | Failed fs' => (add_log LogException (with_fs fs' st), false)
  end.

(** [convert_to_chd] (lines 925-973) *)
Definition convert_to_chd (path : Path) (st : State) : State * Outcome bool :=
  let chd_path := Pathlib.with_suffix path ".chd" in
  if Fs.exists_ (fs st) chd_path then
    (add_log (LogChdExists (Pathlib.name chd_path)) st, Return true)
  else if String.eqb (Pathlib.lower_string (Pathlib.suffix path)) ".cue" then
    let cmd := {| tool := chdman_path opts; mode := "createcd";
                  input := path; output := chd_path |} in
    let '(st, bins) := parse_cue_file path st in
    match sum_sizes (fs st) bins, Fs.st_size (fs st) path with
    | Some b, Some c =>
        let '(st, ok) := run_chdman cmd (b + c) "PS1" path chd_path st in
        (st, Return ok)
    | _, _ => (st, Raise)
    end
  else if String.eqb (Pathlib.lower_string (Pathlib.suffix path)) ".iso" then
    let cmd := {| tool := chdman_path opts; mode := "createdvd";
                  input := path; output := chd_path |} in
    match Fs.st_size (fs st) path with
    | Some c =>
        let '(st, ok) := run_chdman cmd c "PS2" path chd_path st in
        (st, Return ok)
    | None => (st, Raise)
    end
  else (add_log (LogUnsupported (Pathlib.name path)) st, Return false).

(** the name tried after [counter - 1] collisions in the backup folder:
    [f"{stem}_{counter}{suffix}"] (lines 991, 1001) *)
Definition backup_candidate (backup_dir p : Path) (counter : nat) : Path :=
  Pathlib.joinpath backup_dir
    (Pathlib.stem p ++ "_" ++ Pathlib.str_of_nat counter ++ Pathlib.suffix p)%string.

(** lines 987-994 and 998-1004: one file into the backup folder; [None]
    when an exception leaves the [try] block *)
Definition backup_one (backup_dir p : Path) (st : State) : option State :=
  if Fs.exists_ (fs st) p then
    let dest := Pathlib.joinpath backup_dir (Pathlib.name p) in
    match Fs.first_free (S (size (fs st))) (backup_candidate backup_dir p) 1 dest (fs st) with
    | Some dest =>
        match Fs.move (fs st) p dest with
        | Some fs' => Some (add_log (LogMovedToBackup (Pathlib.name p)) (with_fs fs' st))
        | None => None
        end
    | None => None
    end
  else Some st.

Fixpoint backup_all (backup_dir : Path) (files : list (list string)) (st : State)
  : State * bool :=
  match files with
  | [] => (st, true)
  | p :: rest =>
      match backup_one backup_dir p st with
      | Some st' => backup_all backup_dir rest st'
      | None => (st, false)
      end
  end.

(** [move_to_backup_folder] (lines 975-1009) *)
Definition move_to_backup_folder (cue_path : Path) (st : State) : State * bool :=
  let backup_dir := Pathlib.joinpath (Pathlib.parent cue_path) "original_backup" in
  match Fs.mkdir (fs st) backup_dir with
  | Some fs' =>
      let '(st, bin_files) := parse_cue_file cue_path (with_fs fs' st) in
      match backup_all backup_dir (bin_files ++ [cue_path]) st with
      | (st, true) => (st, true)
      | (st, false) => (add_log LogBackupError st, false)
      end
  | None => (add_log LogBackupError st, false)
  end.

(** lines 1018-1020 and 1023-1025: one file; [None] when [unlink] raises *)
Definition delete_one (p : Path) (st : State) : option State :=
  if Fs.exists_ (fs st) p then
    match Fs.unlink (fs st) p with
    | Some fs' => Some (add_log (LogDeleted (Pathlib.name p)) (with_fs fs' st))
    | None => None
    end
  else Some st.

Fixpoint delete_all (files : list (list string)) (st : State) : State * bool :=
  match files with
  | [] => (st, true)
  | p :: rest =>
      match delete_one p st with
      | Some st' => delete_all rest st'
      | None => (st, false)
      end
  end.

(** [delete_original_files] (lines 1011-1030) *)
Definition delete_original_files (cue_path : Path) (st : State) : State * bool :=
  let '(st, bin_files) := parse_cue_file cue_path st in
  match delete_all (bin_files ++ [cue_path]) st with
  | (st, true) => (st, true)
  | (st, false) => (add_log LogDeleteError st, false)
  end.

(** [process_single_file], lines 1034-1039: the cancellation check and
    the start time; [None] when the job returns [None] at once *)
Definition process_begin (cue_file : Path) (file_num total : nat) (now : Q)
    (st : State) : option State :=
  if negb (is_converting st) then None
  else
    let st := with_metrics (<[cue_file := now]> (file_start_times st))
                (file_durations st) (total_jobs st) (completed_jobs st)
                (metrics_running st) st in
    Some (add_log (LogProcessing file_num total (Pathlib.name cue_file)) st).

(** lines 1043-1047 *)
Definition postprocess (cue_file : Path) (st : State) : State :=
  if delete_originals opts then fst (delete_original_files cue_file st)
  else if move_to_backup opts then fst (move_to_backup_folder cue_file st)
  else st.

(** [process_single_file], lines 1041-1049 *)
Definition process_body (cue_file : Path) (st : State)
  : State * Outcome (option bool) :=
  match convert_to_chd cue_file st with
  | (st, Return true) => (postprocess cue_file st, Return (Some true))
  | (st, Return false) => (st, Return (Some false))
  | (st, Raise) => (st, Raise)
  end.


End Engine.

(** ** Scanning and extraction *)

(** The members of the set [COMPRESSED_EXTENSIONS] (line 36), in the order
    the source lists them; the scan sorts its result. *)
Definition COMPRESSED_EXTENSIONS : list string :=
  [".zip"; ".7z"; ".rar"; ".gz"; ".tar"; ".tar.gz"; ".tgz"]%string.

Section Scan.
Context {tools : ExternalTools}.
Variable opts : Options.

(** [find_game_files] (lines 790-805) *)
Definition find_game_files (f : gmap (list string) entry) (directory : Path)
    (rec : bool) : list (list string) :=
  sorted ((if process_ps1_cues opts then Fs.glob f directory rec ".cue" else [])
          ++ (if process_ps2_isos opts then Fs.glob f directory rec ".iso" else [])).

(** what the scanner is to find *)
Definition is_game_file (f : gmap (list string) entry) (dir : Path) (rec : bool)
    (p : Path) : Prop :=
  is_Some (f !! p) /\ Fs.below dir rec p = true /\
  ((process_ps1_cues opts = true /\ Pathlib.endswith (Pathlib.name p) ".cue" = true)
   \/ (process_ps2_isos opts = true /\ Pathlib.endswith (Pathlib.name p) ".iso" = true)).

(** [find_compressed_files] (lines 682-693) *)
Definition find_compressed_files (f : gmap (list string) entry) (directory : Path)
    (rec : bool) : list (list string) :=
  sorted (flat_map (Fs.glob f directory rec) COMPRESSED_EXTENSIONS).

(** lines 700-704 *)
Definition extract_folder (archive_path : Path) : Path :=
  let nm := Pathlib.name archive_path in
  if Pathlib.endswith nm ".tar.gz" || Pathlib.endswith nm ".tgz" then
    Pathlib.joinpath (Pathlib.parent archive_path)
      (Pathlib.replace_empty (Pathlib.replace_empty nm ".tar.gz") ".tgz")
  else Pathlib.joinpath (Pathlib.parent archive_path) (Pathlib.stem archive_path).

(** the decoder call and the [except] clauses (lines 748-759) *)
Definition run_decoder (d : Decoder) (label : string) (archive_path folder : Path)
    (st : State) : State * option (list string) :=
  let st := add_log (LogExtracting label (Pathlib.name archive_path)) st in
  match unpack d archive_path folder (fs st) with
  | Unpacked fs' =>
      (add_log (LogExtracted (Pathlib.name folder)) (with_fs fs' st), Some folder)
  | BadArchive fs' => (add_log (LogExtractFailed "bad archive") (with_fs fs' st), None)
  | NonZeroExit stderr fs' => (add_log (LogExtractFailed stderr) (with_fs fs' st), None)
  | Expired fs' => (add_log (LogExtractFailed "timeout") (with_fs fs' st), None)
  | OtherError fs' => (add_log (LogExtractFailed "error") (with_fs fs' st), None)
  end.

(** [extract_archive] (lines 695-759): [Some folder] for [(True, folder)],
    [None] for [(False, None)] *)
Definition extract_archive (archive_path : Path) (st : State)
  : State * option (list string) :=
  let st := record_extract archive_path st in
  let folder := extract_folder archive_path in
  match Fs.mkdir (fs st) folder with
  | None => (add_log (LogExtractFailed "error") st, None)
  | Some fs' =>
      let st := with_fs fs' st in
      let ext := Pathlib.lower_string (Pathlib.suffix archive_path) in
      if String.eqb ext ".zip" then run_decoder Zip "ZIP" archive_path folder st
      else if String.eqb ext ".tar" || String.eqb ext ".gz" || String.eqb ext ".tgz"
              || Pathlib.endswith (Pathlib.name archive_path) ".tar.gz" then
        let gz := String.eqb ext ".gz" || String.eqb ext ".tgz"
                  || Pathlib.endswith (Pathlib.name archive_path) ".tar.gz" in
        run_decoder (Tar gz) "TAR" archive_path folder st
      else if String.eqb ext ".7z" || String.eqb ext ".rar" then
        match seven_zip_path opts with
        | None => (add_log (LogNoSevenZip ext) st, None)
        | Some exe => run_decoder (SevenZip exe) "7-Zip" archive_path folder st
        end
      else (add_log (LogUnsupportedArchive ext) st, None)
  end.

(** the loop of [extract_all_archives] (lines 775-786) *)
Fixpoint extract_each (archives : list (list string)) (st : State)
  : State * list (list string) :=
  match archives with
  | [] => (st, [])
  | archive :: rest =>
      match extract_archive archive st with
      | (st, Some folder) =>
          let st :=
            if delete_archives_after_extract opts then
              match Fs.unlink (fs st) archive with
              | Some fs' => add_log (LogArchiveDeleted (Pathlib.name archive)) (with_fs fs' st)
              | None => add_log LogArchiveNotDeleted st
              end
            else st in
          let '(st, folders) := extract_each rest st in
          (st, folder :: folders)
      | (st, None) => extract_each rest st
      end
  end.

(** [extract_all_archives] (lines 761-788) *)
Definition extract_all_archives (directory : Path) (rec : bool) (st : State)
  : State * list (list string) :=
  match find_compressed_files (fs st) directory rec with
  | [] => (add_log LogNoCompressed st, [])
  | compressed_files =>
      extract_each compressed_files
        (add_log (LogFoundCompressed (map Pathlib.name compressed_files)) st)
  end.

End Scan.

(** ** The worker pool (lines 1086-1123)

    [ThreadPoolExecutor] and [as_completed] are modelled by an explicit
    interleaving: a schedule is a list of events, each of which lets one
    thread take one step.  A job takes two steps: [Dispatch] runs the
    cancellation check and records the start time (lines 1034-1039),
    [Finish] runs the conversion and the postprocessing (lines 1041-1049)
    in one piece, so that in a schedule no job acts on the files while
    another converts or postprocesses. *)

Record Pool : Type := {
  app : State;
  (** work items not yet taken by a worker, first submitted first *)
  pending : list (nat * list string);
  (** jobs past the cancellation check *)
  running : list (list string);
  (** finished futures that [as_completed] has not yet yielded *)
  finished : list (list string * Outcome (option bool));
  successful : nat;
  failed : nat;
  completed : nat;
  total : nat;
  (** the [for] loop over [as_completed] has not ended *)
  collecting : bool;
  (** history: the jobs that passed the cancellation check, and the jobs
      whose outcome entered the tally *)
  started : list (list string);
  counted : list (list string)
}.

Inductive Event : Type :=
  | Dispatch (now : Q)
  | Finish (i : nat)
  | Collect (now : Q)
  | Stop.

Section Orchestrator.
Context {tools : ExternalTools}.
Variable opts : Options.

(** line 1093: all jobs are submitted at once, numbered from 1 *)
Definition submit_all (game_files : list (list string)) (st : State) : Pool :=
  {| app := st;
     pending := combine (seq 1 (length game_files)) game_files;
     running := []; finished := [];
     successful := 0; failed := 0; completed := 0;
     total := length game_files; collecting := true;
     started := []; counted := [] |}.

(** a free worker takes the next work item *)
Definition dispatch (now : Q) (p : Pool) : Pool :=
  if length (running p) <? cpu_cores opts then
    match pending p with
    | [] => p
    | (file_num, f) :: rest =>
        match process_begin f file_num (total p) now (app p) with
        | None =>
            {| app := app p; pending := rest; running := running p;
               finished := finished p ++ [(f, Return None)];
               successful := successful p; failed := failed p;
               completed := completed p; total := total p;
               collecting := collecting p;
               started := started p; counted := counted p |}
        | Some st =>
            {| app := st; pending := rest; running := running p ++ [f];
               finished := finished p;
               successful := successful p; failed := failed p;
               completed := completed p; total := total p;
               collecting := collecting p;
               started := started p ++ [f]; counted := counted p |}
        end
    end
  else p.

(** the [i]-th running job runs to its end *)
Definition finish (i : nat) (p : Pool) : Pool :=
  match running p !! i with
  | None => p
  | Some f =>
      let '(st, out) := process_body opts f (app p) in
      {| app := st; pending := pending p; running := delete i (running p);
         finished := finished p ++ [(f, out)];
         successful := successful p; failed := failed p;
         completed := completed p; total := total p;
         collecting := collecting p;
         started := started p; counted := counted p |}
  end.

(** lines 1112-1116 *)
Definition record_completion (f : Path) (now : Q) (done : nat) (st : State) : State :=
  let durations :=
    match file_start_times st !! f with
    | Some started_at =>
        if Qeq_bool started_at 0 then file_durations st
        else file_durations st ++ [(now - started_at)%Q]
    | None => file_durations st
    end in
  with_metrics (file_start_times st) durations (total_jobs st) done
    (metrics_running st) st.

(** one round of the loop over [as_completed] (lines 1096-1123) *)
Definition collect (now : Q) (p : Pool) : Pool :=
  if collecting p then
    match finished p with
    | [] => p
    | (f, out) :: rest =>
        if negb (is_converting (app p)) then
          {| app := add_log LogStopped (app p); pending := []; running := running p;
             finished := rest;
             successful := successful p; failed := failed p;
             completed := completed p; total := total p;
             collecting := false;
             started := started p; counted := counted p |}
        else
          match out with
          | Return None =>
              {| app := app p; pending := pending p; running := running p;
                 finished := rest;
                 successful := successful p; failed := failed p;
                 completed := completed p; total := total p;
                 collecting := collecting p;
                 started := started p; counted := counted p |}
          | Return (Some result) =>
              {| app := record_completion f now (S (completed p)) (app p);
                 pending := pending p; running := running p;
                 finished := rest;
                 successful := if result then S (successful p) else successful p;
                 failed := if result then failed p else S (failed p);
                 completed := S (completed p); total := total p;
                 collecting := collecting p;
                 started := started p; counted := counted p ++ [f] |}
          | Raise =>
              {| app := add_log (LogJobException (Pathlib.name f)) (app p);
                 pending := pending p; running := running p;
                 finished := rest;
                 successful := successful p; failed := S (failed p);
                 completed := completed p; total := total p;
                 collecting := collecting p;
                 started := started p; counted := counted p ++ [f] |}
          end
    end
  else p.

(** [stop_conversion] (line 1200) *)
Definition stop (p : Pool) : Pool :=
  {| app := with_converting false (app p); pending := pending p;
     running := running p; finished := finished p;
     successful := successful p; failed := failed p;
     completed := completed p; total := total p;
     collecting := collecting p;
     started := started p; counted := counted p |}.

Definition step (p : Pool) (e : Event) : Pool :=
  match e with
  | Dispatch now => dispatch now p
  | Finish i => finish i p
  | Collect now => collect now p
  | Stop => stop p
  end.

Definition exec (schedule : list Event) (p : Pool) : Pool :=
  fold_left step schedule p.

(** every job that converts while [schedule] runs finds its output
    present at that time *)
Fixpoint outputs_exist (schedule : list Event) (p : Pool) : Prop :=
  match schedule with
  | [] => True
  | e :: rest =>
      match e with
      | Finish i =>
          match running p !! i with
          | Some f => Fs.exists_ (fs (app p)) (Pathlib.with_suffix f ".chd") = true
          | None => True
          end
      | _ => True
      end
      /\ outputs_exist rest (step p e)
  end.

(** what holds of the pool while every job is skipped: [K] jobs, [c0] the
    converter calls made before the run *)
Definition skip_inv (K : nat) (c0 : list Cmd) (p : Pool) : Prop :=
  is_converting (app p) = true /\ chdman_calls (app p) = c0 /\ failed p = 0
  /\ Forall (fun x => snd x = Return (Some true)) (finished p)
  /\ successful p + length (finished p) + length (running p) + length (pending p) = K
  /\ collecting p = true.

(** the jobs in the tally are jobs that were started *)
Definition tally_inv (p : Pool) : Prop :=
  (forall f, In f (running p) -> In f (started p))
  /\ (forall f out, In (f, out) (finished p) -> out <> Return None -> In f (started p))
  /\ (forall f, In f (counted p) -> In f (started p))
  /\ successful p + failed p = length (counted p).

(** a start time was recorded for [f], and it is a time that counts as set *)
Definition timed (st : State) (f : list string) : Prop :=
  exists t, file_start_times st !! f = Some t /\ Qeq_bool t 0 = false.

(** the figures of the sampler follow the tally *)
Definition sampler_inv (p : Pool) : Prop :=
  completed_jobs (app p) = completed p
  /\ length (file_durations (app p)) = completed p
  /\ (forall f, In f (running p) -> timed (app p) f)
  /\ (forall f out, In (f, out) (finished p) -> out <> Return None -> timed (app p) f).

(** the converter is called for jobs of [jobs] only *)
Definition calls_within (c0 : list Cmd) (jobs : list (list string)) (p : Pool) : Prop :=
  (forall c, In c (chdman_calls (app p)) -> In c c0 \/ In (input c) jobs)
  /\ (forall f, In f (running p) -> In f jobs).

(** the [with] block is left: the loop has ended and no job is running *)
Definition quiescent (p : Pool) : bool :=
  match pending p, running p with
  | [], [] => negb (collecting p) || match finished p with [] => true | _ => false end
  | _, _ => false
  end.

(** lines 1125-1147 *)
Definition summary (p : Pool) : State :=
  let st := add_log (LogSummary (successful p) (failed p) (total p)) (app p) in
  let st := if 0 <? total_original_size st
            then add_log (LogSavings (total_original_size st) (total_chd_size st)) st
            else st in
  with_converting false st.

(** [conversion_thread] (lines 1051-1147), up to the end of [schedule] *)
Definition conversion_thread (directory : Path) (schedule : list Event)
    (st : State) : State :=
  let st :=
    if extract_compressed opts then
      let '(st, extracted_folders) :=
        extract_all_archives opts directory (recursive opts)
          (add_log LogExtractingHeader st) in
      match extracted_folders with
      | [] => st
      | _ => add_log (LogExtractedCount (length extracted_folders)) st
      end
    else st in
  let game_files := find_game_files opts (fs st) directory (recursive opts) in
  let st := with_metrics (file_start_times st) (file_durations st)
              (length game_files) 0 (metrics_running st) st in
  match game_files with
  | [] => with_converting false (add_log LogNoGameFiles st)
  | _ =>
      let st := add_log (LogStarting (cpu_cores opts)) (with_sizes 0 0 st) in
      let p := exec schedule (submit_all game_files st) in
      if quiescent p then summary p else app p
  end.

(** [start_conversion] (lines 1149-1196): the new state, and whether the
    conversion thread was started.  [confirm] is the answer to the
    deletion dialog. *)
Definition start_conversion (confirm : bool) (st : State) : State * bool :=
  match source_dir opts with
  | None => (show_dialog WarnInvalidDirectory st, false)
  | Some directory =>
      if negb (Fs.isdir (fs st) directory) then
        (show_dialog WarnInvalidDirectory st, false)
      else if delete_originals opts && move_to_backup opts then
        (show_dialog WarnConflictingOptions st, false)
      else
        let st := if delete_originals opts then show_dialog AskConfirmDeletion st else st in
        if delete_originals opts && negb confirm then (st, false)
        else
          let st := with_converting true st in
          (with_metrics ∅ []
             (length (find_game_files opts (fs st) directory (recursive opts)))
             0 true st, true)
  end.

(** a click on the start button, followed by the thread it starts *)
Definition run_request (confirm : bool) (schedule : list Event) (st : State) : State :=
  match start_conversion confirm st, source_dir opts with
  | (st, true), Some directory => conversion_thread directory schedule st
  | (st, _), _ => st
  end.

(** ** [update_metrics] (lines 1225-1234) *)

(** [sum(durations)/len(durations)] *)
Definition mean (durations : list Q) : Q :=
  (fold_right Qplus 0 durations / inject_Z (Z.of_nat (length durations)))%Q.

Definition avg_time (st : State) : Q :=
  match file_durations st with
  | [] => 0%Q
  | durations => mean durations
  end.

Definition remaining (st : State) : Z :=
  Z.max (Z.of_nat (total_jobs st) - Z.of_nat (completed_jobs st)) 0.

(** [None] stands for an estimate that is [None] *)
Definition overall_eta (st : State) : option Q :=
  if Qeq_bool (avg_time st) 0 then None
  else Some (avg_time st *
             (inject_Z (remaining st) / inject_Z (Z.max (Z.of_nat (cpu_cores opts)) 1)))%Q.

(** what one tick reads and derives; [None] when the sampler has stopped *)
Definition update_metrics (st : State) : option (nat * nat * Q * option Q) :=
  if metrics_running st
  then Some (completed_jobs st, total_jobs st, avg_time st, overall_eta st)
  else None.

End Orchestrator.

(** ** Moving converted files (lines 1404-1476) *)

Inductive MoveReport : Type :=
  | Moved (original_name dest_name : string)
  | NotMoved (nm : string).

Section MoveChd.
Variables remove_locale copy_instead : bool.
Variable dest_path : Path.

(** lines 1443-1447 *)
Definition new_name (chd : Path) : string :=
  if remove_locale then (clean_game_name (Pathlib.stem chd) ++ ".chd")%string
  else Pathlib.name chd.

(** lines 1454-1455: the name tried after [counter - 1] collisions *)
Definition chd_candidate (nm : string) (counter : nat) : Path :=
  Pathlib.joinpath dest_path
    (Pathlib.rsplit_dot_head nm ++ " (" ++ Pathlib.str_of_nat counter ++ ").chd")%string.

(** lines 1449-1456 *)
Definition dest_for (chd : Path) (f : gmap (list string) entry) : option (list string) :=
  Fs.first_free (S (size f)) (chd_candidate (new_name chd)) 1
    (Pathlib.joinpath dest_path (new_name chd)) f.

(** one round of the loop (lines 1441-1468) *)
Definition move_one (chd : Path) (f : gmap (list string) entry)
  : gmap (list string) entry * MoveReport :=
  match dest_for chd f with
  | Some dest_file =>
      match (if copy_instead then Fs.copy2 f chd dest_file
             else Fs.move f chd dest_file) with
      | Some f' => (f', Moved (Pathlib.stem chd) (Pathlib.name dest_file))
      | None => (f, NotMoved (Pathlib.name chd))
      end
  | None => (f, NotMoved (Pathlib.name chd))
  end.

Fixpoint move_each (found_files : list (list string)) (f : gmap (list string) entry)
  : gmap (list string) entry * list MoveReport :=
  match found_files with
  | [] => (f, [])
  | chd :: rest =>
      let '(f1, r) := move_one chd f in
      let '(f2, rs) := move_each rest f1 in
      (f2, r :: rs)
  end.

Definition is_moved (r : MoveReport) : bool :=
  match r with Moved _ _ => true | NotMoved _ => false end.

(** [execute_move] after its dialogs: the file system, the lines of the
    report, [success_count] and [error_count]; [None] when [mkdir]
    raises *)
Definition execute_move (found_files : list (list string))
    (f : gmap (list string) entry)
  : option (gmap (list string) entry * list MoveReport * nat * nat) :=
  match Fs.mkdir_parents f [] dest_path with
  | None => None
  | Some f =>
      let '(f', reports) := move_each found_files f in
      Some (f', reports, length (List.filter is_moved reports),
            length (List.filter (fun r => negb (is_moved r)) reports))
  end.

End MoveChd.

(** ** Sample data *)

Module Demo.

(** a converter that always writes its output, and decoders that always
    succeed *)
Definition ideal_chdman (c : Cmd) (f : gmap (list string) entry) : ConvResult :=
  Exited 0 EmptyString (<[output c := File "chd"]> f).

Definition ideal_unpack (d : Decoder) (archive folder : list string)
    (f : gmap (list string) entry) : UnpackResult :=
  Unpacked f.

Definition ideal : ExternalTools :=
  {| chdman := ideal_chdman; unpack := ideal_unpack |}.

Definition quote : string := String "034"%char EmptyString.
Definition newline : string := String "010"%char EmptyString.

(** a track list with three references *)
Definition track_list : string :=
  ("FILE " ++ quote ++ "Track 1.bin" ++ quote ++ " BINARY" ++ newline
   ++ "  TRACK 01 MODE2/2352" ++ newline
   ++ "FILE " ++ quote ++ "Track 2.bin" ++ quote ++ " BINARY" ++ newline
   ++ "FILE " ++ quote ++ "Track 3.bin" ++ quote ++ " BINARY" ++ newline)%string.

Definition roms : list string := ["/"; "roms"]%string.
Definition game_cue : list string := roms ++ ["Game.cue"%string].
Definition other_iso : list string := roms ++ ["Other.iso"%string].
Definition pack : list string := roms ++ ["pack.tar.gz"%string].

(** [Track 3.bin] is missing *)
Definition disc_fs : gmap (list string) entry :=
  list_to_map
    [ (roms, Dir);
      (game_cue, File track_list);
      (roms ++ ["Track 1.bin"%string], File "11111111");
      (roms ++ ["Track 2.bin"%string], File "2222");
      (other_iso, File "isoisoiso");
      (pack, File "tgz") ].

(** the same directory after an earlier run *)
Definition converted_fs : gmap (list string) entry :=
  <[roms ++ ["Game.chd"%string] := File "chd"]>
    (<[roms ++ ["Other.chd"%string] := File "chd"]> disc_fs).

Definition state_of (f : gmap (list string) entry) (converting : bool) : State :=
  {| fs := f; is_converting := converting; log := [];
     chdman_calls := []; extract_calls := [];
     total_original_size := 0; total_chd_size := 0;
     file_start_times := ∅; file_durations := [];
     total_jobs := 0; completed_jobs := 0;
     metrics_running := false; dialogs := [] |}.

Definition options (delete move : bool) (cues isos : bool) (cores : nat) : Options :=
  {| source_dir := Some roms; recursive := true;
     delete_originals := delete; move_to_backup := move;
     extract_compressed := true; delete_archives_after_extract := false;
     process_ps1_cues := cues; process_ps2_isos := isos;
     chdman_path := "chdman"; seven_zip_path := None; cpu_cores := cores |}.

(** two converted files that clean to the same name *)
Definition usa : list string := ["/"; "a"; "Game (USA).chd"]%string.
Definition europe : list string := ["/"; "b"; "Game (Europe).chd"]%string.
Definition shelf : list string := ["/"; "shelf"]%string.

Definition chd_fs : gmap (list string) entry :=
  list_to_map [ (usa, File "usa"); (europe, File "europe"); (shelf, Dir) ].

End Demo.

(** ** Running a pool to its end *)

(** a schedule that lets the pool [p] run to its end: the running jobs
    finish, every pending job is started and finishes, and the loop over
    [as_completed] takes every future *)
Definition drain (p : Pool) : list Event :=
  repeat (Finish 0) (length (running p))
  ++ concat (repeat [Dispatch 1; Finish 0] (length (pending p)))
  ++ repeat (Collect 1)
       (length (finished p) + length (running p) + length (pending p)).

(** every job still to run has its output in place, and the files are
    those of [f0] *)
Definition outputs_inv (f0 : gmap (list string) entry) (p : Pool) : Prop :=
  fs (app p) = f0
  /\ Forall (fun f => Fs.exists_ f0 (Pathlib.with_suffix f ".chd") = true) (running p)
  /\ Forall (fun x => Fs.exists_ f0 (Pathlib.with_suffix (snd x) ".chd") = true) (pending p).

(** ** [move_to_backup_folder] beside other jobs

    The jobs of the pool call [move_to_backup_folder] in worker threads,
    and nothing locks the file system between them.  Here one call is cut
    where another thread can run between its reading and its writing of the
    backup folder: the test of the source and the search for a free name
    (lines 986-992, 997-1002) are one step, [shutil.move] with its log line
    (lines 993-994, 1003-1004) is the next. *)
Inductive BackupJob : Type :=
  (** the call has begun *)
  | BackupStart (cue_path : list string)
  (** [files] are still to be moved *)
  | BackupNext (backup_dir : list string) (files : list (list string))
  (** [dest] was found free for [p]; [shutil.move] comes next *)
  | BackupChosen (backup_dir p dest : list string) (files : list (list string))
  (** the call has returned [ok] *)
  | BackupEnd (ok : bool).

Definition backup_step (j : BackupJob) (st : State) : State * BackupJob :=
  match j with
  | BackupStart cue_path =>
      let backup_dir := Pathlib.joinpath (Pathlib.parent cue_path) "original_backup" in
      match Fs.mkdir (fs st) backup_dir with
      | Some fs' =>
          let '(st, bin_files) := parse_cue_file cue_path (with_fs fs' st) in
          (st, BackupNext backup_dir (bin_files ++ [cue_path]))
      | None => (add_log LogBackupError st, BackupEnd false)
      end
  | BackupNext backup_dir [] => (st, BackupEnd true)
  | BackupNext backup_dir (p :: rest) =>
      if Fs.exists_ (fs st) p then
        match Fs.first_free (S (size (fs st))) (backup_candidate backup_dir p) 1
                (Pathlib.joinpath backup_dir (Pathlib.name p)) (fs st) with
        | Some dest => (st, BackupChosen backup_dir p dest rest)
        | None => (add_log LogBackupError st, BackupEnd false)
        end
      else (st, BackupNext backup_dir rest)
  | BackupChosen backup_dir p dest rest =>
      match Fs.move (fs st) p dest with
      | Some fs' =>
          (add_log (LogMovedToBackup (Pathlib.name p)) (with_fs fs' st),
           BackupNext backup_dir rest)
      | None => (add_log LogBackupError st, BackupEnd false)
      end
  | BackupEnd ok => (st, BackupEnd ok)
  end.

(** a call that runs with no other thread in between *)
Fixpoint backup_run (fuel : nat) (j : BackupJob) (st : State) : State * BackupJob :=
  match fuel with
  | 0 => (st, j)
  | S fuel' => let '(st', j') := backup_step j st in backup_run fuel' j' st'
  end.


(** some file holds the content [c] *)
Definition has_content (f : gmap (list string) entry) (c : string) : Prop :=
  exists p, f !! p = Some (File c).

(** two track lists in one folder whose files have the same name *)
Module Race.




(** both calls find [original_backup/track.bin] free before either moves *)
Definition schedule : list bool :=
  [true; false; true; false; true; false; true; true; true; false; false; false].

End Race.

(** ** Further invariants of the pool *)

(** while a run is not stopped, every submitted job is counted, waits to
    be collected, runs or is pending *)
Definition account_inv (p : Pool) : Prop :=
  is_converting (app p) = true /\ collecting p = true
  /\ Forall (fun x => snd x <> Return None) (finished p)
  /\ successful p + failed p + length (finished p) + length (running p)
     + length (pending p) = total p
  /\ completed p <= successful p + failed p.

(** the figures the sampler reads stay within the number of jobs *)
Definition progress_inv (p : Pool) : Prop :=
  completed_jobs (app p) = completed p /\ total_jobs (app p) = total p
  /\ completed p + length (finished p) + length (running p) + length (pending p)
     <= total p.

(** the converter calls made since the run began are for different jobs,
    none of them a job that still runs or is pending *)
Definition once_inv (c0 : list Cmd) (jobs : list (list string)) (p : Pool) : Prop :=
  exists calls,
    chdman_calls (app p) = c0 ++ calls
    /\ List.NoDup (map input calls ++ running p ++ map snd (pending p))
    /\ (forall f, In f (map input calls ++ running p ++ map snd (pending p)) -> In f jobs).

(** a stopped pool without a running job *)
Definition idle_inv (f0 : gmap (list string) entry) (c0 : list Cmd) (x0 : list (list string))
    (p : Pool) : Prop :=
  is_converting (app p) = false /\ running p = []
  /\ fs (app p) = f0 /\ chdman_calls (app p) = c0 /\ extract_calls (app p) = x0.

(** [o is not None] *)
Definition is_Some_bool {A} (o : option A) : bool :=
  match o with Some _ => true | None => false end.


(** ** Further sample data *)

Module Cases.

(** a track list that names a folder among its files *)
Definition folder_list : string :=
  ("FILE " ++ Demo.quote ++ "Track 1.bin" ++ Demo.quote ++ " BINARY" ++ Demo.newline
   ++ "FILE " ++ Demo.quote ++ "extras" ++ Demo.quote ++ " BINARY" ++ Demo.newline)%string.

Definition folder_fs : gmap (list string) entry :=
  list_to_map
    [ (Demo.roms, Dir);
      (Demo.game_cue, File folder_list);
      (Demo.roms ++ ["Track 1.bin"%string], File "11111111");
      (Demo.roms ++ ["extras"%string], Dir);
      (Demo.other_iso, File "isoisoiso") ].

(** a converted file that already lies in the destination folder *)
Definition same_fs : gmap (list string) entry :=
  list_to_map [ (Demo.shelf, Dir); (Demo.shelf ++ ["Game.chd"%string], File "game") ].

(** what a chdman prints whose version has 4301 digits, and the version
    read from it *)
Definition long_output : string :=
  Text.to_string (Text.of_string "chdman 1." ++ repeat "1"%char 4300).

Definition long_version : string :=
  Text.to_string ("1"%char :: repeat "1"%char 4300).

End Cases.


(** ** [format_seconds] (lines 1214-1223) and the status line *)

(** [int(x)] for a float: the integer part, towards zero *)
Definition py_int (x : Q) : Z := Z.quot (Qnum x) (Z.pos (Qden x)).

(** [str(z)] for an integer *)
Definition str_of_Z (z : Z) : string :=
  if (z <? 0)%Z then ("-" ++ Pathlib.str_of_nat (Z.abs_nat z))%string
  else Pathlib.str_of_nat (Z.to_nat z).

Definition format_seconds (seconds : option Q) : string :=
  match seconds with
  | None => "--"
  | Some x =>
      if negb (Qle_bool 0 x) then "--"
      else
        let m := (py_int x / 60)%Z in
        let s := (py_int x mod 60)%Z in
        let h := (m / 60)%Z in
        let m := (m mod 60)%Z in
        if (0 <? h)%Z
        then (str_of_Z h ++ "h " ++ str_of_Z m ++ "m " ++ str_of_Z s ++ "s")%string
        else if (0 <? m)%Z
        then (str_of_Z m ++ "m " ++ str_of_Z s ++ "s")%string
        else (str_of_Z s ++ "s")%string
  end.

(** the three shapes of the text, over natural numbers *)
Definition hms_text (h m s : nat) : Text.text :=
  let D n := Text.of_string (Pathlib.str_of_nat n) in
  if 0 <? h
  then D h ++ "h"%char :: " "%char :: D m ++ "m"%char :: " "%char :: D s ++ ["s"%char]
  else if 0 <? m then D m ++ "m"%char :: " "%char :: D s ++ ["s"%char]
  else D s ++ ["s"%char].

(** the text of the status label (line 1253); [None] when the sampler has
    stopped *)
Definition status_text (opts : Options) (st : State) : option string :=
  if metrics_running st
  then Some ("Converting " ++ Pathlib.str_of_nat (completed_jobs st) ++ "/"
             ++ Pathlib.str_of_nat (total_jobs st) ++ " ETA "
             ++ format_seconds (overall_eta opts st))%string
  else None.


(** ** The version of chdman (lines 133-214) *)

Module Version.
Import Text.

(** a literal prefix, case by case: the rest of the subject *)
Fixpoint lit (l s : text) : option text :=
  match l with
  | [] => Some s
  | c :: l' =>
      match s with
      | x :: t => if Ascii.eqb x c then lit l' t else None
      | [] => None
      end
  end.

(** [\d{4}] at the head of [s]: the digits and the rest *)
Definition digits4 (s : text) : option (text * text) :=
  match s with
  | a :: b :: c :: d :: rest =>
      if py_isdigit a && py_isdigit b && py_isdigit c && py_isdigit d
      then Some ([a; b; c; d], rest) else None
  | _ => None
  end.

(** [\d+\.\d+] at the head of [s]: the matched text.  Both runs of digits
    are followed by a character that is no digit, so that the longest runs
    are the only ones that can match. *)
Definition decimal_at (s : text) : option text :=
  match run py_isdigit s, skip py_isdigit s with
  | (_ :: _) as whole, "."%char :: s1 =>
      match run py_isdigit s1 with
      | (_ :: _) as frac => Some (whole ++ "."%char :: frac)
      | [] => None
      end
  | _, _ => None
  end.

(** [re.search]: the first position at which the pattern matches *)
Fixpoint search (pattern_at : text -> option text) (s : text) : option text :=
  match pattern_at s with
  | Some m => Some m
  | None => match s with [] => None | _ :: t => search pattern_at t end
  end.

(** [r'\(mame(\d{4})\)'], group 1 (line 148) *)
Definition installed_tag_at (s : text) : option text :=
  match lit (of_string "(mame") s with
  | Some s1 =>
      match digits4 s1 with
      | Some (v, ")"%char :: _) => Some v
      | _ => None
      end
  | None => None
  end.

(** [r'mame(\d{4})'] with [re.IGNORECASE], group 1 (line 200) *)
Definition latest_tag_at (s : text) : option text :=
  match ilit (of_string "mame") s with
  | Some s1 =>
      match digits4 s1 with
      | Some (v, _) => Some v
      | None => None
      end
  | None => None
  end.

(** [r'MAME\s+(\d+\.\d+)'], group 1 (line 205) *)
Definition latest_decimal_at (s : text) : option text :=
  match lit (of_string "MAME") s with
  | Some s1 =>
      match run py_isspace s1 with
      | _ :: _ => decimal_at (skip py_isspace s1)
      | [] => None
      end
  | None => None
  end.

(** [ver.replace('.', '')] *)
Definition remove_dots (ver : text) : text := Pathlib.remove_all ["."%char] 0 ver.

(** [ver.zfill(width)]: zeros on the left, after a sign if there is one *)
Definition zfill (width : nat) (ver : text) : text :=
  let pad := repeat "0"%char (width - length ver) in
  match ver with
  | c :: t =>
      if Ascii.eqb c "+"%char || Ascii.eqb c "-"%char then c :: pad ++ t else pad ++ ver
  | [] => pad
  end.

(** lines 145-156: the version in what [chdman --version] prints *)
Definition installed_version_of (output : text) : option text :=
  match search installed_tag_at output with
  | Some v => Some v
  | None =>
      match search decimal_at output with
      | Some ver => Some (zfill 4 (remove_dots ver))
      | None => None
      end
  end.

(** lines 200-209: the version on the release page *)
Definition latest_version_of (html : text) : option text :=
  match search latest_tag_at html with
  | Some v => Some v
  | None =>
      match search latest_decimal_at html with
      | Some ver => Some (zfill 4 (remove_dots ver))
      | None => None
      end
  end.

(** [get_installed_chdman_version] (lines 133-161).  [printed] is what the
    call of chdman gives, standard output and standard error; [None] when
    the call raises. *)
Definition get_installed_chdman_version (chdman_path : option string)
    (printed : option (string * string)) : option string :=
  match chdman_path with
  | None | Some EmptyString => None
  | Some _ =>
      match printed with
      | Some (stdout, stderr) =>
          option_map to_string (installed_version_of (of_string (stdout ++ stderr)))
      | None => None
      end
  end.

(** [get_latest_mame_version] (lines 188-214).  [page] is the text of the
    release page; [None] when fetching or decoding it raises. *)
Definition get_latest_mame_version (page : option string) : option string :=
  match page with
  | Some html => option_map to_string (latest_version_of (of_string html))
  | None => None
  end.

(** [int(s)] for a text made of decimal digits; [None] stands for
    [ValueError].  [max_str_digits] is [sys.get_int_max_str_digits()]: 4300
    unless it was changed, and 0 where there is no limit; a text with more
    digits than a limit that is not 0 is refused.  Texts with a sign,
    blanks or underscores, which [int] accepts as well, are counted as
    errors here. *)
Definition digit_value (ch : ascii) : N := N.of_nat (nat_of_ascii ch - 48).

Definition int_of_text (max_str_digits : nat) (s : text) : option N :=
  match s with
  | [] => None
  | _ => if forallb py_isdigit s
         then if (0 <? max_str_digits) && (max_str_digits <? length s) then None
              else Some (fold_left (fun acc ch => (10 * acc + digit_value ch)%N) s 0%N)
         else None
  end.

(** [f"MAME {v[0]}.{v[1:]}"] (lines 179-180); [None] stands for
    [IndexError] *)
Definition shown_version (v : text) : option string :=
  match v with
  | c :: t => Some (to_string (of_string "MAME " ++ c :: "."%char :: t))
  | [] => None
  end.

(** a text of at least four decimal digits *)
Definition numeral (v : text) : Prop :=
  4 <= length v /\ forall x, In x v -> py_isdigit x = true.

Inductive UpdateCheck : Type :=
  | Skipped
  | UpToDate
  | UpdateOffered (installed latest : string)
  | CheckFailed.

(** [check_for_chdman_update] (lines 163-186) up to the dialog;
    [CheckFailed] is the [except] branch, which an [int] that raises
    reaches *)
Definition check_for_chdman_update (max_str_digits : nat) (chdman_path : option string)
    (printed : option (string * string)) (page : option string) : UpdateCheck :=
  match get_installed_chdman_version chdman_path printed with
  | None | Some EmptyString => Skipped
  | Some installed_version =>
      match get_latest_mame_version page with
      | None | Some EmptyString => Skipped
      | Some latest_version =>
          match int_of_text max_str_digits (of_string latest_version),
                int_of_text max_str_digits (of_string installed_version) with
          | Some latest, Some installed =>
              if (installed <? latest)%N then
                match shown_version (of_string installed_version),
                      shown_version (of_string latest_version) with
                | Some i, Some l => UpdateOffered i l
                | _, _ => CheckFailed
                end
              else UpToDate
          | _, _ => CheckFailed
          end
      end
  end.

End Version.


(** ** The other scanners *)

(** [find_cue_files] (lines 670-680) *)
Definition find_cue_files (f : gmap (list string) entry) (directory : Path)
    (rec : bool) : list (list string) :=
  sorted (Fs.glob f directory rec ".cue").

(** [find_chd_files] (lines 1279-1285) *)
Definition find_chd_files (f : gmap (list string) entry) (directory : Path)
    (rec : bool) : list (list string) :=
  sorted (Fs.glob f directory rec ".chd").


(** ** Track lists as they are written *)

(** one [FILE] line for a name, followed by the lines that belong to it
    (the [TRACK] and [INDEX] lines) *)
Definition cue_entry (e : string * string) : string :=
  ("FILE " ++ Demo.quote ++ fst e ++ Demo.quote ++ " BINARY" ++ snd e)%string.

Fixpoint cue_text (entries : list (string * string)) : string :=
  match entries with
  | [] => EmptyString
  | e :: rest => (cue_entry e ++ cue_text rest)%string
  end.

(** a name that can stand between the quotes, and lines in which no [FILE]
    entry can begin *)
Definition cue_entry_ok (e : string * string) : Prop :=
  fst e <> EmptyString
  /\ ~ In "034"%char (Text.of_string (fst e))
  /\ ~ In "F"%char (Text.of_string (snd e))
  /\ ~ In "f"%char (Text.of_string (snd e)).


(** ** [scan_directory] (lines 832-923)

    The lines that the scan writes are kept apart from the log of the
    state, to which [parse_cue_file] writes its warnings; sizes are in
    bytes.  The text of the status label and the state of the convert
    button are results of the scan. *)

Inductive ScanLine : Type :=
  | ScanHeader
  | ScanArchives (count : nat)
  | ScanArchive (nm : string) (size : nat)
  | ScanArchivesNote
  | ScanNothing
  | ScanArchivesOnly (count : nat)
  | ScanFound (count : nat)
  | ScanPs1 (nm : string) (path : list string)
  | ScanBin (nm : string) (size : nat)
  | ScanPs2 (nm : string) (path : list string)
  | ScanIso (size : nat)
  | ScanBlank
  | ScanTotals (ps1 ps2 : nat)
  | ScanPlusArchives (count : nat)
  | ScanTotalSize (size : nat).

Inductive ScanStatus : Type :=
  | StatusNoGames
  | StatusArchivesOnly (count size : nat)
  | StatusFound (ps1 ps2 archives size : nat).

(** [scan_status] and [convert_enabled] are [None] when the scan leaves
    the label and the button as they are. *)
Record ScanResult : Type := {
  scan_state : State;
  scan_lines : list ScanLine;
  scan_status : option ScanStatus;
  convert_enabled : option bool
}.

(** what the scan of one game file adds: lines, the counts of track lists
    and of disc images, and bytes *)
Record GameScan : Type := {
  game_state : State;
  game_lines : list ScanLine;
  ps1_count : nat;
  ps2_count : nat;
  game_size : nat
}.

Section ScanDirectory.
Variable opts : Options.

(** lines 850-853; [None] when [stat] raises *)
Fixpoint scan_archives (f : gmap (list string) entry) (compressed_files : list (list string))
  : option (list ScanLine * nat) :=
  match compressed_files with
  | [] => Some ([], 0)
  | cf :: rest =>
      match Fs.st_size f cf with
      | Some size =>
          match scan_archives f rest with
          | Some (lines, compressed_size) =>
              Some (ScanArchive (Pathlib.name cf) size :: lines, size + compressed_size)
          | None => None
          end
      | None => None
      end
  end.

(** lines 887-890 *)
Fixpoint scan_bins (f : gmap (list string) entry) (bin_files : list (list string))
  : option (list ScanLine * nat) :=
  match bin_files with
  | [] => Some ([], 0)
  | bin_file :: rest =>
      match Fs.st_size f bin_file with
      | Some size =>
          match scan_bins f rest with
          | Some (lines, total) => Some (ScanBin (Pathlib.name bin_file) size :: lines, size + total)
          | None => None
          end
      | None => None
      end
  end.

(** one round of the loop over the game files (lines 879-905) *)
Definition scan_game (game_file : Path) (st : State) : option GameScan :=
  let sfx := Pathlib.lower_string (Pathlib.suffix game_file) in
  if String.eqb sfx ".cue" then
    let '(st, bin_files) := parse_cue_file game_file st in
    match scan_bins (fs st) bin_files, Fs.st_size (fs st) game_file with
    | Some (lines, size), Some cue_size =>
        Some {| game_state := st;
                game_lines := ScanPs1 (Pathlib.name game_file) game_file :: lines ++ [ScanBlank];
                ps1_count := 1; ps2_count := 0; game_size := size + cue_size |}
    | _, _ => None
    end
  else if String.eqb sfx ".iso" then
    match Fs.st_size (fs st) game_file with
    | Some iso_size =>
        Some {| game_state := st;
                game_lines := [ScanPs2 (Pathlib.name game_file) game_file;
                               ScanIso iso_size; ScanBlank];
                ps1_count := 0; ps2_count := 1; game_size := iso_size |}
    | None => None
    end
  else
    Some {| game_state := st; game_lines := [ScanBlank];
            ps1_count := 0; ps2_count := 0; game_size := 0 |}.

Fixpoint scan_games (game_files : list (list string)) (st : State) : option GameScan :=
  match game_files with
  | [] => Some {| game_state := st; game_lines := [];
                  ps1_count := 0; ps2_count := 0; game_size := 0 |}
  | game_file :: rest =>
      match scan_game game_file st with
      | Some g =>
          match scan_games rest (game_state g) with
          | Some r =>
              Some {| game_state := game_state r;
                      game_lines := game_lines g ++ game_lines r;
                      ps1_count := ps1_count g + ps1_count r;
                      ps2_count := ps2_count g + ps2_count r;
                      game_size := game_size g + game_size r |}
          | None => None
          end
      | None => None
      end
  end.

Definition scan_refused (st : State) : ScanResult :=
  {| scan_state := show_dialog WarnInvalidDirectory st; scan_lines := [];
     scan_status := None; convert_enabled := None |}.

(** [scan_directory]; [Raise] when a [stat] raises *)
Definition scan_directory (st : State) : Outcome ScanResult :=
  match source_dir opts with
  | None => Return (scan_refused st)
  | Some directory =>
      if negb (Fs.isdir (fs st) directory) then Return (scan_refused st)
      else
        let compressed_files :=
          if extract_compressed opts
          then find_compressed_files (fs st) directory (recursive opts) else [] in
        let compressed_count := length compressed_files in
        match scan_archives (fs st) compressed_files with
        | None => Raise
        | Some (archive_lines, compressed_size) =>
            let head :=
              ScanHeader ::
              match compressed_files with
              | [] => []
              | _ => ScanArchives compressed_count :: archive_lines ++ [ScanArchivesNote]
              end in
            let game_files := find_game_files opts (fs st) directory (recursive opts) in
            match game_files with
            | [] =>
                if compressed_count =? 0 then
                  Return {| scan_state := st; scan_lines := head ++ [ScanNothing];
                            scan_status := Some StatusNoGames;
                            convert_enabled := Some false |}
                else
                  Return {| scan_state := st;
                            scan_lines := head ++ [ScanArchivesOnly compressed_count];
                            scan_status :=
                              Some (StatusArchivesOnly compressed_count compressed_size);
                            convert_enabled := Some true |}
            | _ =>
                match scan_games game_files st with
                | None => Raise
                | Some g =>
                    Return {| scan_state := game_state g;
                              scan_lines :=
                                head ++ ScanFound (length game_files) :: game_lines g
                                ++ ScanTotals (ps1_count g) (ps2_count g)
                                :: (if 0 <? compressed_count
                                    then [ScanPlusArchives compressed_count] else [])
                                ++ [ScanTotalSize (game_size g)];
                              scan_status :=
                                Some (StatusFound (ps1_count g) (ps2_count g)
                                        compressed_count (game_size g));
                              convert_enabled := Some true |}
                end
            end
        end
  end.

End ScanDirectory.

(** the game files that the scan counts as track lists and as disc images
    (lines 881 and 892) *)
Definition is_cue (g : list string) : bool :=
  String.eqb (Pathlib.lower_string (Pathlib.suffix g)) ".cue".

Definition is_iso (g : list string) : bool :=
  negb (is_cue g) && String.eqb (Pathlib.lower_string (Pathlib.suffix g)) ".iso".

(** a game file whose whole name is the extension *)
Definition bare_name (p : list string) : bool :=
  String.eqb (Pathlib.name p) ".cue" || String.eqb (Pathlib.name p) ".iso".

(** ** The first stage of [conversion_thread] (lines 1054-1064) *)

Definition extraction_stage {tools : ExternalTools} (opts : Options)
    (directory : list string) (st : State) : State :=
  if extract_compressed opts then
    let '(st, extracted_folders) :=
      extract_all_archives opts directory (recursive opts)
        (add_log LogExtractingHeader st) in
    match extracted_folders with
    | [] => st
    | _ => add_log (LogExtractedCount (length extracted_folders)) st
    end
  else st.

(** ** Paths that name their file directly

    The file system maps a path, as a list of components, to its entry; it
    does not follow a step back to the parent folder.  A path given from
    the root without such a step names one file and no other path names
    it. *)
Definition direct (p : list string) : Prop :=
  (exists t, p = "/"%string :: t) /\ ~ In ".."%string p.

(** the references of a track list that take no step back *)
Definition plain_refs (content : string) : Prop :=
  forall m, In m (Cue.findall content) -> ~ In ".."%string (Pathlib.parts m).

(** * Properties *)

Example clean_ex1 :
  clean_game_name "Game (USA) (Rev 1) [!] (Disc 2)" = "Game (Disc 2)"%string.
Proof. vm_compute. reflexivity. Qed.

Example path_ex1 :
  Pathlib.with_suffix ["/"; "roms"; "Crash (USA).cue"]%string ".chd" = ["/"; "roms"; "Crash (USA).chd"]%string
  /\ Pathlib.suffix ["a.tar.gz"]%string = ".gz"%string
  /\ Pathlib.stem [".hidden"]%string = ".hidden"%string
  /\ Pathlib.joinpath ["/"; "roms"]%string "sub/./t 1.bin" = ["/"; "roms"; "sub"; "t 1.bin"]%string
  /\ Pathlib.rsplit_dot_head "Game.v2.chd" = "Game.v2"%string
  /\ Pathlib.replace_empty "a.tar.gz" ".tar.gz" = "a"%string
  /\ Pathlib.endswith "a.tar.gz" ".gz" = true
  /\ Pathlib.str_of_nat 12 = "12"%string
  /\ sorting.merge_sort Pathlib.path_le [["b"];["a";"z"];["a"]]%string = [["a"];["a";"z"];["b"]]%string.
Proof. vm_compute. repeat split; reflexivity. Qed.

(** ** Facts about the scanners *)

Module TextFacts.
Import Text.

Lemma skip_length p s : length (skip p s) <= length s.
Proof. induction s as [|x t IH]; simpl; [lia|]. destruct (p x); simpl; lia. Qed.

Lemma skip_incl p s y : In y (skip p s) -> In y s.
Proof.
  induction s as [|x t IH]; simpl; [tauto|].
  destruct (p x); simpl; tauto.
Qed.

Lemma skip_head p s x t : skip p s = x :: t -> p x = false.
Proof.
  induction s as [|y u IH]; simpl; [discriminate|].
  destruct (p y) eqn:E; [exact IH|]. intros [= <- _]. exact E.
Qed.

Lemma skip_id p s : match s with [] => True | x :: _ => p x = false end -> skip p s = s.
Proof. destruct s as [|x t]; simpl; [reflexivity|]. intros ->. reflexivity. Qed.

Lemma run_skip p s : run p s ++ skip p s = s.
Proof.
  induction s as [|x t IH]; simpl; [reflexivity|].
  destruct (p x); simpl; [f_equal; exact IH | reflexivity].
Qed.

Lemma run_all p s : forall x, In x (run p s) -> p x = true.
Proof.
  induction s as [|y t IH]; simpl; [tauto|].
  destruct (p y) eqn:E; simpl; [|tauto].
  intros x [<-|H]; [exact E | exact (IH x H)].
Qed.

(** a run that is followed by a character outside the class is found again *)
Lemma run_app p r t :
  (forall x, In x r -> p x = true) ->
  match t with [] => True | y :: _ => p y = false end ->
  run p (r ++ t) = r /\ skip p (r ++ t) = t.
Proof.
  intros Hr Ht. induction r as [|x r IH]; simpl.
  - destruct t as [|y t]; simpl; [auto|]. rewrite Ht. auto.
  - rewrite (Hr x (or_introl eq_refl)).
    destruct IH as [-> ->]; [intros; apply Hr; right; assumption|]. auto.
Qed.

Lemma collapse_incl b s y : In y (collapse_ws b s) -> y = " "%char \/ In y s.
Proof.
  revert b. induction s as [|x t IH]; intros b; simpl; [tauto|].
  destruct (py_isspace x).
  - destruct b; [intros H; apply IH in H; tauto|].
    intros [<-|H]; [auto | apply IH in H; tauto].
  - intros [<-|H]; [auto | apply IH in H; tauto].
Qed.

Lemma rstrip_incl s y : In y (rstrip s) -> In y s.
Proof.
  induction s as [|x t IH]; simpl; [tauto|].
  destruct (rstrip t) as [|z u].
  - destruct (py_isspace x); simpl; tauto.
  - intros [<-|H]; [auto | right; apply IH; exact H].
Qed.

Lemma rstrip_head x t : py_isspace x = false -> exists u, rstrip (x :: t) = x :: u.
Proof.
  intros H. simpl. destruct (rstrip t) as [|z u]; [rewrite H|]; eauto.
Qed.

Section GroupScan.
Variables o c : ascii.

Lemma find_close_length t r : find_close c t = Some r -> length r < length t.
Proof.
  revert r. induction t as [|x t IH]; simpl; [discriminate|].
  intros r. destruct (Ascii.eqb x c).
  - intros [= <-]. lia.
  - intros H. apply IH in H. lia.
Qed.

Lemma find_close_none t : find_close c t = None <-> ~ In c t.
Proof.
  induction t as [|x t IH]; simpl; [tauto|].
  destruct (Ascii.eqb_spec x c) as [->|Hne].
  - split; [discriminate|]. intros H. exfalso. apply H. auto.
  - rewrite IH. split; [intros H [E|E]; [congruence | tauto] | tauto].
Qed.

Lemma body_at_length t r : body_at c t = Some r -> length r < length t.
Proof.
  destruct t as [|x t]; simpl; [discriminate|].
  destruct (Ascii.eqb x c); [discriminate|].
  intros H. apply find_close_length in H. lia.
Qed.

(** the body fails: nothing follows, the closing character follows at
    once, or no closing character follows at all *)
Lemma body_at_none t :
  body_at c t = None <->
  t = [] \/ (exists t', t = c :: t') \/ ~ In c t.
Proof.
  destruct t as [|x t]; simpl; [tauto|].
  destruct (Ascii.eqb_spec x c) as [->|Hne].
  - split; [eauto|reflexivity].
  - rewrite find_close_none. split.
    + intros H. right. right. intros [E|E]; [congruence|tauto].
    + intros [E|[[t' E]|E]]; [discriminate | congruence | tauto].
Qed.

Lemma group_at_length s r : group_at o c s = Some r -> length r < length s.
Proof.
  unfold group_at. pose proof (skip_length py_isspace s) as Hs.
  destruct (skip py_isspace s) as [|x t]; [discriminate|].
  destruct (Ascii.eqb x o); [|discriminate].
  intros H. apply body_at_length in H. simpl in Hs. lia.
Qed.

Lemma group_at_space x t : py_isspace x = true -> group_at o c (x :: t) = group_at o c t.
Proof. intros H. unfold group_at. simpl. rewrite H. reflexivity. Qed.

Lemma group_at_char x t :
  py_isspace x = false ->
  group_at o c (x :: t) = if Ascii.eqb x o then body_at c t else None.
Proof. intros H. unfold group_at. simpl. rewrite H. reflexivity. Qed.

Lemma rm_fuel_enough n m s :
  length s <= n -> length s <= m -> rm_fuel o c n s = rm_fuel o c m s.
Proof.
  revert m s. induction n as [|n IH]; intros m s Hn Hm.
  - destruct s; [|simpl in Hn; lia]. destruct m; reflexivity.
  - destruct m as [|m].
    + destruct s; [reflexivity | simpl in Hm; lia].
    + destruct s as [|x t]; [reflexivity|]. simpl in Hn, Hm.
      cbn [rm_fuel]. destruct (group_at o c (x :: t)) as [r|] eqn:E.
      * apply group_at_length in E. simpl in E. apply IH; lia.
      * f_equal. apply IH; lia.
Qed.

Lemma rm_nil : rm o c [] = [].
Proof. reflexivity. Qed.

Lemma rm_cons x t :
  rm o c (x :: t) =
  match group_at o c (x :: t) with
  | Some rest => rm o c rest
  | None => x :: rm o c t
  end.
Proof.
  unfold rm. cbn [length rm_fuel].
  destruct (group_at o c (x :: t)) as [r|] eqn:E.
  - apply group_at_length in E. simpl in E. apply rm_fuel_enough; lia.
  - reflexivity.
Qed.

(** induction along the scan *)
Lemma rm_ind (P : text -> Prop) :
  P [] ->
  (forall x t rest, group_at o c (x :: t) = Some rest -> P rest -> P (x :: t)) ->
  (forall x t, group_at o c (x :: t) = None -> P t -> P (x :: t)) ->
  forall s, P s.
Proof.
  intros Hnil Hsome Hnone s.
  remember (length s) as n eqn:Hn. revert s Hn.
  induction n as [n IH] using lt_wf_ind. intros [|x t] Hn; [exact Hnil|].
  destruct (group_at o c (x :: t)) as [r|] eqn:E.
  - apply (Hsome x t r E). apply (IH (length r)); [|reflexivity].
    apply group_at_length in E. lia.
  - apply (Hnone x t E). apply (IH (length t)); [simpl in Hn; lia | reflexivity].
Qed.

Lemma find_close_suffix t r : find_close c t = Some r -> exists pre, t = pre ++ r.
Proof.
  revert r. induction t as [|x t IH]; simpl; [discriminate|]. intros r.
  destruct (Ascii.eqb x c).
  - intros [= <-]. exists [x]. reflexivity.
  - intros H. destruct (IH r H) as [pre ->]. exists (x :: pre). reflexivity.
Qed.

Lemma group_at_suffix s r : group_at o c s = Some r -> exists pre, s = pre ++ r.
Proof.
  unfold group_at. intros H.
  rewrite <- (run_skip py_isspace s).
  destruct (skip py_isspace s) as [|x t]; [discriminate|].
  destruct (Ascii.eqb x o); [|discriminate].
  destruct t as [|y t]; [discriminate|]. simpl in H.
  destruct (Ascii.eqb y c); [discriminate|].
  destruct (find_close_suffix _ _ H) as [pre ->].
  exists (run py_isspace s ++ x :: y :: pre).
  rewrite <- app_assoc. reflexivity.
Qed.

Lemma rm_incl s : forall y, In y (rm o c s) -> In y s.
Proof.
  induction s as [|x t rest E IH|x t E IH] using rm_ind; intros y.
  - rewrite rm_nil. tauto.
  - rewrite rm_cons, E. intros H. apply IH in H.
    destruct (group_at_suffix _ _ E) as [pre ->]. apply in_or_app. auto.
  - rewrite rm_cons, E. intros [<-|H]; [left; reflexivity | right; auto].
Qed.

End GroupScan.

Section GroupQuiet.
Variables o c : ascii.
Hypothesis c_not_space : py_isspace c = false.

Local Abbreviation quiet := (quiet o c).

Lemma quiet_head s : quiet s -> group_at o c s = None.
Proof. destruct s; [reflexivity | intros [H _]; exact H]. Qed.

Lemma quiet_app pre s : quiet (pre ++ s) -> quiet s.
Proof. induction pre as [|x pre IH]; simpl; [tauto|]. intros [_ H]. auto. Qed.

Lemma quiet_rm_id s : quiet s -> rm o c s = s.
Proof.
  induction s as [|x t IH]; [reflexivity|]. intros [H Ht].
  rewrite rm_cons, H. f_equal. exact (IH Ht).
Qed.

(** a failing body still fails after the scan for a pair [o'], [c'] *)
Lemma body_at_rm o' c' t :
  c <> o' -> body_at c t = None -> body_at c (rm o' c' t) = None.
Proof.
  intros Hne H. apply body_at_none in H. apply body_at_none.
  destruct H as [->|[[t' ->]|H]].
  - left. reflexivity.
  - right. left. rewrite rm_cons, group_at_char by assumption.
    destruct (Ascii.eqb_spec c o') as [E|_]; [contradiction|]. eauto.
  - right. right. intros Hin. apply H. exact (rm_incl _ _ _ _ Hin).
Qed.

Lemma group_at_rm_other o' c' s :
  c <> o' -> quiet s -> group_at o c (rm o' c' s) = None.
Proof.
  intros Hne.
  induction s as [|x t rest E IH|x t E IH] using (rm_ind o' c'); intros Hq.
  - reflexivity.
  - rewrite rm_cons, E. apply IH.
    destruct (group_at_suffix _ _ _ _ E) as [pre Hpre].
    rewrite Hpre in Hq. exact (quiet_app _ _ Hq).
  - rewrite rm_cons, E. destruct Hq as [Hx Hq].
    destruct (py_isspace x) eqn:Hsp.
    + rewrite group_at_space in * by assumption. auto.
    + rewrite group_at_char in * by assumption.
      destruct (Ascii.eqb x o); [|reflexivity].
      apply body_at_rm; assumption.
Qed.

(** the scan for another pair makes no attempt succeed *)
Lemma quiet_rm_other o' c' s : c <> o' -> quiet s -> quiet (rm o' c' s).
Proof.
  intros Hne.
  induction s as [|x t rest E IH|x t E IH] using (rm_ind o' c'); intros Hq.
  - exact I.
  - rewrite rm_cons, E. apply IH.
    destruct (group_at_suffix _ _ _ _ E) as [pre Hpre].
    rewrite Hpre in Hq. exact (quiet_app _ _ Hq).
  - pose proof (group_at_rm_other o' c' _ Hne Hq) as H.
    rewrite rm_cons, E in *. split; [exact H | apply IH; apply Hq].
Qed.

Lemma body_at_collapse t :
  body_at c t = None -> body_at c (collapse_ws false t) = None.
Proof.
  intros H. apply body_at_none in H. apply body_at_none.
  destruct H as [->|[[t' ->]|H]].
  - left. reflexivity.
  - right. left. simpl. rewrite c_not_space. eauto.
  - right. right. intros Hin. apply collapse_incl in Hin.
    destruct Hin as [->|Hin]; [discriminate c_not_space | tauto].
Qed.

Lemma quiet_collapse b s : quiet s -> quiet (collapse_ws b s).
Proof.
  revert b. induction s as [|x t IH]; intros b; [exact (fun H => H)|].
  intros [Hx Hq]. simpl. destruct (py_isspace x) eqn:Hsp.
  - destruct b; [auto|]. split; [|auto].
    rewrite group_at_space by reflexivity. apply quiet_head. auto.
  - split; [|auto]. rewrite group_at_char in * by assumption.
    destruct (Ascii.eqb x o); [|reflexivity].
    apply body_at_collapse. assumption.
Qed.

Lemma quiet_skip s : quiet s -> quiet (skip py_isspace s).
Proof.
  intros H. rewrite <- (run_skip py_isspace s) in H. exact (quiet_app _ _ H).
Qed.

Lemma body_at_rstrip t : body_at c t = None -> body_at c (rstrip t) = None.
Proof.
  intros H. apply body_at_none in H. apply body_at_none.
  destruct H as [->|[[t' ->]|H]].
  - left. reflexivity.
  - right. left. destruct (rstrip_head c t' c_not_space) as [u ->]. eauto.
  - right. right. intros Hin. apply H. exact (rstrip_incl _ _ Hin).
Qed.

Lemma quiet_rstrip s : quiet s -> quiet (rstrip s).
Proof.
  induction s as [|x t IH]; [exact (fun H => H)|].
  intros [Hx Hq]. specialize (IH Hq). simpl.
  destruct (rstrip t) as [|y u] eqn:E.
  - destruct (py_isspace x) eqn:Hsp; [exact I|]. split; [|exact I].
    rewrite group_at_char by assumption.
    destruct (Ascii.eqb x o); reflexivity.
  - split; [|exact IH]. destruct (py_isspace x) eqn:Hsp.
    + rewrite group_at_space by assumption. apply (quiet_head _ IH).
    + rewrite group_at_char in * by assumption.
      destruct (Ascii.eqb x o); [|reflexivity].
      rewrite <- E. apply body_at_rstrip. assumption.
Qed.

Lemma quiet_strip_collapse s : quiet s -> quiet (strip (collapse_ws false s)).
Proof. intros H. apply quiet_rstrip, quiet_skip, quiet_collapse, H. Qed.

Hypothesis c_not_o : c <> o.

Lemma group_at_rm s : group_at o c s = None -> group_at o c (rm o c s) = None.
Proof.
  induction s as [|x t IH]; [reflexivity|]. intros H.
  rewrite rm_cons, H. destruct (py_isspace x) eqn:Hx.
  - rewrite group_at_space in * by assumption. auto.
  - rewrite group_at_char in * by assumption.
    destruct (Ascii.eqb x o); [|reflexivity].
    apply body_at_rm; assumption.
Qed.

(** after the scan no attempt succeeds *)
Lemma quiet_rm s : quiet (rm o c s).
Proof.
  induction s as [|x t rest E IH|x t E IH] using (rm_ind o c).
  - exact I.
  - rewrite rm_cons, E. exact IH.
  - pose proof (group_at_rm _ E) as H. rewrite rm_cons, E in *.
    split; assumption.
Qed.

End GroupQuiet.
(** *** White space in normal form *)

Lemma collapse_headed s : headed (collapse_ws true s).
Proof.
  induction s as [|x t IH]; simpl; [exact I|].
  destruct (py_isspace x) eqn:E; [exact IH | exact E].
Qed.

Lemma semi_collapse b s : semi (collapse_ws b s).
Proof.
  revert b. induction s as [|x t IH]; intros b; simpl; [exact I|].
  destruct (py_isspace x) eqn:E.
  - destruct b; [apply IH|]. split; [|apply IH]. intros _. split; [reflexivity|].
    exact (collapse_headed t).
  - split; [|apply IH]. congruence.
Qed.

Lemma semi_skip s : semi s -> semi (skip py_isspace s).
Proof.
  induction s as [|x t IH]; [exact (fun H => H)|]. intros H.
  cbn [skip]. destruct (py_isspace x); [apply IH, H | exact H].
Qed.

Lemma skip_headed s : headed (skip py_isspace s).
Proof.
  destruct (skip py_isspace s) as [|x t] eqn:E; [exact I|].
  exact (skip_head _ _ _ _ E).
Qed.

Lemma headed_rstrip s : headed s -> headed (rstrip s).
Proof.
  destruct s as [|x t]; [exact (fun H => H)|]. intros H.
  destruct (rstrip_head x t H) as [u ->]. exact H.
Qed.

Lemma rstrip_nil_inv s : rstrip s = [] -> forall x, In x s -> py_isspace x = true.
Proof.
  induction s as [|y t IH]; simpl; [tauto|].
  destruct (rstrip t) as [|z u]; [|discriminate].
  destruct (py_isspace y) eqn:E; [|discriminate].
  intros _ x [<-|H]; [exact E | apply IH; [reflexivity | exact H]].
Qed.

Lemma tidy_rstrip s : semi s -> tidy (rstrip s).
Proof.
  induction s as [|x t IH]; [exact (fun H => H)|].
  intros [Hx Hs]. specialize (IH Hs). simpl.
  destruct (rstrip t) as [|y u] eqn:E.
  - destruct (py_isspace x) eqn:Hsp; [exact I|]. split; [congruence | exact I].
  - split; [|exact IH]. intros Hsp. destruct (Hx Hsp) as [-> Ht]. split; [reflexivity|].
    destruct t as [|z t']; [discriminate E|].
    destruct (rstrip_head z t' Ht) as [u' Hu]. rewrite Hu in E.
    injection E as <- _. exact Ht.
Qed.

Lemma tidy_collapse_id b s :
  tidy s -> (b = true -> headed s) -> collapse_ws b s = s.
Proof.
  revert b. induction s as [|x t IH]; intros b; [reflexivity|].
  intros [Hx Ht] Hb. simpl. destruct (py_isspace x) eqn:Hsp.
  - destruct b; [specialize (Hb eq_refl); simpl in Hb; congruence|].
    destruct (Hx eq_refl) as [-> Hy]. f_equal. apply IH; [exact Ht|].
    intros _. destruct t; [contradiction | exact Hy].
  - f_equal. apply IH; [exact Ht | discriminate].
Qed.

Lemma tidy_rstrip_id s : tidy s -> rstrip s = s.
Proof.
  induction s as [|x t IH]; [reflexivity|]. intros [Hx Ht]. simpl.
  rewrite (IH Ht). destruct t as [|y t']; [|reflexivity].
  destruct (py_isspace x); [|reflexivity]. destruct (Hx eq_refl) as [_ []].
Qed.

Lemma strip_collapse_tidy s :
  tidy (strip (collapse_ws false s)) /\ headed (strip (collapse_ws false s)).
Proof.
  split.
  - apply tidy_rstrip, semi_skip, semi_collapse.
  - apply headed_rstrip, skip_headed.
Qed.

Lemma strip_collapse_id s :
  tidy s -> headed s -> strip (collapse_ws false s) = s.
Proof.
  intros Ht Hh. rewrite tidy_collapse_id by (assumption || discriminate).
  unfold strip. rewrite skip_id by exact Hh. apply tidy_rstrip_id, Ht.
Qed.

(** *** The disc tag *)

Lemma ilit_inv lit s s2 :
  ilit lit s = Some s2 ->
  exists pre, s = pre ++ s2 /\ length pre = length lit /\
    (forall X, ilit lit (pre ++ X) = Some X) /\
    (forall x, In x pre -> exists l, In l lit /\ ieq x l = true).
Proof.
  revert s. induction lit as [|l lit IH]; intros s; simpl.
  - intros [= ->]. exists []. repeat split; simpl; tauto.
  - destruct s as [|x t]; [discriminate|]. destruct (ieq x l) eqn:E; [|discriminate].
    intros H. destruct (IH t H) as (pre & -> & Hlen & Hre & Hin).
    exists (x :: pre). simpl. rewrite E. repeat split; auto.
    intros y [<-|Hy]; [exists l; auto|].
    destruct (Hin y Hy) as (l' & ? & ?). exists l'. auto.
Qed.

Lemma digit_not_space x : py_isdigit x = true -> py_isspace x = false.
Proof.
  unfold py_isdigit, py_isspace. intros H.
  apply andb_true_iff in H as [H1 H2].
  apply Nat.leb_le in H1, H2.
  repeat rewrite orb_false_iff. repeat rewrite andb_false_iff.
  repeat rewrite Nat.leb_gt. repeat rewrite Nat.eqb_neq. lia.
Qed.

Lemma find_close_app c body rest :
  ~ In c body -> find_close c (body ++ c :: rest) = Some rest.
Proof.
  induction body as [|x body IH]; simpl.
  - intros _. rewrite Ascii.eqb_refl. reflexivity.
  - intros H. destruct (Ascii.eqb_spec x c) as [->|_]; [tauto|]. apply IH. tauto.
Qed.

(** a match of the tag pattern: its shape, and what the other patterns do
    with it *)
Lemma disc_at_inv s m :
  disc_at s = Some m ->
  (exists rest, s = m ++ rest) /\
  disc_at m = Some m /\
  (exists t, m = "("%char :: t) /\
  (forall rest, group_at "(" ")" (m ++ rest) = Some rest).
Proof.
  unfold disc_at at 1. destruct s as [|a s1]; [discriminate|].
  destruct (Ascii.eqb_spec a "(") as [->|Hne];
    [|destruct a as [[] [] [] [] [] [] [] []]; try discriminate; contradiction Hne; reflexivity].
  destruct (ilit (of_string "Disc") s1) as [s2|] eqn:Hlit; [|discriminate].
  destruct (ilit_inv _ _ _ Hlit) as (pre & -> & Hlen & Hre & Hpre).
  destruct (run py_isdigit (skip py_isspace s2)) as [|d ds] eqn:Hds; [discriminate|].
  destruct (skip py_isdigit (skip py_isspace s2)) as [|cl rest'] eqn:Hrest; [discriminate|].
  destruct (Ascii.eqb_spec cl ")") as [->|Hne];
    [|destruct cl as [[] [] [] [] [] [] [] []]; try discriminate; contradiction Hne; reflexivity].
  intros [= <-].
  assert (forall X, firstn 4 (pre ++ X) = pre) as Hfirst.
  { intros X. change 4 with (length (of_string "Disc")). rewrite <- Hlen.
    rewrite firstn_app, Nat.sub_diag, firstn_all. simpl. apply app_nil_r. }
  rewrite Hfirst.
  set (ws := run py_isspace s2) in *.
  assert (forall x, In x ws -> py_isspace x = true) as Hws by apply run_all.
  assert (forall x, In x (d :: ds) -> py_isdigit x = true) as Hdig.
  { rewrite <- Hds. apply run_all. }
  assert (s2 = ws ++ (d :: ds) ++ ")"%char :: rest') as Hs2.
  { rewrite <- Hds, <- Hrest, run_skip. unfold ws. symmetry. apply run_skip. }
  assert (~ In ")"%char (pre ++ ws ++ d :: ds)) as Hbody.
  { intros Hin. apply in_app_or in Hin as [Hin|Hin].
    - destruct (Hpre _ Hin) as (l & Hl & Hieq). simpl in Hl.
      destruct Hl as [<-|[<-|[<-|[<-|[]]]]]; discriminate Hieq.
    - apply in_app_or in Hin as [Hin|Hin].
      + apply Hws in Hin. discriminate Hin.
      + apply Hdig in Hin. discriminate Hin. }
  repeat split.
  - exists rest'. rewrite Hs2. simpl. rewrite <- !app_assoc. simpl.
    rewrite <- !app_assoc. reflexivity.
  - unfold disc_at. rewrite Hre, Hfirst.
    destruct (run_app py_isspace ws ((d :: ds) ++ [")"%char]) Hws) as [E1 E2].
    { simpl. apply digit_not_space, Hdig. left. reflexivity. }
    change ((d :: ds) ++ [")"%char]) with (d :: ds ++ [")"%char]) in E1, E2.
    cbv zeta. rewrite E1, E2.
    destruct (run_app py_isdigit (d :: ds) [")"%char] Hdig) as [E3 E4]; [reflexivity|].
    change ((d :: ds) ++ [")"%char]) with (d :: ds ++ [")"%char]) in E3, E4.
    rewrite E3, E4. reflexivity.
  - eauto.
  - intros rest. unfold group_at. simpl.
    replace ((pre ++ ws ++ d :: ds ++ [")"%char]) ++ rest)
      with ((pre ++ ws ++ d :: ds) ++ ")"%char :: rest)
      by (rewrite <- !app_assoc; simpl; rewrite <- !app_assoc; reflexivity).
    destruct (pre ++ ws ++ d :: ds) as [|y body] eqn:E.
    { destruct pre; [destruct ws|]; discriminate E. }
    simpl. destruct (Ascii.eqb_spec y ")") as [->|_].
    { exfalso. apply Hbody. left. reflexivity. }
    apply find_close_app. intros Hin. apply Hbody. right. exact Hin.
Qed.

Lemma disc_at_head x t m : disc_at (x :: t) = Some m -> x = "("%char.
Proof.
  intros H. destruct (disc_at_inv _ _ H) as ([rest Hs] & _ & [u ->] & _).
  simpl in Hs. congruence.
Qed.

Lemma search_disc_some s m : search_disc s = Some m -> exists u, disc_at u = Some m.
Proof.
  induction s as [|x t IH]; cbn [search_disc].
  - destruct (disc_at []) eqn:E; [intros [= <-]; eauto | discriminate].
  - destruct (disc_at (x :: t)) eqn:E; [intros [= <-]; eauto | exact IH].
Qed.

Lemma search_disc_quiet s : quiet "(" ")" s -> search_disc s = None.
Proof.
  induction s as [|x t IH]; [reflexivity|]. intros [Hx Ht].
  cbn [search_disc]. destruct (disc_at (x :: t)) as [m|] eqn:E; [|exact (IH Ht)].
  destruct (disc_at_inv _ _ E) as ([rest Hs] & _ & _ & Hg).
  rewrite Hs, Hg in Hx. discriminate Hx.
Qed.

Lemma search_disc_app pre m :
  ~ In "("%char pre -> disc_at m = Some m -> search_disc (pre ++ m) = Some m.
Proof.
  intros Hpre Hm. induction pre as [|x pre IH].
  - change ([] ++ m) with m. destruct m; cbn [search_disc]; rewrite Hm; reflexivity.
  - change ((x :: pre) ++ m) with (x :: pre ++ m). cbn [search_disc].
    destruct (disc_at (x :: pre ++ m)) as [m'|] eqn:E.
    + apply disc_at_head in E. exfalso. apply Hpre. left. auto.
    + apply IH. intros H. apply Hpre. right. exact H.
Qed.

(** the scan for parentheses takes exactly the tag off a tidy name *)
Lemma rm_tag b m :
  tidy b -> ~ In "("%char b -> group_at "(" ")" m = Some [] ->
  rm "(" ")" (b ++ " "%char :: m) = b.
Proof.
  intros Ht Hb Hm. induction b as [|x t IH]; simpl.
  - rewrite rm_cons, group_at_space, Hm by reflexivity. reflexivity.
  - destruct Ht as [Hx Ht].
    assert (x <> "("%char) as Hne by (intros ->; apply Hb; left; reflexivity).
    assert (~ In "("%char t) as Hb' by (intros H; apply Hb; right; exact H).
    rewrite rm_cons.
    assert (group_at "(" ")" (x :: t ++ " "%char :: m) = None) as ->.
    { destruct (py_isspace x) eqn:Hsp.
      - rewrite group_at_space by assumption.
        destruct (Hx eq_refl) as [_ Hy]. destruct t as [|y t']; [contradiction|].
        simpl. rewrite group_at_char by assumption.
        destruct (Ascii.eqb_spec y "(") as [->|_]; [|reflexivity].
        exfalso. apply Hb'. left. reflexivity.
      - rewrite group_at_char by assumption.
        destruct (Ascii.eqb_spec x "(") as [->|_]; [contradiction | reflexivity]. }
    f_equal. exact (IH Ht Hb').
Qed.

End TextFacts.

(** ** The scan for [FILE] entries *)

Module CueFacts.
Import Text TextFacts Cue.

Lemma ilit_length lit s s2 : ilit lit s = Some s2 -> length s2 + length lit = length s.
Proof.
  intros H. destruct (ilit_inv _ _ _ H) as (pre & -> & Hlen & _).
  rewrite length_app. lia.
Qed.

(** a match takes at least one character *)
Lemma file_at_length s nm rest : file_at s = Some (nm, rest) -> length rest < length s.
Proof.
  unfold file_at.
  destruct (ilit (of_string "FILE") s) as [s1|] eqn:E1; [|discriminate].
  apply ilit_length in E1. pose proof (skip_length py_isspace s1) as L1.
  destruct (run py_isspace s1); [discriminate|].
  destruct (skip py_isspace s1) as [|q s2]; [discriminate|].
  destruct (Ascii.eqb q "034"); [|discriminate].
  pose proof (skip_length not_quote s2) as L2.
  destruct (run not_quote s2); [discriminate|].
  destruct (skip not_quote s2) as [|q' s3]; [discriminate|].
  pose proof (skip_length py_isspace s3) as L3.
  destruct (run py_isspace s3); [discriminate|].
  destruct (ilit (of_string "BINARY") (skip py_isspace s3)) as [r|] eqn:E2; [|discriminate].
  apply ilit_length in E2. intros [= _ <-]. simpl in *. lia.
Qed.

(** the length of the subject is fuel enough for the scan *)
Lemma findall_fuel_enough n m s :
  length s <= n -> length s <= m -> findall_fuel n s = findall_fuel m s.
Proof.
  revert m s. induction n as [|n IH]; intros m s Hn Hm.
  - destruct s; [|simpl in Hn; lia]. destruct m; reflexivity.
  - destruct m as [|m]; [destruct s; [reflexivity | simpl in Hm; lia]|].
    destruct s as [|x t]; [reflexivity|]. simpl in Hn, Hm. cbn [findall_fuel].
    destruct (file_at (x :: t)) as [[nm rest]|] eqn:E.
    + apply file_at_length in E. simpl in E. f_equal. apply IH; lia.
    + apply IH; lia.
Qed.

End CueFacts.

(** ** [clean_game_name] *)

Section CleanFacts.
Import Text TextFacts.

Lemma clean_base_quiet x :
  quiet "(" ")" (clean_base x) /\ quiet "[" "]" (clean_base x)
  /\ tidy (clean_base x) /\ headed (clean_base x).
Proof.
  unfold clean_base. split; [|split; [|apply strip_collapse_tidy]].
  - apply quiet_strip_collapse; [reflexivity|].
    apply quiet_rm_other; [reflexivity | discriminate|].
    apply quiet_rm; [reflexivity | discriminate].
  - apply quiet_strip_collapse; [reflexivity|].
    apply quiet_rm; [reflexivity | discriminate].
Qed.

(** a cleaned base is left alone by a second cleaning *)
Lemma clean_base_fixed x : clean_base (clean_base x) = clean_base x.
Proof.
  destruct (clean_base_quiet x) as (Hp & Hb & Ht & Hh).
  unfold clean_base at 1.
  rewrite (quiet_rm_id _ _ _ Hp), (quiet_rm_id _ _ _ Hb).
  apply strip_collapse_id; assumption.
Qed.

Lemma clean_game_text_twice x :
  search_disc x = None \/ ~ In "("%char (clean_base x) ->
  clean_game_text (clean_game_text x) = clean_game_text x.
Proof.
  intros H. destruct (clean_base_quiet x) as (Hp & Hb & Ht & Hh).
  destruct (search_disc x) as [m|] eqn:Hm.
  - destruct H as [H|H]; [discriminate|].
    assert (clean_game_text x = (clean_base x ++ [" "%char]) ++ m) as ->.
    { unfold clean_game_text. rewrite Hm, <- app_assoc. reflexivity. }
    destruct (search_disc_some _ _ Hm) as [u Hu].
    destruct (disc_at_inv _ _ Hu) as (_ & Hmm & _ & Hg).
    unfold clean_game_text.
    rewrite search_disc_app; [|intros Hin; apply in_app_or in Hin as [Hin|[Hin|[]]];
                                [tauto | discriminate Hin] | exact Hmm].
    rewrite <- !app_assoc. change ([" "%char] ++ m) with (" "%char :: m). f_equal.
    unfold clean_base at 1. rewrite rm_tag; [|assumption..|].
    + rewrite (quiet_rm_id _ _ _ Hb). apply strip_collapse_id; assumption.
    + specialize (Hg []). rewrite app_nil_r in Hg. exact Hg.
  - assert (clean_game_text x = clean_base x) as ->.
    { unfold clean_game_text. rewrite Hm. reflexivity. }
    unfold clean_game_text. rewrite (search_disc_quiet _ Hp).
    apply clean_base_fixed.
Qed.
End CleanFacts.

(** ** The state outside the file system and the log *)

Lemma control_add_log l st : control (add_log l st) = control st.
Proof. reflexivity. Qed.

Lemma control_with_fs f st : control (with_fs f st) = control st.
Proof. reflexivity. Qed.

Lemma control_add_logs ls st : control (add_logs ls st) = control st.
Proof.
  revert st. induction ls as [|l ls IH]; intros st; [reflexivity|].
  simpl. unfold add_logs in IH. rewrite IH. reflexivity.
Qed.

Lemma fs_add_logs ls st : fs (add_logs ls st) = fs st.
Proof.
  revert st. induction ls as [|l ls IH]; intros st; [reflexivity|].
  simpl. unfold add_logs in IH. rewrite IH. reflexivity.
Qed.

Lemma log_add_logs ls st : log (add_logs ls st) = log st ++ ls.
Proof.
  revert st. induction ls as [|l ls IH]; intros st; simpl.
  - symmetry. apply app_nil_r.
  - unfold add_logs in IH. rewrite IH. simpl. rewrite <- app_assoc. reflexivity.
Qed.

Lemma control_fields st st' :
  control st' = control st ->
  is_converting st' = is_converting st /\ chdman_calls st' = chdman_calls st
  /\ extract_calls st' = extract_calls st
  /\ file_start_times st' = file_start_times st
  /\ file_durations st' = file_durations st
  /\ total_jobs st' = total_jobs st /\ completed_jobs st' = completed_jobs st.
Proof. unfold control. intros [= -> -> -> _ _ -> -> -> -> _ _]. repeat split. Qed.

Section EngineFacts.
Context {tools : ExternalTools}.
Variable opts : Options.

(** *** The sidecar resolver *)

Lemma resolve_refs_spec cue_dir matches st :
  resolve_refs cue_dir matches st =
  (add_logs (map LogBinMissing (List.filter (missing (fs st) cue_dir) matches)) st,
   List.filter (Fs.exists_ (fs st)) (map (Pathlib.joinpath cue_dir) matches)).
Proof.
  revert st. induction matches as [|m rest IH]; intros st; [reflexivity|].
  cbn [resolve_refs map List.filter]. unfold missing at 1.
  destruct (Fs.exists_ (fs st) (Pathlib.joinpath cue_dir m)) eqn:E; cbn [negb].
  - rewrite IH. reflexivity.
  - rewrite IH. reflexivity.
Qed.

Lemma filter_split {A} (p : A -> bool) (l : list A) :
  length (List.filter p l) + length (List.filter (fun x => negb (p x)) l) = length l.
Proof.
  induction l as [|x l IH]; [reflexivity|]. simpl.
  destruct (p x); simpl; lia.
Qed.

Lemma parse_cue_file_control p st : control (fst (parse_cue_file p st)) = control st.
Proof.
  unfold parse_cue_file. destruct (fs st !! p) as [[content|]|]; try reflexivity.
  rewrite resolve_refs_spec. apply control_add_logs.
Qed.

Lemma parse_cue_file_fs p st : fs (fst (parse_cue_file p st)) = fs st.
Proof.
  unfold parse_cue_file. destruct (fs st !! p) as [[content|]|]; try reflexivity.
  rewrite resolve_refs_spec. apply fs_add_logs.
Qed.

Lemma parse_cue_file_exist p st b :
  In b (snd (parse_cue_file p st)) -> Fs.exists_ (fs st) b = true.
Proof.
  unfold parse_cue_file. destruct (fs st !! p) as [[content|]|]; try (simpl; tauto).
  rewrite resolve_refs_spec. simpl. intros H. apply filter_In in H. tauto.
Qed.

Lemma sum_sizes_exist f bins :
  (forall b, In b bins -> Fs.exists_ f b = true) -> exists n, sum_sizes f bins = Some n.
Proof.
  induction bins as [|b bins IH]; intros H; [exists 0; reflexivity|].
  destruct IH as [n Hn]; [intros; apply H; right; assumption|].
  specialize (H b (or_introl eq_refl)). simpl. rewrite Hn.
  unfold Fs.st_size, Fs.exists_ in *.
  destruct (f !! b) as [[c|]|]; [eauto | eauto | discriminate].
Qed.

Lemma run_chdman_calls cmd n label p chd st :
  chdman_calls (fst (run_chdman cmd n label p chd st)) = chdman_calls st ++ [cmd].
Proof.
  unfold run_chdman. simpl.
  destruct (chdman cmd (fs st)) as [code err f'|f'|f']; simpl; try reflexivity.
  destruct (Z.eqb code 0); [|reflexivity].
  destruct (Fs.st_size f' chd); reflexivity.
Qed.

(** a track list that is a regular file and has no output yet is handed to
    the converter, whatever its references resolve to *)
Lemma convert_cue_calls path content st :
  fs st !! path = Some (File content) ->
  Fs.exists_ (fs st) (Pathlib.with_suffix path ".chd") = false ->
  Pathlib.lower_string (Pathlib.suffix path) = ".cue"%string ->
  chdman_calls (fst (convert_to_chd opts path st)) =
  chdman_calls st ++
    [{| tool := chdman_path opts; mode := "createcd"; input := path;
        output := Pathlib.with_suffix path ".chd" |}].
Proof.
  intros Hfile Hchd Hsfx. unfold convert_to_chd. rewrite Hchd, Hsfx.
  change (String.eqb ".cue" ".cue") with true. cbv iota.
  pose proof (parse_cue_file_control path st) as Hc.
  pose proof (parse_cue_file_fs path st) as Hf.
  pose proof (parse_cue_file_exist path st) as He.
  destruct (parse_cue_file path st) as [st1 bins]. simpl in Hc, Hf, He.
  rewrite Hf. destruct (sum_sizes_exist (fs st) bins He) as [n ->].
  unfold Fs.st_size. rewrite Hfile.
  pose proof (run_chdman_calls
    {| tool := chdman_path opts; mode := "createcd"; input := path;
       output := Pathlib.with_suffix path ".chd" |}
    (n + String.length content) "PS1" path (Pathlib.with_suffix path ".chd") st1) as Hr.
  destruct (run_chdman _ _ _ _ _ st1) as [st2 ok]. simpl in *.
  rewrite Hr. apply control_fields in Hc. destruct Hc as (_ & -> & _). reflexivity.
Qed.

(** *** Postprocessing leaves everything but files and log alone *)

Lemma delete_one_control p st st' : delete_one p st = Some st' -> control st' = control st.
Proof.
  unfold delete_one. destruct (Fs.exists_ (fs st) p); [|intros [= <-]; reflexivity].
  destruct (Fs.unlink (fs st) p); [|discriminate]. intros [= <-]. reflexivity.
Qed.

Lemma delete_all_control l st : control (fst (delete_all l st)) = control st.
Proof.
  revert st. induction l as [|p l IH]; intros st; [reflexivity|]. simpl.
  destruct (delete_one p st) as [st'|] eqn:E; [|reflexivity].
  rewrite IH. exact (delete_one_control _ _ _ E).
Qed.

Lemma delete_original_files_control p st :
  control (fst (delete_original_files p st)) = control st.
Proof.
  unfold delete_original_files.
  pose proof (parse_cue_file_control p st) as Hc.
  destruct (parse_cue_file p st) as [st1 bins]. cbn [fst] in Hc.
  pose proof (delete_all_control (bins ++ [p]) st1) as Hd.
  destruct (delete_all (bins ++ [p]) st1) as [st2 []]; cbn [fst] in *;
    rewrite ?control_add_log; congruence.
Qed.

Lemma backup_one_control d p st st' : backup_one d p st = Some st' -> control st' = control st.
Proof.
  unfold backup_one. destruct (Fs.exists_ (fs st) p); [|intros [= <-]; reflexivity].
  destruct (Fs.first_free _ _ _ _ _) as [dest|]; [|discriminate].
  destruct (Fs.move (fs st) p dest); [|discriminate]. intros [= <-]. reflexivity.
Qed.

Lemma backup_all_control d l st : control (fst (backup_all d l st)) = control st.
Proof.
  revert st. induction l as [|p l IH]; intros st; [reflexivity|]. simpl.
  destruct (backup_one d p st) as [st'|] eqn:E; [|reflexivity].
  rewrite IH. exact (backup_one_control _ _ _ _ E).
Qed.

Lemma move_to_backup_folder_control p st :
  control (fst (move_to_backup_folder p st)) = control st.
Proof.
  unfold move_to_backup_folder.
  destruct (Fs.mkdir (fs st) _) as [f'|]; [|reflexivity].
  pose proof (parse_cue_file_control p (with_fs f' st)) as Hc.
  destruct (parse_cue_file p (with_fs f' st)) as [st1 bins]. cbn [fst] in Hc.
  pose proof (backup_all_control
    (Pathlib.joinpath (Pathlib.parent p) "original_backup") (bins ++ [p]) st1) as Hd.
  destruct (backup_all _ (bins ++ [p]) st1) as [st2 []]; cbn [fst] in *;
    rewrite ?control_add_log, ?control_with_fs in *; congruence.
Qed.

Lemma postprocess_control p st : control (postprocess opts p st) = control st.
Proof.
  unfold postprocess. destruct (delete_originals opts).
  - apply delete_original_files_control.
  - destruct (move_to_backup opts); [apply move_to_backup_folder_control | reflexivity].
Qed.

(** *** A job whose output is present *)

Lemma convert_to_chd_skip path st :
  Fs.exists_ (fs st) (Pathlib.with_suffix path ".chd") = true ->
  convert_to_chd opts path st =
  (add_log (LogChdExists (Pathlib.name (Pathlib.with_suffix path ".chd"))) st, Return true).
Proof. intros H. unfold convert_to_chd. rewrite H. reflexivity. Qed.

Lemma process_body_skip path st :
  Fs.exists_ (fs st) (Pathlib.with_suffix path ".chd") = true ->
  process_body opts path st =
  (postprocess opts path
     (add_log (LogChdExists (Pathlib.name (Pathlib.with_suffix path ".chd"))) st),
   Return (Some true)).
Proof. intros H. unfold process_body. rewrite (convert_to_chd_skip _ _ H). reflexivity. Qed.

End EngineFacts.

(** ** The worker pool *)

Section PoolFacts.
Context {tools : ExternalTools}.
Variable opts : Options.

Lemma process_begin_converting f n t now st :
  is_converting st = true ->
  exists st', process_begin f n t now st = Some st'
    /\ is_converting st' = true /\ chdman_calls st' = chdman_calls st /\ fs st' = fs st.
Proof.
  intros H. unfold process_begin. rewrite H. simpl. eexists. repeat split. exact H.
Qed.

Lemma process_begin_stopped f n t now st :
  is_converting st = false -> process_begin f n t now st = None.
Proof. intros H. unfold process_begin. rewrite H. reflexivity. Qed.

Lemma step_skip_inv K c0 p e :
  skip_inv K c0 p -> e <> Stop ->
  match e with
  | Finish i =>
      match running p !! i with
      | Some f => Fs.exists_ (fs (app p)) (Pathlib.with_suffix f ".chd") = true
      | None => True
      end
  | _ => True
  end ->
  skip_inv K c0 (step opts p e).
Proof.
  intros Hinv Hstop Hout.
  pose proof Hinv as (Hconv & Hcalls & Hfail & Hfin & Hcount & Hcoll).
  destruct e as [now|i|now|]; [| | |contradiction]; cbn [step].
  - unfold dispatch. destruct (length (running p) <? cpu_cores opts); [|exact Hinv].
    destruct (pending p) as [|[n f] rest] eqn:Hp; [exact Hinv|].
    destruct (process_begin_converting f n (total p) now _ Hconv) as (st' & -> & H1 & H2 & _).
    repeat split; cbn; try assumption; [congruence|].
    rewrite length_app. simpl in *. lia.
  - unfold finish. destruct (running p !! i) as [f|] eqn:Hr; [|exact Hinv].
    rewrite (process_body_skip opts f _ Hout).
    pose proof (postprocess_control opts f
      (add_log (LogChdExists (Pathlib.name (Pathlib.with_suffix f ".chd"))) (app p))) as Hc.
    apply control_fields in Hc. destruct Hc as (Hc1 & Hc2 & _).
    repeat split; cbn; try assumption.
    + rewrite Hc1. exact Hconv.
    + rewrite Hc2. exact Hcalls.
    + apply Forall_app. split; [exact Hfin|]. constructor; [reflexivity | constructor].
    + rewrite length_app, length_delete by eauto. simpl.
      apply lookup_lt_Some in Hr. lia.
  - unfold collect. rewrite Hcoll.
    destruct (finished p) as [|[f out] rest] eqn:Hf; [exact Hinv|].
    rewrite Hconv. cbn [negb].
    pose proof (Forall_inv Hfin) as Hout'. pose proof (Forall_inv_tail Hfin) as Hrest.
    cbn [snd] in Hout'. rewrite Hout'.
    repeat split; cbn; try assumption. simpl in Hcount. lia.
Qed.

Lemma exec_skip_inv K c0 schedule p :
  skip_inv K c0 p -> ~ In Stop schedule -> outputs_exist opts schedule p ->
  skip_inv K c0 (exec opts schedule p).
Proof.
  revert p. induction schedule as [|e rest IH]; intros p Hinv Hstop Hout; [exact Hinv|].
  destruct Hout as [He Hrest]. cbn [exec fold_left]. apply IH.
  - apply step_skip_inv; [exact Hinv | |exact He].
    intros ->. apply Hstop. left. reflexivity.
  - intros H. apply Hstop. right. exact H.
  - exact Hrest.
Qed.

Lemma submit_all_skip_inv game_files st :
  is_converting st = true ->
  skip_inv (length game_files) (chdman_calls st) (submit_all game_files st).
Proof.
  intros H. repeat split; cbn; [exact H | constructor|].
  rewrite length_combine, length_seq. lia.
Qed.

(** when the run has ended, the whole tally is successes *)
Lemma skip_inv_quiescent K c0 p :
  skip_inv K c0 p -> quiescent p = true -> successful p = K.
Proof.
  intros (_ & _ & _ & _ & Hcount & Hcoll). unfold quiescent. rewrite Hcoll.
  destruct (pending p); [|discriminate]. destruct (running p); [|discriminate].
  destruct (finished p); [|discriminate]. intros _. simpl in Hcount. lia.
Qed.

(** *** What a job leaves alone *)

Lemma control_sampler st st' : control st' = control st -> sampler st' = sampler st.
Proof. unfold control, sampler. intros [= -> _ _ _ _ -> -> -> -> -> _]. reflexivity. Qed.

Lemma sampler_fields st st' :
  sampler st' = sampler st ->
  is_converting st' = is_converting st
  /\ file_start_times st' = file_start_times st
  /\ file_durations st' = file_durations st
  /\ completed_jobs st' = completed_jobs st.
Proof. unfold sampler. intros [= -> -> -> _ -> _]. repeat split. Qed.

Lemma run_chdman_sampler cmd n label p chd st :
  sampler (fst (run_chdman cmd n label p chd st)) = sampler st.
Proof.
  unfold run_chdman. simpl.
  destruct (chdman cmd (fs st)) as [code err f'|f'|f']; simpl; try reflexivity.
  destruct (Z.eqb code 0); [|reflexivity].
  destruct (Fs.st_size f' chd); reflexivity.
Qed.

Lemma convert_to_chd_sampler path st :
  sampler (fst (convert_to_chd opts path st)) = sampler st.
Proof.
  unfold convert_to_chd.
  destruct (Fs.exists_ (fs st) _); [reflexivity|].
  destruct (String.eqb _ ".cue").
  - pose proof (control_sampler _ _ (parse_cue_file_control path st)) as Hc.
    destruct (parse_cue_file path st) as [st1 bins]. cbn [fst] in Hc.
    destruct (sum_sizes (fs st1) bins); [|exact Hc].
    destruct (Fs.st_size (fs st1) path); [|exact Hc].
    pose proof (run_chdman_sampler
      {| tool := chdman_path opts; mode := "createcd"; input := path;
         output := Pathlib.with_suffix path ".chd" |} (n + n0) "PS1" path
      (Pathlib.with_suffix path ".chd") st1) as Hr.
    destruct (run_chdman _ _ _ _ _ st1) as [st2 ok]. cbn [fst] in *. congruence.
  - destruct (String.eqb _ ".iso"); [|reflexivity].
    destruct (Fs.st_size (fs st) path); [|reflexivity].
    pose proof (run_chdman_sampler
      {| tool := chdman_path opts; mode := "createdvd"; input := path;
         output := Pathlib.with_suffix path ".chd" |} n "PS2" path
      (Pathlib.with_suffix path ".chd") st) as Hr.
    destruct (run_chdman _ _ _ _ _ st) as [st2 ok]. cbn [fst] in *. congruence.
Qed.

Lemma process_body_sampler path st :
  sampler (fst (process_body opts path st)) = sampler st.
Proof.
  unfold process_body. pose proof (convert_to_chd_sampler path st) as H.
  destruct (convert_to_chd opts path st) as [st1 [[]|]]; cbn [fst] in *; try exact H.
  rewrite (control_sampler _ _ (postprocess_control opts path st1)). exact H.
Qed.

Lemma process_body_converting path st :
  is_converting (fst (process_body opts path st)) = is_converting st.
Proof. apply sampler_fields, process_body_sampler. Qed.

(** the converter is called at most once by a job, and for that job *)
Lemma convert_to_chd_calls path st :
  chdman_calls (fst (convert_to_chd opts path st)) = chdman_calls st
  \/ exists c, input c = path
       /\ chdman_calls (fst (convert_to_chd opts path st)) = chdman_calls st ++ [c].
Proof.
  unfold convert_to_chd.
  destruct (Fs.exists_ (fs st) _); [left; reflexivity|].
  destruct (String.eqb _ ".cue").
  - pose proof (parse_cue_file_control path st) as Hc.
    destruct (parse_cue_file path st) as [st1 bins]. cbn [fst] in Hc.
    apply control_fields in Hc. destruct Hc as (_ & Hc & _).
    destruct (sum_sizes (fs st1) bins); [|left; exact Hc].
    destruct (Fs.st_size (fs st1) path); [|left; exact Hc].
    pose proof (run_chdman_calls
      {| tool := chdman_path opts; mode := "createcd"; input := path;
         output := Pathlib.with_suffix path ".chd" |} (n + n0) "PS1" path
      (Pathlib.with_suffix path ".chd") st1) as Hr.
    destruct (run_chdman _ _ _ _ _ st1) as [st2 ok]. cbn [fst] in *.
    right. eexists. split; [|rewrite Hr, Hc; reflexivity]. reflexivity.
  - destruct (String.eqb _ ".iso"); [|left; reflexivity].
    destruct (Fs.st_size (fs st) path); [|left; reflexivity].
    pose proof (run_chdman_calls
      {| tool := chdman_path opts; mode := "createdvd"; input := path;
         output := Pathlib.with_suffix path ".chd" |} n "PS2" path
      (Pathlib.with_suffix path ".chd") st) as Hr.
    destruct (run_chdman _ _ _ _ _ st) as [st2 ok]. cbn [fst] in *.
    right. eexists. split; [|exact Hr]. reflexivity.
Qed.

Lemma process_body_calls path st c :
  In c (chdman_calls (fst (process_body opts path st))) ->
  In c (chdman_calls st) \/ input c = path.
Proof.
  unfold process_body. pose proof (convert_to_chd_calls path st) as H.
  destruct (convert_to_chd opts path st) as [st1 [[]|]]; cbn [fst] in *.
  - pose proof (postprocess_control opts path st1) as Hc.
    apply control_fields in Hc. destruct Hc as (_ & -> & _).
    destruct H as [->|(c' & Hin & ->)]; [auto|].
    intros Hc. apply in_app_or in Hc. destruct Hc as [Hc|[<-|[]]]; auto.
  - destruct H as [->|(c' & Hin & ->)]; [auto|].
    intros Hc. apply in_app_or in Hc. destruct Hc as [Hc|[<-|[]]]; auto.
  - destruct H as [->|(c' & Hin & ->)]; [auto|].
    intros Hc. apply in_app_or in Hc. destruct Hc as [Hc|[<-|[]]]; auto.
Qed.

Lemma process_body_outcome path st : snd (process_body opts path st) <> Return None.
Proof.
  unfold process_body.
  destruct (convert_to_chd opts path st) as [st1 [[]|]]; discriminate.
Qed.

(** once the flag is down, no job starts and the tally stands *)
Lemma step_stopped p e :
  is_converting (app p) = false ->
  let p' := step opts p e in
  is_converting (app p') = false /\ started p' = started p /\ counted p' = counted p
  /\ successful p' = successful p /\ failed p' = failed p.
Proof.
  intros H. destruct e as [now|i|now|]; cbn [step].
  - unfold dispatch. destruct (length (running p) <? cpu_cores opts); [|auto].
    destruct (pending p) as [|[n f] rest]; [auto|].
    rewrite (process_begin_stopped _ _ _ _ _ H). cbn. auto.
  - unfold finish. destruct (running p !! i) as [f|]; [|auto].
    pose proof (process_body_converting f (app p)) as Hb.
    destruct (process_body opts f (app p)) as [st out]. cbn in *.
    repeat split. congruence.
  - unfold collect. destruct (collecting p); [|auto].
    destruct (finished p) as [|[f out] rest]; [auto|].
    rewrite H. cbn. auto.
  - cbn. auto.
Qed.

Lemma exec_stopped schedule p :
  is_converting (app p) = false ->
  let p' := exec opts schedule p in
  is_converting (app p') = false /\ started p' = started p /\ counted p' = counted p
  /\ successful p' = successful p /\ failed p' = failed p.
Proof.
  revert p. induction schedule as [|e rest IH]; intros p H; [cbn; auto|].
  cbn [exec fold_left].
  destruct (step_stopped p e H) as (H1 & H2 & H3 & H4 & H5).
  destruct (IH _ H1) as (G1 & G2 & G3 & G4 & G5).
  cbn zeta in *. unfold exec in *. repeat split; congruence.
Qed.

Lemma step_tally_inv p e : tally_inv p -> tally_inv (step opts p e).
Proof.
  intros Hinv. pose proof Hinv as (Hrun & Hfin & Hcnt & Hsum).
  destruct e as [now|i|now|]; cbn [step].
  - unfold dispatch. destruct (length (running p) <? cpu_cores opts); [|exact Hinv].
    destruct (pending p) as [|[n f] rest]; [exact Hinv|].
    destruct (process_begin f n (total p) now (app p)) as [st|].
    + repeat split; cbn; [| | |assumption].
      * intros g Hg. apply in_app_or in Hg. apply in_or_app.
        destruct Hg as [Hg|Hg]; [left; auto | right; exact Hg].
      * intros g out Hg Hne. apply in_or_app. left. eauto.
      * intros g Hg. apply in_or_app. left. auto.
    + repeat split; cbn; try assumption.
      intros g out Hg Hne. apply in_app_or in Hg.
      destruct Hg as [Hg|[[= <- <-]|[]]]; [eauto | contradiction].
  - unfold finish. destruct (running p !! i) as [f|] eqn:Hr; [|exact Hinv].
    pose proof (process_body_outcome f (app p)) as Hout.
    destruct (process_body opts f (app p)) as [st out]. cbn in Hout.
    repeat split; cbn; try assumption.
    + intros g Hg. apply Hrun.
      apply list_elem_of_In in Hg. apply list_elem_of_In.
      exact (list_elem_of_delete_inv _ _ _ Hg).
    + intros g o Hg Hne. apply in_app_or in Hg.
      destruct Hg as [Hg|[[= <- <-]|[]]]; [eauto|].
      apply Hrun. apply list_elem_of_In. eapply list_elem_of_lookup_2. exact Hr.
  - unfold collect. destruct (collecting p); [|exact Hinv].
    destruct (finished p) as [|[f out] rest] eqn:Hf; [exact Hinv|].
    destruct (negb (is_converting (app p))).
    { repeat split; cbn; try assumption. intros g o Hg. apply Hfin. right. exact Hg. }
    assert (forall g o, In (g, o) rest -> o <> Return None -> In g (started p)) as Hrest.
    { intros g o Hg. apply Hfin. right. exact Hg. }
    destruct out as [[result|]|]; repeat split; cbn; try assumption.
    + intros g Hg. apply in_app_or in Hg. destruct Hg as [Hg|[<-|[]]]; [auto|].
      apply (Hfin f (Return (Some result))); [left; reflexivity | discriminate].
    + rewrite length_app. simpl. destruct result; lia.
    + intros g Hg. apply in_app_or in Hg. destruct Hg as [Hg|[<-|[]]]; [auto|].
      apply (Hfin f Raise); [left; reflexivity | discriminate].
    + rewrite length_app. simpl. lia.
  - exact Hinv.
Qed.

Lemma exec_tally_inv schedule p : tally_inv p -> tally_inv (exec opts schedule p).
Proof.
  revert p. induction schedule as [|e rest IH]; intros p H; [exact H|].
  cbn [exec fold_left]. apply IH, step_tally_inv, H.
Qed.

Lemma submit_all_tally_inv game_files st : tally_inv (submit_all game_files st).
Proof. repeat split; cbn; tauto. Qed.


(** *** The figures of the sampler *)

Lemma timed_sampler st st' f : sampler st' = sampler st -> timed st f -> timed st' f.
Proof.
  intros H. apply sampler_fields in H. destruct H as (_ & H & _).
  unfold timed. rewrite H. exact (fun x => x).
Qed.

Lemma step_sampler_inv p e :
  sampler_inv p ->
  match e with Dispatch now => Qeq_bool now 0 = false | _ => True end ->
  sampler_inv (step opts p e).
Proof.
  intros Hinv Hclock. pose proof Hinv as (Hdone & Hlen & Hrun & Hfin).
  destruct e as [now|i|now|]; cbn [step].
  - unfold dispatch. destruct (length (running p) <? cpu_cores opts); [|exact Hinv].
    destruct (pending p) as [|[n f] rest]; [exact Hinv|].
    unfold process_begin. destruct (negb (is_converting (app p))).
    + repeat split; cbn; try assumption.
      intros g out Hg Hne. apply in_app_or in Hg.
      destruct Hg as [Hg|[[= <- <-]|[]]]; [eauto | contradiction].
    + assert (forall g, timed (app p) g \/ g = f ->
                exists t, <[f := now]> (file_start_times (app p)) !! g = Some t
                          /\ Qeq_bool t 0 = false) as Hins.
      { intros g Hg. destruct (decide (f = g)) as [<-|Hne].
        - exists now. split; [apply lookup_insert_eq | exact Hclock].
        - destruct Hg as [(t & Ht & Hz)|Hg]; [|congruence].
          exists t. split; [|exact Hz]. rewrite lookup_insert_ne by exact Hne. exact Ht. }
      repeat split; cbn; try assumption.
      * intros g Hg. apply Hins. apply in_app_or in Hg.
        destruct Hg as [Hg|[<-|[]]]; [left; auto | right; reflexivity].
      * intros g out Hg Hne. apply Hins. left. eauto.
  - unfold finish. destruct (running p !! i) as [f|] eqn:Hr; [|exact Hinv].
    pose proof (process_body_sampler f (app p)) as Hs.
    pose proof (process_body_outcome f (app p)) as Hout.
    destruct (process_body opts f (app p)) as [st out]. cbn [fst snd] in Hs, Hout.
    pose proof (sampler_fields _ _ Hs) as (_ & _ & Hd & Hc).
    repeat split; cbn; [congruence | congruence | |].
    + intros g Hg. apply (timed_sampler _ _ _ Hs), Hrun.
      apply list_elem_of_In in Hg. apply list_elem_of_In.
      exact (list_elem_of_delete_inv _ _ _ Hg).
    + intros g o Hg Hne. apply (timed_sampler _ _ _ Hs). apply in_app_or in Hg.
      destruct Hg as [Hg|[[= <- <-]|[]]]; [eauto|].
      apply Hrun. apply list_elem_of_In. eapply list_elem_of_lookup_2. exact Hr.
  - unfold collect. destruct (collecting p); [|exact Hinv].
    destruct (finished p) as [|[f out] rest] eqn:Hf; [exact Hinv|].
    assert (forall g o, In (g, o) rest -> o <> Return None -> timed (app p) g) as Hrest.
    { intros g o Hg. apply Hfin. right. exact Hg. }
    destruct (negb (is_converting (app p))); [repeat split; cbn; assumption|].
    destruct out as [[result|]|]; [|exact (conj Hdone (conj Hlen (conj Hrun Hrest)))|].
    + destruct (Hfin f (Return (Some result))) as (t & Ht & Hz);
        [left; reflexivity | discriminate|].
      repeat split; cbn; try assumption.
      rewrite Ht, Hz, length_app. simpl. lia.
    + repeat split; cbn; assumption.
  - repeat split; cbn; assumption.
Qed.

Lemma exec_sampler_inv schedule p :
  sampler_inv p ->
  (forall now, In (Dispatch now) schedule -> Qeq_bool now 0 = false) ->
  sampler_inv (exec opts schedule p).
Proof.
  revert p. induction schedule as [|e rest IH]; intros p H Hclock; [exact H|].
  cbn [exec fold_left]. apply IH.
  - apply step_sampler_inv; [exact H|].
    destruct e; [apply Hclock; left; reflexivity | exact I..].
  - intros now Hin. apply Hclock. right. exact Hin.
Qed.

Lemma submit_all_sampler_inv game_files st :
  completed_jobs st = 0 -> file_durations st = [] ->
  sampler_inv (submit_all game_files st).
Proof.
  intros Hc Hd. repeat split; cbn; [exact Hc | rewrite Hd; reflexivity | tauto | tauto].
Qed.

(** *** The converter after a stop *)

Lemma step_calls_within c0 jobs p e :
  is_converting (app p) = false -> calls_within c0 jobs p ->
  calls_within c0 jobs (step opts p e).
Proof.
  intros Hstop Hinv. pose proof Hinv as (Hcalls & Hrun).
  destruct e as [now|i|now|]; cbn [step].
  - unfold dispatch. destruct (length (running p) <? cpu_cores opts); [|exact Hinv].
    destruct (pending p) as [|[n f] rest]; [exact Hinv|].
    rewrite (process_begin_stopped _ _ _ _ _ Hstop). exact Hinv.
  - unfold finish. destruct (running p !! i) as [f|] eqn:Hr; [|exact Hinv].
    pose proof (process_body_calls f (app p)) as Hb.
    destruct (process_body opts f (app p)) as [st out]. cbn [fst] in Hb.
    split; cbn.
    + intros c Hc. destruct (Hb c Hc) as [H|H]; [auto|].
      right. rewrite H. apply Hrun, list_elem_of_In. eapply list_elem_of_lookup_2. exact Hr.
    + intros g Hg. apply Hrun. apply list_elem_of_In in Hg. apply list_elem_of_In.
      exact (list_elem_of_delete_inv _ _ _ Hg).
  - unfold collect. destruct (collecting p); [|exact Hinv].
    destruct (finished p) as [|[f out] rest]; [exact Hinv|].
    rewrite Hstop. exact Hinv.
  - exact Hinv.
Qed.

Lemma exec_calls_within c0 jobs schedule p :
  is_converting (app p) = false -> calls_within c0 jobs p ->
  calls_within c0 jobs (exec opts schedule p).
Proof.
  revert p. induction schedule as [|e rest IH]; intros p Hstop H; [exact H|].
  cbn [exec fold_left]. apply IH.
  - apply (step_stopped p e Hstop).
  - apply step_calls_within; assumption.
Qed.

End PoolFacts.

(** ** The order of paths *)

Module PathOrder.
Import Pathlib.

Lemma compare_lt_trans a b c :
  String.compare a b = Lt -> String.compare b c = Lt -> String.compare a c = Lt.
Proof.
  intros Hab Hbc.
  assert (String.le a b) as Lab by (unfold String.le, String.leb; rewrite Hab; exact I).
  assert (String.le b c) as Lbc by (unfold String.le, String.leb; rewrite Hbc; exact I).
  assert (String.le a c) as Lac by (etrans; eassumption).
  unfold String.le, String.leb in Lac.
  destruct (String.compare a c) eqn:E; [|reflexivity|contradiction].
  apply String.compare_eq_iff in E. subst c.
  rewrite String.compare_antisym, Hab in Hbc. discriminate.
Qed.

Lemma path_cmp_antisym p q : path_cmp q p = CompOpp (path_cmp p q).
Proof.
  revert q. induction p as [|a p IH]; intros [|b q]; simpl; try reflexivity.
  rewrite (String.compare_antisym b a).
  destruct (String.compare a b); simpl; auto.
Qed.

Lemma path_cmp_eq p q : path_cmp p q = Eq -> p = q.
Proof.
  revert q. induction p as [|a p IH]; intros [|b q]; simpl; try discriminate; [reflexivity|].
  destruct (String.compare a b) eqn:E; try discriminate.
  apply String.compare_eq_iff in E. intros H. f_equal; auto.
Qed.

#[global] Instance path_le_total : Total path_le.
Proof.
  intros p q. unfold path_le. rewrite (path_cmp_antisym p q).
  destruct (path_cmp p q); simpl; [left|left|right]; discriminate.
Qed.

#[global] Instance path_le_trans : Transitive path_le.
Proof.
  unfold path_le. intros p. induction p as [|a p IH]; intros q r Hpq Hqr.
  - destruct r; discriminate.
  - destruct q as [|b q]; [contradiction Hpq; reflexivity|].
    destruct r as [|c r]; [contradiction Hqr; reflexivity|].
    simpl in *.
    destruct (String.compare a b) eqn:Eab; [| |contradiction Hpq; reflexivity].
    + apply String.compare_eq_iff in Eab. subst b.
      destruct (String.compare a c); [eauto | discriminate | exact Hqr].
    + destruct (String.compare b c) eqn:Ebc; [| |contradiction Hqr; reflexivity].
      * apply String.compare_eq_iff in Ebc. subst c. rewrite Eab. discriminate.
      * rewrite (compare_lt_trans _ _ _ Eab Ebc). discriminate.
Qed.

#[global] Instance path_le_antisym : AntiSymm (=) path_le.
Proof.
  intros p q Hpq Hqp. unfold path_le in *. rewrite (path_cmp_antisym p q) in Hqp.
  destruct (path_cmp p q) eqn:E; [exact (path_cmp_eq _ _ E) | |]; simpl in *; congruence.
Qed.

End PathOrder.

(** ** Scanning *)

Section ScanFacts.
Context {tools : ExternalTools}.
Variable opts : Options.

Lemma sorted_Sorted l : StronglySorted Pathlib.path_le (sorted l).
Proof. apply StronglySorted_merge_sort; apply _. Qed.

Lemma sorted_Permutation l : Permutation (sorted l) l.
Proof. apply merge_sort_Permutation. Qed.

Lemma glob_In f dir rec ext p :
  In p (Fs.glob f dir rec ext) <->
  is_Some (f !! p) /\ Fs.below dir rec p = true
  /\ Pathlib.endswith (Pathlib.name p) ext = true.
Proof.
  unfold Fs.glob. rewrite filter_In, andb_true_iff.
  rewrite <- list_elem_of_In, list_elem_of_fmap. split.
  - intros [([q e] & -> & Hq) H]. apply elem_of_map_to_list in Hq. simpl in *.
    split; [eauto | exact H].
  - intros [[e He] H]. split; [|exact H]. exists (p, e).
    split; [reflexivity | apply elem_of_map_to_list, He].
Qed.

Lemma glob_NoDup f dir rec ext : List.NoDup (Fs.glob f dir rec ext).
Proof.
  unfold Fs.glob. apply List.NoDup_filter. apply NoDup_ListNoDup.
  apply NoDup_fst_map_to_list.
Qed.

Lemma cue_not_iso nm :
  Pathlib.endswith nm ".cue" = true -> Pathlib.endswith nm ".iso" = false.
Proof.
  unfold Pathlib.endswith.
  destruct (rev (Text.of_string nm)) as [|x t]; [discriminate|].
  change (rev (Text.of_string ".cue")) with ("e"%char :: Text.of_string "uc.").
  change (rev (Text.of_string ".iso")) with ("o"%char :: Text.of_string "si.").
  cbn [Pathlib.starts_with].
  destruct (Ascii.eqb_spec "e" x) as [<-|_]; [reflexivity | discriminate].
Qed.

Lemma find_game_files_spec f dir rec :
  StronglySorted Pathlib.path_le (find_game_files opts f dir rec)
  /\ List.NoDup (find_game_files opts f dir rec)
  /\ (forall p, In p (find_game_files opts f dir rec) <-> is_game_file opts f dir rec p)
  /\ (process_ps1_cues opts = false -> process_ps2_isos opts = false ->
      find_game_files opts f dir rec = []).
Proof.
  unfold find_game_files. split; [apply sorted_Sorted|].
  set (l := _ ++ _).
  assert (forall p, In p l <-> is_game_file opts f dir rec p) as Hin.
  { intros p. unfold l, is_game_file. rewrite in_app_iff.
    destruct (process_ps1_cues opts), (process_ps2_isos opts);
      rewrite ?glob_In; simpl; intuition congruence. }
  assert (List.NoDup l) as Hnd.
  { unfold l. apply NoDup_ListNoDup, NoDup_app. repeat split.
    - destruct (process_ps1_cues opts); [apply NoDup_ListNoDup, glob_NoDup | constructor].
    - intros p Hc Hi. apply list_elem_of_In in Hc, Hi.
      destruct (process_ps1_cues opts); [|destruct Hc].
      destruct (process_ps2_isos opts); [|destruct Hi].
      apply glob_In in Hc, Hi. destruct Hc as (_ & _ & Hc), Hi as (_ & _ & Hi).
      rewrite (cue_not_iso _ Hc) in Hi. discriminate.
    - destruct (process_ps2_isos opts); [apply NoDup_ListNoDup, glob_NoDup | constructor]. }
  split; [|split].
  - apply NoDup_ListNoDup. rewrite (sorted_Permutation l). apply NoDup_ListNoDup, Hnd.
  - intros p. rewrite <- Hin, <- !list_elem_of_In. rewrite (sorted_Permutation l). reflexivity.
  - intros Hc Hi. unfold l. rewrite Hc, Hi. reflexivity.
Qed.

End ScanFacts.

(** ** Extraction *)

Section ExtractFacts.
Context {tools : ExternalTools}.
Variable opts : Options.

Lemma count_occ_Permutation (l l' : list (list string)) p :
  Permutation l l' -> count_occ path_eq_dec l p = count_occ path_eq_dec l' p.
Proof.
  induction 1 as [|x l l' _ IH|x y l|l l' l'' _ IH1 _ IH2]; simpl.
  - reflexivity.
  - rewrite IH. reflexivity.
  - destruct (path_eq_dec x p), (path_eq_dec y p); reflexivity.
  - congruence.
Qed.

Lemma tar_gz_is_gz nm :
  Pathlib.endswith nm ".tar.gz" = true -> Pathlib.endswith nm ".gz" = true.
Proof.
  unfold Pathlib.endswith.
  change (rev (Text.of_string ".tar.gz")) with (Text.of_string "zg.rat.").
  change (rev (Text.of_string ".gz")) with (Text.of_string "zg.").
  destruct (rev (Text.of_string nm)) as [|a [|b [|c t]]]; try discriminate;
    cbn [Text.of_string list_ascii_of_string Pathlib.starts_with];
    intros H; repeat (apply andb_true_iff in H as [? H]);
    try discriminate; repeat (apply andb_true_iff; split); auto.
Qed.

Lemma below_child dir rec nm : Fs.below dir rec (dir ++ [nm]) = true.
Proof.
  unfold Fs.below, Fs.is_under. rewrite bool_decide_eq_true_2 by (exists [nm]; reflexivity).
  rewrite length_app. simpl. destruct rec.
  - apply Nat.ltb_lt. lia.
  - apply Nat.eqb_eq. lia.
Qed.

Lemma name_child dir nm : Pathlib.name (dir ++ [nm]) = nm.
Proof. unfold Pathlib.name. apply last_last. Qed.

(** a [.tar.gz] file in the directory is found under two patterns *)
Lemma find_compressed_twice f dir rec nm e :
  f !! (dir ++ [nm]) = Some e -> Pathlib.endswith nm ".tar.gz" = true ->
  2 <= count_occ path_eq_dec (find_compressed_files f dir rec) (dir ++ [nm]).
Proof.
  intros Hf Hnm. unfold find_compressed_files.
  rewrite (count_occ_Permutation _ _ _ (sorted_Permutation _)).
  assert (forall ext, Pathlib.endswith nm ext = true ->
            1 <= count_occ path_eq_dec (Fs.glob f dir rec ext) (dir ++ [nm])) as Hone.
  { intros ext Hext. apply (count_occ_In path_eq_dec). apply glob_In.
    rewrite below_child, name_child. eauto. }
  pose proof (Hone ".gz"%string (tar_gz_is_gz _ Hnm)) as H1.
  pose proof (Hone ".tar.gz"%string Hnm) as H2.
  unfold COMPRESSED_EXTENSIONS. cbn [flat_map]. rewrite !count_occ_app. lia.
Qed.

(** *** Every archive found is handed to [extract_archive] *)

Lemma run_decoder_control d label a folder st :
  control (fst (run_decoder d label a folder st)) = control st.
Proof.
  unfold run_decoder. cbn.
  destruct (unpack d a folder _); reflexivity.
Qed.

Lemma extract_archive_calls a st :
  extract_calls (fst (extract_archive opts a st)) = extract_calls st ++ [a].
Proof.
  unfold extract_archive.
  destruct (Fs.mkdir _ _) as [f'|]; [|reflexivity].
  assert (forall r : State * option (list string),
            control (fst r) = control (with_fs f' (record_extract a st)) ->
            extract_calls (fst r) = extract_calls st ++ [a]) as Hc.
  { intros r Hr. apply control_fields in Hr. destruct Hr as (_ & _ & -> & _). reflexivity. }
  destruct (String.eqb _ ".zip"); [apply Hc, run_decoder_control|].
  destruct (_ || _ || _ || _); [apply Hc, run_decoder_control|].
  destruct (_ || _); [|reflexivity].
  destruct (seven_zip_path opts); [apply Hc, run_decoder_control | reflexivity].
Qed.

Lemma extract_each_calls archives st :
  extract_calls (fst (extract_each opts archives st)) = extract_calls st ++ archives.
Proof.
  revert st. induction archives as [|a rest IH]; intros st.
  - symmetry. apply app_nil_r.
  - cbn [extract_each]. pose proof (extract_archive_calls a st) as Ha.
    destruct (extract_archive opts a st) as [st1 [folder|]]; cbn [fst] in Ha.
    + set (st2 := if delete_archives_after_extract opts then _ else st1).
      assert (extract_calls st2 = extract_calls st1) as H2.
      { unfold st2. destruct (delete_archives_after_extract opts); [|reflexivity].
        destruct (Fs.unlink (fs st1) a); reflexivity. }
      specialize (IH st2). destruct (extract_each opts rest st2) as [st3 folders].
      cbn [fst] in *. rewrite IH, H2, Ha, <- app_assoc. reflexivity.
    + rewrite IH, Ha, <- app_assoc. reflexivity.
Qed.

Lemma extract_all_archives_calls dir rec st :
  extract_calls (fst (extract_all_archives opts dir rec st)) =
  extract_calls st ++ find_compressed_files (fs st) dir rec.
Proof.
  unfold extract_all_archives.
  destruct (find_compressed_files (fs st) dir rec) as [|a l] eqn:E.
  - symmetry. apply app_nil_r.
  - rewrite extract_each_calls. reflexivity.
Qed.

End ExtractFacts.


(** ** Collisions at a destination *)

Module Collide.
Import Pathlib.

Lemma first_free_result fuel cand counter dest f d :
  Fs.first_free fuel cand counter dest f = Some d ->
  Fs.exists_ f d = false /\
  (d = dest \/
   exists k, counter <= k /\ d = cand k /\ Fs.exists_ f dest = true /\
             forall j, counter <= j < k -> Fs.exists_ f (cand j) = true).
Proof.
  revert counter dest. induction fuel as [|fuel IH]; intros counter dest; simpl.
  - destruct (Fs.exists_ f dest) eqn:E; [discriminate|]. intros [= <-]. auto.
  - destruct (Fs.exists_ f dest) eqn:E; [|intros [= <-]; auto].
    intros H. destruct (IH _ _ H) as [Hd [->|(k & Hk & -> & Hc & Hj)]].
    + split; [exact Hd|]. right. exists counter.
      split; [lia|]. split; [reflexivity|]. split; [reflexivity|]. intros j Hj. lia.
    + split; [exact Hd|]. right. exists k.
      split; [lia|]. split; [reflexivity|]. split; [reflexivity|].
      intros j Hjk. destruct (Nat.eq_dec j counter) as [->|Hne]; [exact Hc|].
      apply Hj. lia.
Qed.

Lemma first_free_none fuel cand counter dest f :
  Fs.first_free fuel cand counter dest f = None ->
  forall j, counter <= j < counter + fuel -> Fs.exists_ f (cand j) = true.
Proof.
  revert counter dest. induction fuel as [|fuel IH]; intros counter dest; simpl.
  - intros _ j Hj. lia.
  - destruct (Fs.exists_ f dest); [|discriminate].
    intros H j Hj. destruct (Nat.eq_dec j counter) as [->|Hne].
    + clear IH Hj. destruct fuel; simpl in H;
        destruct (Fs.exists_ f (cand counter)); congruence.
    + apply (IH _ _ H). lia.
Qed.

(** distinct paths that are all present are no more than the entries *)
Lemma present_bound (f : gmap (list string) entry) (l : list (list string)) :
  NoDup l -> (forall p, In p l -> Fs.exists_ f p = true) -> length l <= size f.
Proof.
  intros Hnd Hl. rewrite <- (length_map_to_list f), <- (length_fmap fst).
  apply submseteq_length, NoDup_submseteq; [exact Hnd|].
  intros p Hp. apply list_elem_of_In, Hl in Hp. unfold Fs.exists_ in Hp.
  destruct (f !! p) as [e|] eqn:E; [|discriminate].
  apply list_elem_of_fmap. exists (p, e). split; [reflexivity|].
  apply elem_of_map_to_list, E.
Qed.

(** the loop ends within [S (size f)] rounds *)
Lemma first_free_total (cand : nat -> list string) (dest : list string)
    (f : gmap (list string) entry) :
  (forall j k, cand j = cand k -> j = k) ->
  exists d, Fs.first_free (S (size f)) cand 1 dest f = Some d.
Proof.
  intros Hinj. destruct (Fs.first_free _ _ _ _ _) as [d|] eqn:E; [eauto|]. exfalso.
  pose proof (first_free_none _ _ _ _ _ E) as Hall.
  assert (length (cand <$> seq 1 (S (size f))) <= size f) as Hlen.
  { apply present_bound.
    - apply NoDup_fmap_2; [intros j k; apply Hinj | apply NoDup_seq].
    - intros p Hp. apply list_elem_of_In, list_elem_of_fmap in Hp.
      destruct Hp as (j & -> & Hj). apply elem_of_seq in Hj. apply Hall. lia. }
  rewrite length_fmap, length_seq in Hlen. lia.
Qed.

(** *** Names that are one component *)

Lemma of_string_app a b :
  Text.of_string (a ++ b)%string = Text.of_string a ++ Text.of_string b.
Proof. induction a as [|x a IH]; simpl; [reflexivity|]. f_equal. exact IH. Qed.

Lemma to_of_string s : Text.to_string (Text.of_string s) = s.
Proof. apply string_of_list_ascii_of_string. Qed.

Lemma of_to_string t : Text.of_string (Text.to_string t) = t.
Proof. apply list_ascii_of_string_of_list_ascii. Qed.

Lemma split_on_plain sep cur s :
  ~ In sep s -> split_on sep cur s = [rev cur ++ s].
Proof.
  revert cur. induction s as [|x t IH]; intros cur H; simpl.
  - rewrite app_nil_r. reflexivity.
  - destruct (Ascii.eqb_spec x sep) as [->|_]; [exfalso; apply H; left; reflexivity|].
    rewrite IH by (intros Hin; apply H; right; exact Hin).
    simpl. rewrite <- app_assoc. reflexivity.
Qed.

Lemma joinpath_component d s :
  no_slash s -> keep_part (Text.of_string s) = true -> joinpath d s = d ++ [s].
Proof.
  intros Hs Hk. unfold joinpath, parts.
  rewrite split_on_plain by exact Hs. simpl. rewrite Hk. simpl. rewrite to_of_string.
  destruct (Text.of_string s) as [|x t] eqn:E; [reflexivity|].
  destruct (Ascii.eqb_spec x "/") as [->|Hne].
  - exfalso. apply Hs. rewrite E. left. reflexivity.
  - destruct x as [[] [] [] [] [] [] [] []]; try reflexivity. contradiction Hne. reflexivity.
Qed.

Lemma digits_no_slash d : ~ In "/"%char (Text.of_string (NilEmpty.string_of_uint d)).
Proof.
  unfold Text.of_string.
  induction d as [|d IH|d IH|d IH|d IH|d IH|d IH|d IH|d IH|d IH|d IH]; simpl;
    [tauto|..]; (intros [H|H]; [discriminate H | exact (IH H)]).
Qed.

Lemma str_of_nat_inj j k : str_of_nat j = str_of_nat k -> j = k.
Proof.
  unfold str_of_nat. intros H. apply Unsigned.to_uint_inj.
  assert (Some (Nat.to_uint j) = Some (Nat.to_uint k)) as [= E]; [|exact E].
  rewrite <- !NilEmpty.usu. congruence.
Qed.

Lemma keep_part_long t : 2 <= length t -> keep_part t = true.
Proof. destruct t as [|a [|b u]]; simpl; [lia | lia | reflexivity]. Qed.

Lemma str_of_nat_cons n : exists x t, Text.of_string (str_of_nat n) = x :: t.
Proof.
  unfold str_of_nat.
  assert (Nat.to_uint n = Decimal.unorm (Nat.to_uint n)) as E.
  { rewrite <- Unsigned.to_of, Unsigned.of_to. reflexivity. }
  rewrite E. unfold Decimal.unorm.
  destruct (Decimal.nzhead (Nat.to_uint n)); simpl; eauto.
Qed.

(** a name built around a counter: [pre ++ str(counter) ++ post] *)
Lemma counter_name_inj d pre post j k :
  no_slash pre -> no_slash post -> pre <> EmptyString ->
  joinpath d (pre ++ str_of_nat j ++ post) = joinpath d (pre ++ str_of_nat k ++ post) ->
  j = k.
Proof.
  intros Hpre Hpost Hne.
  assert (forall n, no_slash (pre ++ str_of_nat n ++ post)) as Hns.
  { intros n. unfold no_slash in *. rewrite !of_string_app, !in_app_iff.
    pose proof (digits_no_slash (Nat.to_uint n)). unfold str_of_nat. tauto. }
  assert (forall n, keep_part (Text.of_string (pre ++ str_of_nat n ++ post)) = true) as Hkeep.
  { intros n. rewrite !of_string_app.
    assert (exists x t, Text.of_string (str_of_nat n) = x :: t) as (x & t & ->).
    { apply str_of_nat_cons. }
    destruct pre as [|y pre]; [contradiction|].
    apply keep_part_long. simpl. rewrite !length_app. simpl. lia. }
  rewrite !joinpath_component by auto.
  intros H. apply app_inv_head in H. injection H as H.
  apply String.app_inj in H.
  apply (f_equal Text.of_string) in H. rewrite !of_string_app in H.
  apply app_inv_tail in H. apply str_of_nat_inj.
  rewrite <- (to_of_string (str_of_nat j)), H. apply to_of_string.
Qed.

Lemma string_app_assoc (a b c : string) : ((a ++ b) ++ c = a ++ b ++ c)%string.
Proof.
  induction a as [|x a IH]; [reflexivity|].
  change (String x ((a ++ b) ++ c) = String x (a ++ b ++ c))%string.
  f_equal. exact IH.
Qed.

Lemma no_slash_app a b : no_slash a -> no_slash b -> no_slash (a ++ b).
Proof. unfold no_slash. rewrite of_string_app, in_app_iff. tauto. Qed.



Lemma no_slash_rsplit nm : no_slash nm -> no_slash (rsplit_dot_head nm).
Proof.
  unfold no_slash, rsplit_dot_head. intros H.
  pose proof (TextFacts.skip_incl not_dot (rev (Text.of_string nm)) "/"%char) as Hs.
  destruct (Text.skip not_dot (rev (Text.of_string nm))) as [|dot base_rev]; [exact H|].
  rewrite of_to_string. intros Hin. apply H, in_rev, Hs. right. apply in_rev. exact Hin.
Qed.

Lemma chd_candidate_inj dest nm j k :
  no_slash nm -> chd_candidate dest nm j = chd_candidate dest nm k -> j = k.
Proof.
  intros Hnm. unfold chd_candidate.
  rewrite <- !(string_app_assoc (rsplit_dot_head nm) " (").
  apply counter_name_inj.
  - apply no_slash_app; [apply no_slash_rsplit, Hnm|].
    unfold no_slash. simpl. intuition discriminate.
  - unfold no_slash. simpl. intuition discriminate.
  - destruct (rsplit_dot_head nm); discriminate.
Qed.


(** the destination chosen for a converted file *)
Lemma dest_for_fresh (remove_locale : bool) (dest chd : list string)
    (f : gmap (list string) entry) :
  no_slash (new_name remove_locale chd) ->
  exists d, dest_for remove_locale dest chd f = Some d /\ f !! d = None.
Proof.
  intros Hnm. unfold dest_for.
  destruct (first_free_total (chd_candidate dest (new_name remove_locale chd))
              (joinpath dest (new_name remove_locale chd)) f) as [d Hd].
  { intros j k. apply chd_candidate_inj, Hnm. }
  exists d. split; [exact Hd|]. apply first_free_result in Hd as [Hd _].
  unfold Fs.exists_ in Hd. destruct (f !! d); [discriminate | reflexivity].
Qed.

End Collide.

Section MoveFacts.
Import Pathlib Collide.

Lemma first_free_free (fuel : nat) (cand : nat -> list string) (counter : nat)
    (dest : list string) (f : gmap (list string) entry) :
  Fs.exists_ f dest = false -> Fs.first_free fuel cand counter dest f = Some dest.
Proof. intros H. destruct fuel; simpl; rewrite H; reflexivity. Qed.

Lemma first_free_step (fuel : nat) (cand : nat -> list string) (counter : nat)
    (dest : list string) (f : gmap (list string) entry) :
  Fs.exists_ f dest = true ->
  Fs.first_free (S fuel) cand counter dest f =
  Fs.first_free fuel cand (S counter) (cand counter) f.
Proof. intros H. simpl. rewrite H. reflexivity. Qed.

End MoveFacts.

Section DeleteFacts.
Context {tools : ExternalTools}.
Variable opts : Options.



End DeleteFacts.

(** ** Runs that end *)

Section DrainFacts.
Context {tools : ExternalTools}.
Variable opts : Options.

Lemma exec_app s1 s2 (p : Pool) : exec opts (s1 ++ s2) p = exec opts s2 (exec opts s1 p).
Proof. unfold exec. apply fold_left_app. Qed.

(** the first running job finishes *)
Lemma finish_first p f r :
  running p = f :: r ->
  let q := finish opts 0 p in
  running q = r /\ pending q = pending p
  /\ length (finished q) = S (length (finished p)).
Proof.
  intros Hr. unfold finish. rewrite Hr. cbn [lookup list_lookup].
  destruct (process_body opts f (app p)) as [st out]. cbn.
  rewrite length_app. cbn. repeat split. lia.
Qed.

Lemma finish_running n : forall p,
  length (running p) = n ->
  let q := exec opts (repeat (Finish 0) n) p in
  running q = [] /\ pending q = pending p
  /\ length (finished q) = length (finished p) + n.
Proof.
  induction n as [|n IH]; intros p Hn.
  - cbn. destruct (running p); [|discriminate]. repeat split. lia.
  - destruct (running p) as [|f r] eqn:Hr; [discriminate|].
    destruct (finish_first p f r Hr) as (H1 & H2 & H3).
    cbn [repeat exec fold_left step].
    destruct (IH (finish opts 0 p)) as (I1 & I2 & I3).
    { rewrite H1. cbn in Hn. lia. }
    unfold exec in *. rewrite I1, I2, I3, H2, H3. repeat split. lia.
Qed.

(** with no job running and a worker free, the next pending job is started
    and finishes *)
Lemma dispatch_finish p x rest :
  1 <= cpu_cores opts -> running p = [] -> pending p = x :: rest ->
  let q := exec opts [Dispatch 1; Finish 0] p in
  running q = [] /\ pending q = rest
  /\ length (finished q) = S (length (finished p)).
Proof.
  intros Hc Hr Hp. cbn [exec fold_left step]. unfold dispatch. rewrite Hr, Hp.
  cbn [length]. destruct (Nat.ltb_spec 0 (cpu_cores opts)) as [_|]; [|lia].
  destruct x as [n f].
  destruct (process_begin f n (total p) 1 (app p)) as [st|].
  - unfold finish. cbn [running app_nil_l lookup list_lookup].
    change ([] ++ [f]) with [f]. cbn [list_lookup lookup].
    cbn [app]. destruct (process_body opts f st) as [st' out]. cbn.
    rewrite length_app. cbn. repeat split. lia.
  - unfold finish. cbn [running]. cbn. rewrite length_app. cbn. repeat split. lia.
Qed.

Lemma dispatch_pending n : forall p,
  1 <= cpu_cores opts -> running p = [] -> length (pending p) = n ->
  let q := exec opts (concat (repeat [Dispatch 1; Finish 0] n)) p in
  running q = [] /\ pending q = []
  /\ length (finished q) = length (finished p) + n.
Proof.
  induction n as [|n IH]; intros p Hc Hr Hn.
  - cbn. destruct (pending p); [|discriminate]. repeat split; [exact Hr | lia].
  - destruct (pending p) as [|x rest] eqn:Hp; [discriminate|].
    destruct (dispatch_finish p x rest Hc Hr Hp) as (H1 & H2 & H3).
    cbn [repeat concat]. rewrite exec_app.
    destruct (IH (exec opts [Dispatch 1; Finish 0] p) Hc H1) as (I1 & I2 & I3).
    { rewrite H2. cbn in Hn. lia. }
    rewrite I1, I2, I3, H3. repeat split. lia.
Qed.

(** with no job running or pending, the loop ends after as many rounds as
    there are futures *)
Lemma collect_all n : forall p,
  running p = [] -> pending p = [] ->
  collecting p = false \/ length (finished p) <= n ->
  quiescent (exec opts (repeat (Collect 1) n) p) = true.
Proof.
  assert (forall p, running p = [] -> pending p = [] -> collecting p = false ->
                    quiescent p = true) as Hq.
  { intros p Hr Hp Hc. unfold quiescent. rewrite Hr, Hp, Hc. reflexivity. }
  induction n as [|n IH]; intros p Hr Hp Hn.
  - cbn. destruct Hn as [Hn|Hn]; [exact (Hq p Hr Hp Hn)|].
    unfold quiescent. rewrite Hr, Hp. destruct (finished p); [|cbn in Hn; lia].
    apply orb_true_r.
  - cbn [repeat exec fold_left step]. apply IH; unfold collect.
    + destruct (collecting p); [|exact Hr]. destruct (finished p) as [|[f out] r]; [exact Hr|].
      destruct (negb (is_converting (app p))); [exact Hr|].
      destruct out as [[b|]|]; exact Hr.
    + destruct (collecting p); [|exact Hp]. destruct (finished p) as [|[f out] r]; [exact Hp|].
      destruct (negb (is_converting (app p))); [reflexivity|].
      destruct out as [[b|]|]; exact Hp.
    + destruct (collecting p) eqn:Hc; [|left; exact Hc].
      destruct Hn as [Hn|Hn]; [discriminate|].
      destruct (finished p) as [|[f out] r] eqn:Hf; [right; rewrite Hf; cbn; lia|].
      destruct (negb (is_converting (app p))); [left; reflexivity|].
      cbn in Hn. destruct out as [[b|]|]; right; cbn; lia.
Qed.

(** every pool runs to its end when a worker is there *)
Lemma drain_quiescent p :
  1 <= cpu_cores opts -> quiescent (exec opts (drain p) p) = true.
Proof.
  intros Hc. unfold drain. rewrite !exec_app.
  destruct (finish_running (length (running p)) p eq_refl) as (H1 & H2 & H3).
  set (p1 := exec opts (repeat (Finish 0) (length (running p))) p) in *.
  destruct (dispatch_pending (length (pending p)) p1 Hc H1) as (I1 & I2 & I3).
  { rewrite H2. reflexivity. }
  apply collect_all; [exact I1 | exact I2|]. right. rewrite I3, H3. lia.
Qed.

Lemma drain_no_stop p : ~ In Stop (drain p).
Proof.
  unfold drain. intros H. apply in_app_or in H. destruct H as [H|H].
  - apply repeat_spec in H. discriminate.
  - apply in_app_or in H. destruct H as [H|H].
    + apply in_concat in H. destruct H as (l & Hl & Hin).
      apply repeat_spec in Hl. subst l. destruct Hin as [H|[H|[]]]; discriminate.
    + apply repeat_spec in H. discriminate.
Qed.

(** without postprocessing, jobs whose outputs are in place leave the
    files alone *)
Lemma step_outputs_inv f0 p e :
  delete_originals opts = false -> move_to_backup opts = false ->
  outputs_inv f0 p -> outputs_inv f0 (step opts p e).
Proof.
  intros Hd Hm (Hfs & Hrun & Hpen).
  destruct e as [now|i|now|]; cbn [step].
  - unfold dispatch. destruct (length (running p) <? cpu_cores opts); [|repeat split; assumption].
    destruct (pending p) as [|[n f] rest] eqn:Hp; [repeat split; try assumption; rewrite Hp; constructor|].
    pose proof (Forall_inv Hpen) as Hf. pose proof (Forall_inv_tail Hpen) as Hrest.
    unfold process_begin. destruct (negb (is_converting (app p))); cbn.
    + repeat split; assumption.
    + repeat split; [exact Hfs| |exact Hrest].
      apply Forall_app. split; [exact Hrun|]. constructor; [exact Hf | constructor].
  - unfold finish. destruct (running p !! i) as [f|] eqn:Hr; [|repeat split; assumption].
    assert (Fs.exists_ (fs (app p)) (Pathlib.with_suffix f ".chd") = true) as Hf.
    { rewrite Hfs. rewrite Forall_forall in Hrun. apply Hrun.
      eapply list_elem_of_lookup_2. exact Hr. }
    rewrite (process_body_skip opts f _ Hf). unfold postprocess. rewrite Hd, Hm. cbn.
    repeat split; [exact Hfs| |exact Hpen].
    rewrite Forall_forall in Hrun. apply Forall_forall. intros x Hx. apply Hrun.
    eapply list_elem_of_delete_inv. exact Hx.
  - unfold collect. destruct (collecting p); [|repeat split; assumption].
    destruct (finished p) as [|[f out] rest]; [repeat split; assumption|].
    destruct (negb (is_converting (app p))); [repeat split; try assumption; constructor|].
    destruct out as [[b|]|]; repeat split; assumption.
  - repeat split; assumption.
Qed.

Lemma outputs_inv_exist f0 schedule : forall p,
  delete_originals opts = false -> move_to_backup opts = false ->
  outputs_inv f0 p -> outputs_exist opts schedule p.
Proof.
  induction schedule as [|e rest IH]; intros p Hd Hm Hinv; [exact I|].
  split; [|apply IH; [exact Hd | exact Hm | apply step_outputs_inv; assumption]].
  destruct e as [now|i|now|]; try exact I.
  destruct (running p !! i) as [f|] eqn:Hr; [|exact I].
  destruct Hinv as (Hfs & Hrun & _). rewrite Hfs. rewrite Forall_forall in Hrun. apply Hrun.
  eapply list_elem_of_lookup_2. exact Hr.
Qed.

Lemma submit_all_outputs_inv game_files st :
  Forall (fun f => Fs.exists_ (fs st) (Pathlib.with_suffix f ".chd") = true) game_files ->
  outputs_inv (fs st) (submit_all game_files st).
Proof.
  intros H. repeat split; cbn; [constructor|].
  generalize 1. induction H as [|f l Hf Hl IH]; intros n; cbn; constructor; [exact Hf | apply IH].
Qed.

End DrainFacts.

(** ** Steps of a move to the backup folder *)

Section BackupJobFacts.

Lemma backup_run_end fuel ok st : backup_run fuel (BackupEnd ok) st = (st, BackupEnd ok).
Proof. induction fuel as [|fuel IH]; [reflexivity|]. cbn. exact IH. Qed.

Lemma backup_run_S fuel j st :
  backup_run (S fuel) j st =
  (let '(st', j') := backup_step j st in backup_run fuel j' st').
Proof. reflexivity. Qed.

(** steps that follow one another do what the loops of
    [move_to_backup_folder] do *)
Lemma backup_run_next d files : forall st k,
  backup_run (2 * length files + 1 + k) (BackupNext d files) st =
  match backup_all d files st with
  | (st', true) => (st', BackupEnd true)
  | (st', false) => (add_log LogBackupError st', BackupEnd false)
  end.
Proof.
  induction files as [|p rest IH]; intros st k.
  - cbn. apply backup_run_end.
  - replace (2 * length (p :: rest) + 1 + k) with (S (S (2 * length rest + 1 + k)))
      by (cbn [length]; lia).
    rewrite backup_run_S. cbn [backup_step backup_all]. unfold backup_one.
    destruct (Fs.exists_ (fs st) p).
    + destruct (Fs.first_free _ _ _ _ _) as [dest|].
      * rewrite backup_run_S. cbn [backup_step].
        destruct (Fs.move (fs st) p dest) as [fs'|]; [apply IH | apply backup_run_end].
      * apply backup_run_end.
    + replace (S (2 * length rest + 1 + k)) with (2 * length rest + 1 + S k) by lia.
      apply IH.
Qed.

Lemma backup_run_alone cue_path st :
  exists n, forall fuel, n <= fuel ->
    backup_run fuel (BackupStart cue_path) st =
    (fst (move_to_backup_folder cue_path st),
     BackupEnd (snd (move_to_backup_folder cue_path st))).
Proof.
  unfold move_to_backup_folder.
  set (d := Pathlib.joinpath (Pathlib.parent cue_path) "original_backup").
  destruct (Fs.mkdir (fs st) d) as [fs'|] eqn:Emk.
  - destruct (parse_cue_file cue_path (with_fs fs' st)) as [st1 bins] eqn:Ep.
    exists (S (2 * length (bins ++ [cue_path]) + 1)). intros fuel Hfuel.
    replace fuel with (S (2 * length (bins ++ [cue_path]) + 1
                          + (fuel - S (2 * length (bins ++ [cue_path]) + 1)))) by lia.
    rewrite backup_run_S. cbn [backup_step]. fold d. rewrite Emk, Ep.
    rewrite backup_run_next.
    destruct (backup_all d (bins ++ [cue_path]) st1) as [st2 [|]]; reflexivity.
  - exists 1. intros fuel Hfuel. destruct fuel as [|fuel]; [lia|].
    rewrite backup_run_S. cbn [backup_step]. fold d. rewrite Emk. apply backup_run_end.
Qed.

End BackupJobFacts.



(** * The claims *)

(** ** C1: postprocessing and skipped jobs *)




(** ** C2: the sidecar resolver *)

(** C2, as stated, fails: the resolver does not return one entry per
    reference.  A reference that resolves to no file is left out. *)
Lemma resolver_omits_missing_reference :
  ~ (forall (cue_path : list string) (content : string) (st : State),
       fs st !! cue_path = Some (File content) ->
       length (snd (parse_cue_file cue_path st)) = length (Cue.findall content)).
Proof.
  intros H.
  specialize (H Demo.game_cue Demo.track_list (Demo.state_of Demo.disc_fs true) eq_refl).
  vm_compute in H. discriminate H.
Qed.

(** C2, amended.  For a track list with [N] references the resolver returns
    the paths of the references that resolve to an existing entry, in the
    order of the references, and logs one warning for each reference that
    does not; the two together are [N].  The file system is left alone, and
    a track list without an output is handed to the converter whatever its
    references resolve to. *)
Theorem parse_cue_file_keeps_existing
    {tools : ExternalTools} (opts : Options) (cue_path : list string)
    (content : string) (st : State) :
  fs st !! cue_path = Some (File content) ->
  let refs := Cue.findall content in
  let cue_dir := Pathlib.parent cue_path in
  let r := parse_cue_file cue_path st in
  snd r = List.filter (Fs.exists_ (fs st)) (map (Pathlib.joinpath cue_dir) refs)
  /\ log (fst r) = log st ++ map LogBinMissing (List.filter (missing (fs st) cue_dir) refs)
  /\ length (snd r) + length (List.filter (missing (fs st) cue_dir) refs) = length refs
  /\ fs (fst r) = fs st
  /\ (Fs.exists_ (fs st) (Pathlib.with_suffix cue_path ".chd") = false ->
      Pathlib.lower_string (Pathlib.suffix cue_path) = ".cue"%string ->
      chdman_calls (fst (convert_to_chd opts cue_path st)) =
      chdman_calls st ++
        [{| tool := chdman_path opts; mode := "createcd"; input := cue_path;
            output := Pathlib.with_suffix cue_path ".chd" |}]).
Proof.
  intros Hfile refs cue_dir r. unfold r, parse_cue_file. rewrite Hfile.
  fold refs. fold cue_dir. rewrite resolve_refs_spec. cbn [fst snd].
  split; [reflexivity|]. split; [apply log_add_logs|]. split; [|split].
  - rewrite <- (filter_split (fun m => Fs.exists_ (fs st) (Pathlib.joinpath cue_dir m)) refs).
    f_equal. clear. induction refs as [|m l IH]; [reflexivity|]. simpl.
    destruct (Fs.exists_ (fs st) (Pathlib.joinpath cue_dir m)); simpl; rewrite IH; reflexivity.
  - apply fs_add_logs.
  - intros Hchd Hsfx. exact (convert_cue_calls opts cue_path content st Hfile Hchd Hsfx).
Qed.

Lemma parse_cue_file_keeps_existing_witness :
  let r := parse_cue_file Demo.game_cue (Demo.state_of Demo.disc_fs true) in
  snd r = [Demo.roms ++ ["Track 1.bin"%string]; Demo.roms ++ ["Track 2.bin"%string]]
  /\ log (fst r) = [LogBinMissing "Track 3.bin"]
  /\ chdman_calls (fst (convert_to_chd (tools := Demo.ideal)
                          (Demo.options false false true true 2) Demo.game_cue
                          (Demo.state_of Demo.disc_fs true)))
     = [{| tool := "chdman"; mode := "createcd"; input := Demo.game_cue;
           output := Demo.roms ++ ["Game.chd"%string] |}].
Proof.
  destruct (parse_cue_file_keeps_existing (tools := Demo.ideal)
              (Demo.options false false true true 2) Demo.game_cue Demo.track_list
              (Demo.state_of Demo.disc_fs true) eq_refl)
    as (H1 & H2 & _ & _ & H5).
  split; [rewrite H1; vm_compute; reflexivity|].
  split; [rewrite H2; vm_compute; reflexivity|].
  rewrite H5 by (vm_compute; reflexivity). vm_compute. reflexivity.
Defined.

(** ** C3: jobs whose output exists *)

(** C3.  A job whose output path exists when it converts returns success at
    once and the converter is not called.  So in a run that is not stopped
    and in which every job finds its output present when it converts, no
    converter call is made, no job fails, every finished job has succeeded,
    and the jobs counted, finished, running and pending are the [K] jobs
    submitted; when the run has ended, [K] jobs have succeeded.  With a
    worker in the pool every run can be continued to its end, and a run
    that is continued so, not stopped, in which every job finds its output
    present, ends with [K] successes and no converter call.  Without
    postprocessing, [K] files whose outputs are present find them present
    whatever the schedule, so that this holds of every run that is not
    stopped. *)
Theorem already_converted_skipped
    {tools : ExternalTools} (opts : Options) (game_files : list (list string))
    (st : State) :
  is_converting st = true ->
  let p0 := submit_all game_files st in
  (forall (path : list string) (st1 : State),
     Fs.exists_ (fs st1) (Pathlib.with_suffix path ".chd") = true ->
     convert_to_chd opts path st1 =
       (add_log (LogChdExists (Pathlib.name (Pathlib.with_suffix path ".chd"))) st1,
        Return true)
     /\ snd (process_body opts path st1) = Return (Some true)
     /\ chdman_calls (fst (process_body opts path st1)) = chdman_calls st1)
  /\ (forall schedule : list Event,
        ~ In Stop schedule -> outputs_exist opts schedule p0 ->
        let p := exec opts schedule p0 in
        chdman_calls (app p) = chdman_calls st
        /\ failed p = 0
        /\ Forall (fun x => snd x = Return (Some true)) (finished p)
        /\ successful p + length (finished p) + length (running p) + length (pending p)
           = length game_files
        /\ (quiescent p = true -> successful p = length game_files))
  /\ (1 <= cpu_cores opts ->
      forall schedule : list Event,
        let rest := drain (exec opts schedule p0) in
        ~ In Stop rest /\ quiescent (exec opts (schedule ++ rest) p0) = true)
  /\ (1 <= cpu_cores opts ->
      forall schedule : list Event,
        ~ In Stop schedule ->
        outputs_exist opts (schedule ++ drain (exec opts schedule p0)) p0 ->
        let p := exec opts (schedule ++ drain (exec opts schedule p0)) p0 in
        quiescent p = true
        /\ successful p = length game_files
        /\ failed p = 0
        /\ chdman_calls (app p) = chdman_calls st)
  /\ (delete_originals opts = false -> move_to_backup opts = false ->
      Forall (fun f => Fs.exists_ (fs st) (Pathlib.with_suffix f ".chd") = true) game_files ->
      (forall schedule : list Event, outputs_exist opts schedule p0)
      /\ (1 <= cpu_cores opts ->
          forall schedule : list Event, ~ In Stop schedule ->
            let p := exec opts (schedule ++ drain (exec opts schedule p0)) p0 in
            quiescent p = true
            /\ successful p = length game_files
            /\ failed p = 0
            /\ chdman_calls (app p) = chdman_calls st)).
Proof.
  intros Hconv p0.
  assert (forall schedule : list Event,
            ~ In Stop schedule -> outputs_exist opts schedule p0 ->
            let p := exec opts schedule p0 in
            chdman_calls (app p) = chdman_calls st
            /\ failed p = 0
            /\ Forall (fun x => snd x = Return (Some true)) (finished p)
            /\ successful p + length (finished p) + length (running p)
               + length (pending p) = length game_files
            /\ (quiescent p = true -> successful p = length game_files)) as Hsafe.
  { intros schedule Hstop Hout.
    pose proof (exec_skip_inv opts _ _ schedule _
                  (submit_all_skip_inv game_files st Hconv) Hstop Hout) as Hinv.
    pose proof (skip_inv_quiescent _ _ _ Hinv) as Hq.
    destruct Hinv as (_ & H2 & H3 & H4 & H5 & _). cbn zeta. auto 10. }
  assert (1 <= cpu_cores opts ->
          forall schedule : list Event,
            let rest := drain (exec opts schedule p0) in
            ~ In Stop rest /\ quiescent (exec opts (schedule ++ rest) p0) = true) as Hlive.
  { intros Hc schedule rest. split; [apply drain_no_stop|].
    rewrite exec_app. apply drain_quiescent, Hc. }
  split.
  { intros path st1 Hchd. split; [exact (convert_to_chd_skip opts path st1 Hchd)|].
    rewrite (process_body_skip opts path st1 Hchd). cbn [fst snd].
    split; [reflexivity|].
    pose proof (postprocess_control opts path
      (add_log (LogChdExists (Pathlib.name (Pathlib.with_suffix path ".chd"))) st1)) as Hc.
    apply control_fields in Hc. destruct Hc as (_ & Hc & _). exact Hc. }
  assert (1 <= cpu_cores opts ->
          forall schedule : list Event,
            ~ In Stop schedule ->
            outputs_exist opts (schedule ++ drain (exec opts schedule p0)) p0 ->
            let p := exec opts (schedule ++ drain (exec opts schedule p0)) p0 in
            quiescent p = true
            /\ successful p = length game_files
            /\ failed p = 0
            /\ chdman_calls (app p) = chdman_calls st) as Hend.
  { intros Hc schedule Hstop Hout.
    destruct (Hlive Hc schedule) as [Hrest Hq].
    destruct (Hsafe (schedule ++ drain (exec opts schedule p0))) as (H1 & H2 & _ & _ & H5).
    { intros H. apply in_app_or in H. destruct H as [H|H]; [exact (Hstop H) | exact (Hrest H)]. }
    { exact Hout. }
    cbn zeta. auto. }
  split; [exact Hsafe|]. split; [exact Hlive|]. split; [exact Hend|].
  intros Hd Hm Hall.
  assert (forall schedule : list Event, outputs_exist opts schedule p0) as Hout.
  { intros schedule. apply (outputs_inv_exist opts (fs st)); [exact Hd | exact Hm|].
    apply submit_all_outputs_inv, Hall. }
  split; [exact Hout|].
  intros Hc schedule Hstop. apply (Hend Hc schedule Hstop), Hout.
Qed.

Lemma already_converted_skipped_witness :
  (let p0 := submit_all [Demo.game_cue; Demo.other_iso]
               (Demo.state_of Demo.converted_fs true) in
   let p := exec (tools := Demo.ideal) (Demo.options true false true true 2)
              ([Dispatch 1; Dispatch 2; Finish 1]
               ++ drain (exec (tools := Demo.ideal) (Demo.options true false true true 2)
                           [Dispatch 1; Dispatch 2; Finish 1] p0)) p0 in
   quiescent p = true /\ chdman_calls (app p) = [] /\ failed p = 0 /\ successful p = 2)
  /\ (let p0 := submit_all [Demo.game_cue; Demo.other_iso]
                  (Demo.state_of Demo.converted_fs true) in
      let p := exec (tools := Demo.ideal) (Demo.options false false true true 2)
                 ([Dispatch 1] ++ drain (exec (tools := Demo.ideal)
                                           (Demo.options false false true true 2)
                                           [Dispatch 1] p0)) p0 in
      quiescent p = true /\ successful p = 2 /\ chdman_calls (app p) = []).
Proof.
  split.
  - destruct (already_converted_skipped (tools := Demo.ideal)
                (Demo.options true false true true 2) [Demo.game_cue; Demo.other_iso]
                (Demo.state_of Demo.converted_fs true) eq_refl) as (_ & _ & _ & H & _).
    destruct (H ltac:(simpl; lia) [Dispatch 1; Dispatch 2; Finish 1])
      as (H1 & H2 & H3 & H4).
    + simpl. intuition discriminate.
    + vm_compute. tauto.
    + split; [exact H1|]. split; [exact H4|]. split; [exact H3 | exact H2].
  - destruct (already_converted_skipped (tools := Demo.ideal)
                (Demo.options false false true true 2) [Demo.game_cue; Demo.other_iso]
                (Demo.state_of Demo.converted_fs true) eq_refl) as (_ & _ & _ & _ & H).
    destruct H as [_ H]; [reflexivity | reflexivity | |].
    + repeat constructor.
    + destruct (H ltac:(simpl; lia) [Dispatch 1]) as (H1 & H2 & _ & H4).
      * simpl. intuition discriminate.
      * split; [exact H1|]. split; [exact H2 | exact H4].
Defined.

(** ** C4: the name cleaning transform *)

(** C4, as stated, fails: cleaning twice is not always cleaning once.  An
    unclosed parenthesis that the first pass keeps takes the disc tag with
    it in the second. *)
Lemma clean_game_name_not_idempotent :
  ~ (forall x : string, clean_game_name (clean_game_name x) = clean_game_name x).
Proof.
  intros H. specialize (H "Game (Disc 1) (USA"%string).
  vm_compute in H. discriminate H.
Qed.

(** C4, amended.  The file name [Game (USA) (Rev 1) [!] (Disc 2).chd] is
    renamed to [Game (Disc 2).chd] (the transform cleans the stem and the
    extension is put back), and cleaning twice is cleaning once for every
    name without a disc tag and for every name whose cleaned base keeps no
    opening parenthesis. *)
Theorem clean_game_name_twice (x : string) :
  Text.search_disc (Text.of_string x) = None
  \/ ~ In "("%char (clean_base (Text.of_string x)) ->
  new_name true ["Game (USA) (Rev 1) [!] (Disc 2).chd"%string] = "Game (Disc 2).chd"%string
  /\ clean_game_name (clean_game_name x) = clean_game_name x.
Proof.
  intros H. split; [vm_compute; reflexivity|].
  unfold clean_game_name. rewrite Collide.of_to_string.
  rewrite clean_game_text_twice by exact H. reflexivity.
Qed.

Lemma clean_game_name_twice_witness :
  clean_game_name (clean_game_name "Game (USA) (Rev 1) [!] (Disc 2)")
  = clean_game_name "Game (USA) (Rev 1) [!] (Disc 2)".
Proof.
  apply (clean_game_name_twice "Game (USA) (Rev 1) [!] (Disc 2)").
  right. vm_compute. intuition discriminate.
Defined.

(** ** C5: conflicting options *)

(** C5.  With delete-originals and move-to-backup both on, a click on the
    start button starts nothing: no thread is started, and files, converter
    calls, extraction calls, log and running flag are as before; only a
    warning is shown. *)
Theorem conflicting_options_refused
    {tools : ExternalTools} (opts : Options) (confirm : bool)
    (schedule : list Event) (st : State) :
  delete_originals opts = true -> move_to_backup opts = true ->
  snd (start_conversion opts confirm st) = false
  /\ let st' := run_request opts confirm schedule st in
     fs st' = fs st /\ chdman_calls st' = chdman_calls st
     /\ extract_calls st' = extract_calls st /\ log st' = log st
     /\ is_converting st' = is_converting st
     /\ total_jobs st' = total_jobs st
     /\ (dialogs st' = dialogs st ++ [WarnInvalidDirectory]
         \/ dialogs st' = dialogs st ++ [WarnConflictingOptions]).
Proof.
  intros Hd Hm. unfold run_request, start_conversion. rewrite Hd, Hm.
  destruct (source_dir opts) as [dir|]; [|cbn; auto 10].
  destruct (negb (Fs.isdir (fs st) dir)); cbn; auto 10.
Qed.

Lemma conflicting_options_refused_witness :
  let st' := run_request (tools := Demo.ideal) (Demo.options true true true true 2) true
               [Dispatch 1; Finish 0; Collect 2] (Demo.state_of Demo.disc_fs false) in
  fs st' = Demo.disc_fs /\ chdman_calls st' = [] /\ extract_calls st' = [].
Proof.
  destruct (conflicting_options_refused (tools := Demo.ideal)
              (Demo.options true true true true 2) true
              [Dispatch 1; Finish 0; Collect 2] (Demo.state_of Demo.disc_fs false)
              eq_refl eq_refl) as (_ & H1 & H2 & H3 & _).
  split; [exact H1|]. split; [exact H2 | exact H3].
Defined.

(** ** C6: cancellation *)

(** C6, as stated, fails: the tally does not count exactly the dispatched
    jobs.  A job that was dispatched before the stop and ends after it is
    not counted: the loop over the finished jobs ends at the first job it
    receives after the stop. *)
Lemma dispatched_job_left_out_of_tally :
  ~ (forall (tools : ExternalTools) (opts : Options) (game_files : list (list string))
            (schedule : list Event) (st : State),
       let p := exec opts schedule (submit_all game_files st) in
       quiescent p = true -> successful p + failed p = length (started p)).
Proof.
  intros H.
  specialize (H Demo.ideal (Demo.options false false false true 1) [Demo.other_iso]
                [Dispatch 1; Stop; Finish 0; Collect 2]
                (Demo.state_of Demo.disc_fs true) eq_refl).
  vm_compute in H. discriminate H.
Qed.

(** C6, amended.  Once the stop is requested no further job is started and
    the tally stands: the jobs counted are those collected before the stop,
    each of them a job that was started, and each counted once as succeeded
    or failed.  A job not yet started at the stop is never started, the
    converter is not called for it (the calls made after the stop are for
    jobs that were running at the stop), and it is counted neither as
    succeeded nor as failed. *)
Theorem cancellation_freezes_tally
    {tools : ExternalTools} (opts : Options) (game_files : list (list string))
    (before after : list Event) (st : State) :
  let p1 := exec opts before (submit_all game_files st) in
  let p2 := exec opts (Stop :: after) p1 in
  started p2 = started p1
  /\ counted p2 = counted p1
  /\ successful p2 = successful p1 /\ failed p2 = failed p1
  /\ (forall f, In f (counted p2) -> In f (started p1))
  /\ successful p2 + failed p2 = length (counted p2)
  /\ (forall c, In c (chdman_calls (app p2)) ->
        In c (chdman_calls (app p1)) \/ In (input c) (running p1)).
Proof.
  intros p1 p2.
  destruct (exec_tally_inv opts before _ (submit_all_tally_inv game_files st))
    as (_ & _ & Hcnt & Hsum). fold p1 in Hcnt, Hsum.
  destruct (exec_stopped opts after (stop p1) eq_refl) as (_ & H1 & H2 & H3 & H4).
  change (started p2 = started p1) in H1. change (counted p2 = counted p1) in H2.
  change (successful p2 = successful p1) in H3. change (failed p2 = failed p1) in H4.
  destruct (exec_calls_within opts (chdman_calls (app p1)) (running p1) after (stop p1) eq_refl)
    as [Hcalls _].
  { split; cbn; auto. }
  rewrite H1, H2, H3, H4. repeat split; auto.
Qed.

(** ** C7: name collisions *)





(** ** C8: the scanner *)

(** C8.  The scanner returns the entries below the root (directly below it
    when the scan is not recursive) whose names end in [.cue] or [.iso], for
    the kinds that are on and no others, each once, sorted by path; with no
    kind on it returns the empty list. *)
Theorem find_game_files_sorted
    (opts : Options) (f : gmap (list string) entry) (dir : list string) (rec : bool) :
  StronglySorted Pathlib.path_le (find_game_files opts f dir rec)
  /\ List.NoDup (find_game_files opts f dir rec)
  /\ (forall p, In p (find_game_files opts f dir rec) <-> is_game_file opts f dir rec p)
  /\ (process_ps1_cues opts = false -> process_ps2_isos opts = false ->
      find_game_files opts f dir rec = []).
Proof. apply find_game_files_spec. Qed.

Lemma find_game_files_sorted_witness :
  find_game_files (Demo.options false false false false 2) Demo.disc_fs Demo.roms true = []
  /\ find_game_files (Demo.options false false true true 2) Demo.disc_fs Demo.roms true
     = [Demo.game_cue; Demo.other_iso].
Proof.
  split.
  - apply (find_game_files_sorted (Demo.options false false false false 2)
             Demo.disc_fs Demo.roms true); reflexivity.
  - vm_compute. reflexivity.
Defined.

(** ** C9: the estimate of the remaining time *)

(** for a state with samples and a mean that is not zero *)
Lemma eta_of_samples (opts : Options) (st : State) :
  file_durations st <> [] ->
  ~ (mean (file_durations st) == 0)%Q ->
  overall_eta opts st =
  Some (mean (file_durations st)
        * (inject_Z (Z.max (Z.of_nat (total_jobs st) - Z.of_nat (completed_jobs st)) 0)
           / inject_Z (Z.max (Z.of_nat (cpu_cores opts)) 1)))%Q.
Proof.
  intros Hne Hmean.
  assert (avg_time st = mean (file_durations st)) as Havg.
  { unfold avg_time. destruct (file_durations st); [contradiction | reflexivity]. }
  unfold overall_eta, remaining. rewrite Havg.
  destruct (Qeq_bool (mean (file_durations st)) 0) eqn:E; [|reflexivity].
  apply Qeq_bool_iff in E. contradiction.
Qed.

(** C9, as stated, fails: a completed job whose recorded duration is zero
    (start and end read the same clock value) gives a zero mean, and then
    the sampler gives no estimate, where the formula gives zero. *)
Lemma zero_mean_gives_no_estimate :
  ~ (forall (tools : ExternalTools) (opts : Options) (game_files : list (list string))
            (schedule : list Event) (st : State),
       completed_jobs st = 0 -> file_durations st = [] ->
       (forall now, In (Dispatch now) schedule -> ~ (now == 0)%Q) ->
       let tick := app (exec opts schedule (submit_all game_files st)) in
       1 <= completed_jobs tick ->
       exists eta, overall_eta opts tick = Some eta).
Proof.
  intros H.
  destruct (H Demo.ideal (Demo.options false false true true 4) [Demo.other_iso]
              [Dispatch 7; Finish 0; Collect 7] (Demo.state_of Demo.disc_fs true)
              eq_refl eq_refl) as [eta Heta].
  - intros now [[= <-]|[[=]|[[=]|[]]]]. discriminate.
  - vm_compute. lia.
  - vm_compute in Heta. discriminate Heta.
Qed.

(** C9, amended.  During a run in which every start time read from the clock
    is not zero, the recorded durations are as many as the completed jobs,
    at every tick.  At a tick with at least one completed job the mean the
    sampler uses is the mean of the recorded durations; when it is not
    zero, the estimate is that mean times the jobs remaining (total minus
    completed, not below zero) divided by the number of processing units
    (at least one); when it is zero there is no estimate.  Before the first
    completed job there is no estimate either. *)
Theorem eta_is_mean_times_remaining
    {tools : ExternalTools} (opts : Options) (game_files : list (list string))
    (schedule : list Event) (st : State) :
  completed_jobs st = 0 -> file_durations st = [] ->
  (forall now, In (Dispatch now) schedule -> ~ (now == 0)%Q) ->
  let tick := app (exec opts schedule (submit_all game_files st)) in
  length (file_durations tick) = completed_jobs tick
  /\ (1 <= completed_jobs tick -> avg_time tick = mean (file_durations tick))
  /\ (1 <= completed_jobs tick ->
      ~ (mean (file_durations tick) == 0)%Q ->
      overall_eta opts tick =
      Some (mean (file_durations tick)
            * (inject_Z (Z.max (Z.of_nat (total_jobs tick) - Z.of_nat (completed_jobs tick)) 0)
               / inject_Z (Z.max (Z.of_nat (cpu_cores opts)) 1)))%Q)
  /\ (1 <= completed_jobs tick ->
      (mean (file_durations tick) == 0)%Q -> overall_eta opts tick = None)
  /\ (completed_jobs tick = 0 -> overall_eta opts tick = None)
  /\ (metrics_running tick = true ->
      update_metrics opts tick =
      Some (completed_jobs tick, total_jobs tick, avg_time tick, overall_eta opts tick)).
Proof.
  intros Hc Hd Hclock tick.
  destruct (exec_sampler_inv opts schedule _ (submit_all_sampler_inv game_files st Hc Hd))
    as (Hdone & Hlen & _).
  { intros now Hin. destruct (Qeq_bool now 0) eqn:E; [|reflexivity].
    apply Qeq_bool_iff in E. destruct (Hclock now Hin E). }
  fold tick in Hdone, Hlen.
  assert (1 <= completed_jobs tick -> file_durations tick <> []) as Hne.
  { intros Hone E. rewrite E in Hlen. simpl in Hlen. lia. }
  assert (1 <= completed_jobs tick -> avg_time tick = mean (file_durations tick)) as Havg.
  { intros Hone. unfold avg_time. specialize (Hne Hone).
    destruct (file_durations tick); [contradiction | reflexivity]. }
  split; [congruence|]. split; [exact Havg|]. split; [|split; [|split]].
  - intros Hone Hmean. exact (eta_of_samples opts tick (Hne Hone) Hmean).
  - intros Hone Hmean. unfold overall_eta. rewrite (Havg Hone).
    apply Qeq_bool_iff in Hmean. rewrite Hmean. reflexivity.
  - intros Hzero. unfold overall_eta, avg_time.
    destruct (file_durations tick) as [|d l]; [reflexivity|].
    cbn in Hlen. lia.
  - intros Hrun. unfold update_metrics. rewrite Hrun. reflexivity.
Qed.

Lemma eta_is_mean_times_remaining_witness :
  let tick := app (exec (tools := Demo.ideal) (Demo.options false false true true 2)
                     [Dispatch 1; Dispatch 2; Finish 0; Collect 4]
                     (submit_all [Demo.game_cue; Demo.other_iso]
                        (with_metrics ∅ [] 2 0 true (Demo.state_of Demo.disc_fs true)))) in
  exists eta, overall_eta (Demo.options false false true true 2) tick = Some eta
              /\ (eta == 3 # 2)%Q.
Proof.
  destruct (eta_is_mean_times_remaining (tools := Demo.ideal)
              (Demo.options false false true true 2) [Demo.game_cue; Demo.other_iso]
              [Dispatch 1; Dispatch 2; Finish 0; Collect 4]
              (with_metrics ∅ [] 2 0 true (Demo.state_of Demo.disc_fs true))
              eq_refl eq_refl) as (_ & _ & H & _).
  - intros now [[= <-]|[[= <-]|[[=]|[[=]|[]]]]]; discriminate.
  - eexists. split; [apply H|].
    + vm_compute. lia.
    + vm_compute. discriminate.
    + vm_compute. reflexivity.
Defined.

(** ** C10: archives found twice *)

(** C10.  A file in the scanned directory whose name ends in [.tar.gz] is in
    the result of the search for compressed files at least twice (it
    matches the patterns for [.gz] and for [.tar.gz]), and the extraction
    stage hands it to the extractor as often as it was found. *)
Theorem tar_gz_extracted_twice
    {tools : ExternalTools} (opts : Options) (dir : list string) (rec : bool)
    (nm : string) (e : entry) (st : State) :
  fs st !! (dir ++ [nm]) = Some e ->
  Pathlib.endswith nm ".tar.gz" = true ->
  2 <= count_occ path_eq_dec (find_compressed_files (fs st) dir rec) (dir ++ [nm])
  /\ exists attempts,
       extract_calls (fst (extract_all_archives opts dir rec st))
       = extract_calls st ++ attempts
       /\ 2 <= count_occ path_eq_dec attempts (dir ++ [nm]).
Proof.
  intros Hf Hnm. pose proof (find_compressed_twice (fs st) dir rec nm e Hf Hnm) as H.
  split; [exact H|]. exists (find_compressed_files (fs st) dir rec).
  split; [apply extract_all_archives_calls | exact H].
Qed.

Lemma tar_gz_extracted_twice_witness :
  find_compressed_files Demo.disc_fs Demo.roms true = [Demo.pack; Demo.pack]
  /\ 2 <= count_occ path_eq_dec
            (extract_calls (fst (extract_all_archives (tools := Demo.ideal)
                                   (Demo.options false false true true 2) Demo.roms true
                                   (Demo.state_of Demo.disc_fs true))))
            Demo.pack.
Proof.
  destruct (tar_gz_extracted_twice (tools := Demo.ideal)
              (Demo.options false false true true 2) Demo.roms true
              "pack.tar.gz" (File "tgz") (Demo.state_of Demo.disc_fs true))
    as (_ & attempts & H1 & H2); [reflexivity | reflexivity |].
  split; [vm_compute; reflexivity|]. rewrite H1. exact H2.
Defined.

(** * Further properties *)

Section PoolMore.
Context {tools : ExternalTools}.
Variable opts : Options.

Lemma process_body_calls_exact f st :
  chdman_calls (fst (process_body opts f st)) = chdman_calls st
  \/ exists c, input c = f
       /\ chdman_calls (fst (process_body opts f st)) = chdman_calls st ++ [c].
Proof.
  unfold process_body.
  pose proof (convert_to_chd_calls opts f st) as H.
  destruct (convert_to_chd opts f st) as [st1 [[|]|]]; cbn [fst] in *; try exact H.
  pose proof (postprocess_control opts f st1) as Hc. apply control_fields in Hc.
  destruct Hc as (_ & -> & _). exact H.
Qed.

Lemma step_account_inv p e : account_inv p -> e <> Stop -> account_inv (step opts p e).
Proof.
  intros Hinv Hne. pose proof Hinv as (Hc & Hcol & Hfin & Hsum & Hle).
  destruct e as [now|i|now|]; cbn [step]; [| | |contradiction].
  - unfold dispatch. destruct (length (running p) <? cpu_cores opts); [|exact Hinv].
    destruct (pending p) as [|[n f] rest] eqn:Hp; [exact Hinv|].
    destruct (process_begin_converting f n (total p) now (app p) Hc) as (st' & -> & Hc' & _).
    repeat split; cbn; try assumption.
    rewrite length_app. cbn in Hsum |- *. lia.
  - unfold finish. destruct (running p !! i) as [f|] eqn:Hr; [|exact Hinv].
    pose proof (process_body_outcome opts f (app p)) as Hout.
    pose proof (process_body_converting opts f (app p)) as Hb.
    destruct (process_body opts f (app p)) as [st out]. cbn in Hout, Hb.
    repeat split; cbn; try assumption.
    + congruence.
    + apply Forall_app. split; [exact Hfin|]. constructor; [exact Hout | constructor].
    + rewrite length_app, length_delete by (rewrite Hr; eauto). cbn.
      apply lookup_lt_Some in Hr. lia.
  - unfold collect. rewrite Hcol.
    destruct (finished p) as [|[f out] rest] eqn:Hf; [exact Hinv|].
    rewrite Hc. cbn [negb].
    pose proof (Forall_inv Hfin) as Hhd. pose proof (Forall_inv_tail Hfin) as Htl.
    cbn in Hhd, Hsum.
    destruct out as [[result|]|]; [| contradiction |].
    + repeat split; cbn; try assumption; destruct result; lia.
    + repeat split; cbn; try assumption; lia.
Qed.

Lemma exec_account_inv schedule p :
  account_inv p -> ~ In Stop schedule -> account_inv (exec opts schedule p).
Proof.
  revert p. induction schedule as [|e rest IH]; intros p H Hs; [exact H|].
  cbn [exec fold_left]. apply IH.
  - apply step_account_inv; [exact H|]. intros ->. apply Hs. left. reflexivity.
  - intros Hin. apply Hs. right. exact Hin.
Qed.

Lemma submit_all_account_inv game_files st :
  is_converting st = true -> account_inv (submit_all game_files st).
Proof.
  intros H. repeat split; cbn; [exact H | constructor | | lia].
  rewrite length_combine, length_seq. lia.
Qed.

(** *** Progress *)

Lemma step_progress_inv p e : progress_inv p -> progress_inv (step opts p e).
Proof.
  intros Hinv. pose proof Hinv as (Hdone & Htot & Hle).
  destruct e as [now|i|now|]; cbn [step].
  - unfold dispatch. destruct (length (running p) <? cpu_cores opts); [|exact Hinv].
    destruct (pending p) as [|[n f] rest] eqn:Hp; [exact Hinv|].
    unfold process_begin. destruct (negb (is_converting (app p))).
    + repeat split; cbn; try assumption. rewrite length_app. cbn in Hle |- *. lia.
    + repeat split; cbn; try assumption. rewrite length_app. cbn in Hle |- *. lia.
  - unfold finish. destruct (running p !! i) as [f|] eqn:Hr; [|exact Hinv].
    pose proof (process_body_sampler opts f (app p)) as Hs.
    destruct (process_body opts f (app p)) as [st out]. cbn in Hs.
    assert (completed_jobs st = completed_jobs (app p)
            /\ total_jobs st = total_jobs (app p)) as [H1 H2].
    { unfold sampler in Hs. injection Hs as _ _ _ H2 H1 _. split; assumption. }
    repeat split; cbn; try congruence.
    rewrite length_app, length_delete by (rewrite Hr; eauto). cbn.
    apply lookup_lt_Some in Hr. lia.
  - unfold collect. destruct (collecting p); [|exact Hinv].
    destruct (finished p) as [|[f out] rest] eqn:Hf; [exact Hinv|].
    cbn in Hle.
    destruct (negb (is_converting (app p))).
    { repeat split; cbn; try assumption. lia. }
    destruct out as [[result|]|]; repeat split; cbn; try assumption; lia.
  - exact Hinv.
Qed.

Lemma exec_progress_inv schedule p : progress_inv p -> progress_inv (exec opts schedule p).
Proof.
  revert p. induction schedule as [|e rest IH]; intros p H; [exact H|].
  cbn [exec fold_left]. apply IH, step_progress_inv, H.
Qed.

End PoolMore.

Section PoolOnce.
Context {tools : ExternalTools}.
Variable opts : Options.

Lemma step_total p e : total (step opts p e) = total p.
Proof.
  destruct e as [now|i|now|]; cbn [step]; [| | |reflexivity].
  - unfold dispatch. destruct (length (running p) <? cpu_cores opts); [|reflexivity].
    destruct (pending p) as [|[n f] rest]; [reflexivity|].
    destruct (process_begin f n (total p) now (app p)); reflexivity.
  - unfold finish. destruct (running p !! i); [|reflexivity].
    destruct (process_body opts l (app p)). reflexivity.
  - unfold collect. destruct (collecting p); [|reflexivity].
    destruct (finished p) as [|[f out] rest]; [reflexivity|].
    destruct (negb (is_converting (app p))); [reflexivity|].
    destruct out as [[result|]|]; reflexivity.
Qed.

Lemma exec_total schedule p : total (exec opts schedule p) = total p.
Proof.
  revert p. induction schedule as [|e rest IH]; intros p; [reflexivity|].
  cbn [exec fold_left]. etransitivity; [apply IH | apply step_total].
Qed.

Lemma step_once_inv c0 jobs p e : once_inv c0 jobs p -> once_inv c0 jobs (step opts p e).
Proof.
  intros Hinv. pose proof Hinv as (calls & Hcalls & Hnd & Hin).
  destruct e as [now|i|now|]; cbn [step].
  - unfold dispatch. destruct (length (running p) <? cpu_cores opts); [|exact Hinv].
    destruct (pending p) as [|[n f] rest] eqn:Hp; [exact Hinv|].
    cbn [map snd] in Hnd, Hin.
    unfold process_begin. destruct (negb (is_converting (app p))).
    + exists calls. cbn. split; [exact Hcalls|].
      rewrite app_assoc in Hnd. rewrite app_assoc. split.
      * exact (NoDup_remove_1 _ _ _ Hnd).
      * intros g Hg. apply Hin. rewrite app_assoc.
        apply in_app_or in Hg. apply in_or_app.
        destruct Hg as [Hg|Hg]; [left; exact Hg | right; right; exact Hg].
    + exists calls. cbn. split; [exact Hcalls|].
      rewrite <- app_assoc. cbn. split; assumption.
  - unfold finish. destruct (running p !! i) as [f|] eqn:Hr; [|exact Hinv].
    pose proof (process_body_calls_exact opts f (app p)) as Hb.
    destruct (process_body opts f (app p)) as [st out]. cbn [fst] in Hb.
    assert (Permutation (map input calls ++ running p ++ map snd (pending p))
              (f :: map input calls ++ delete i (running p) ++ map snd (pending p))) as Hperm.
    { rewrite (delete_Permutation (running p) i f Hr) at 1. cbn.
      symmetry. apply Permutation_middle. }
    pose proof (Permutation_NoDup Hperm Hnd) as Hnd'.
    assert (forall g, In g (f :: map input calls ++ delete i (running p) ++ map snd (pending p))
                      -> In g jobs) as Hin'.
    { intros g Hg. apply Hin. eapply Permutation_in; [symmetry; exact Hperm | exact Hg]. }
    destruct Hb as [Hb|(c & Hc & Hb)].
    + exists calls. cbn. split; [congruence|]. split.
      * apply NoDup_cons_iff in Hnd'. tauto.
      * intros g Hg. apply Hin'. right. exact Hg.
    + exists (calls ++ [c]). cbn. split; [rewrite Hb, Hcalls, app_assoc; reflexivity|].
      rewrite map_app. cbn [map]. rewrite Hc, <- app_assoc. cbn.
      split.
      * eapply Permutation_NoDup; [apply Permutation_middle | exact Hnd'].
      * intros g Hg. apply Hin'.
        eapply Permutation_in; [symmetry; apply Permutation_middle | exact Hg].
  - unfold collect. destruct (collecting p); [|exact Hinv].
    destruct (finished p) as [|[f out] rest] eqn:Hf; [exact Hinv|].
    destruct (negb (is_converting (app p))).
    { exists calls. cbn. split; [exact Hcalls|].
      assert (forall g, In g (map input calls ++ running p ++ [])
                        -> In g (map input calls ++ running p ++ map snd (pending p))) as Hsub.
      { intros g Hg. rewrite app_nil_r in Hg. apply in_app_or in Hg. apply in_or_app.
        destruct Hg as [Hg|Hg]; [left; exact Hg | right; apply in_or_app; left; exact Hg]. }
      split; [|intros g Hg; apply Hin, Hsub, Hg].
      rewrite app_nil_r. rewrite app_assoc in Hnd. exact (NoDup_app_remove_r _ _ Hnd). }
    destruct out as [[result|]|]; exists calls; cbn; split; try split; assumption.
  - exact Hinv.
Qed.

Lemma exec_once_inv c0 jobs schedule p :
  once_inv c0 jobs p -> once_inv c0 jobs (exec opts schedule p).
Proof.
  revert p. induction schedule as [|e rest IH]; intros p H; [exact H|].
  cbn [exec fold_left]. apply IH, step_once_inv, H.
Qed.

Lemma submit_all_once_inv game_files st :
  List.NoDup game_files -> once_inv (chdman_calls st) game_files (submit_all game_files st).
Proof.
  intros Hnd. exists []. cbn.
  assert (map snd (combine (seq 1 (length game_files)) game_files) = game_files) as ->.
  { generalize 1. induction game_files as [|g l IH]; intros k; [reflexivity|].
    cbn. f_equal. apply IH. inversion Hnd; assumption. }
  split; [rewrite app_nil_r; reflexivity|]. split; [exact Hnd | tauto].
Qed.

(** *** A stopped pool without a running job *)

Lemma step_idle_inv f0 c0 x0 p e :
  idle_inv f0 c0 x0 p ->
  idle_inv f0 c0 x0 (step opts p e) /\ started (step opts p e) = started p.
Proof.
  intros Hinv. pose proof Hinv as (Hc & Hrun & Hfs & Hcalls & Hx).
  destruct e as [now|i|now|]; cbn [step].
  - unfold dispatch. destruct (length (running p) <? cpu_cores opts); [|split; [exact Hinv | reflexivity]].
    destruct (pending p) as [|[n f] rest] eqn:Hp; [split; [exact Hinv | reflexivity]|].
    rewrite (process_begin_stopped _ _ _ _ _ Hc). split; [|reflexivity].
    repeat split; assumption.
  - unfold finish. rewrite Hrun. cbn. split; [exact Hinv | reflexivity].
  - unfold collect. destruct (collecting p); [|split; [exact Hinv | reflexivity]].
    destruct (finished p) as [|[f out] rest] eqn:Hf; [split; [exact Hinv | reflexivity]|].
    rewrite Hc. cbn [negb]. split; [|reflexivity]. repeat split; assumption.
  - split; [|reflexivity]. repeat split; assumption.
Qed.

Lemma exec_idle_inv f0 c0 x0 schedule p :
  idle_inv f0 c0 x0 p ->
  idle_inv f0 c0 x0 (exec opts schedule p) /\ started (exec opts schedule p) = started p.
Proof.
  revert p. induction schedule as [|e rest IH]; intros p H; [split; [exact H | reflexivity]|].
  cbn [exec fold_left]. destruct (step_idle_inv f0 c0 x0 p e H) as [H1 H2].
  destruct (IH _ H1) as [G1 G2]. split; [exact G1|]. unfold exec in G2. congruence.
Qed.

End PoolOnce.

Section StopEarly.
Context {tools : ExternalTools}.
Variable opts : Options.

(** the extraction does not read the flag that the stop button clears *)
Lemma run_decoder_flag d label a folder b st :
  run_decoder d label a folder (with_converting b st) =
  (with_converting b (fst (run_decoder d label a folder st)),
   snd (run_decoder d label a folder st)).
Proof.
  unfold run_decoder. cbn [fs add_log with_converting].
  destruct (unpack d a folder (fs st)); reflexivity.
Qed.

Lemma extract_archive_flag a b st :
  extract_archive opts a (with_converting b st) =
  (with_converting b (fst (extract_archive opts a st)), snd (extract_archive opts a st)).
Proof.
  unfold extract_archive. cbn [fs record_extract with_converting].
  destruct (Fs.mkdir (fs st) (extract_folder a)) as [f'|]; [|reflexivity].
  assert (forall d label,
            run_decoder d label a (extract_folder a)
              (with_fs f' (record_extract a (with_converting b st))) =
            (with_converting b
               (fst (run_decoder d label a (extract_folder a)
                       (with_fs f' (record_extract a st)))),
             snd (run_decoder d label a (extract_folder a)
                    (with_fs f' (record_extract a st))))) as Hd.
  { intros d label.
    exact (run_decoder_flag d label a (extract_folder a) b (with_fs f' (record_extract a st))). }
  destruct (String.eqb _ ".zip"); [apply Hd|].
  destruct (_ || _ || _ || _); [apply Hd|].
  destruct (_ || _); [|reflexivity].
  destruct (seven_zip_path opts) as [exe|]; [apply Hd | reflexivity].
Qed.

Lemma extract_each_flag archives b : forall st,
  extract_each opts archives (with_converting b st) =
  (with_converting b (fst (extract_each opts archives st)),
   snd (extract_each opts archives st)).
Proof.
  induction archives as [|a rest IH]; intros st; [reflexivity|].
  cbn [extract_each]. rewrite extract_archive_flag.
  destruct (extract_archive opts a st) as [st1 [folder|]]; cbn [fst snd].
  - set (st2 := if delete_archives_after_extract opts then _ else st1).
    match goal with |- context [extract_each opts rest ?s] =>
      replace s with (with_converting b st2) end.
    + rewrite IH. destruct (extract_each opts rest st2) as [st3 folders]. reflexivity.
    + unfold st2. destruct (delete_archives_after_extract opts); [|reflexivity].
      cbn [fs with_converting]. destruct (Fs.unlink (fs st1) a); reflexivity.
  - apply IH.
Qed.

Lemma extraction_stage_flag directory b st :
  extraction_stage opts directory (with_converting b st) =
  with_converting b (extraction_stage opts directory st).
Proof.
  unfold extraction_stage. destruct (extract_compressed opts); [|reflexivity].
  unfold extract_all_archives. cbn [fs add_log with_converting].
  destruct (find_compressed_files (fs st) directory (recursive opts)) as [|a l]; [reflexivity|].
  match goal with |- context [extract_each opts ?l ?s] =>
    change s with (with_converting b
      (add_log (LogFoundCompressed (map Pathlib.name l)) (add_log LogExtractingHeader st)))
  end.
  rewrite extract_each_flag.
  destruct (extract_each opts (a :: l) _) as [st1 folders]. cbn [fst snd].
  destruct folders; reflexivity.
Qed.

(** the extraction calls no converter *)
Lemma extract_archive_chdman a st :
  chdman_calls (fst (extract_archive opts a st)) = chdman_calls st.
Proof.
  unfold extract_archive.
  destruct (Fs.mkdir _ _) as [f'|]; [|reflexivity].
  assert (forall r : State * option (list string),
            control (fst r) = control (with_fs f' (record_extract a st)) ->
            chdman_calls (fst r) = chdman_calls st) as Hc.
  { intros r Hr. apply control_fields in Hr. destruct Hr as (_ & -> & _). reflexivity. }
  destruct (String.eqb _ ".zip"); [apply Hc, run_decoder_control|].
  destruct (_ || _ || _ || _); [apply Hc, run_decoder_control|].
  destruct (_ || _); [|reflexivity].
  destruct (seven_zip_path opts); [apply Hc, run_decoder_control | reflexivity].
Qed.

Lemma extract_each_chdman archives : forall st,
  chdman_calls (fst (extract_each opts archives st)) = chdman_calls st.
Proof.
  induction archives as [|a rest IH]; intros st; [reflexivity|].
  cbn [extract_each]. pose proof (extract_archive_chdman a st) as Ha.
  destruct (extract_archive opts a st) as [st1 [folder|]]; cbn [fst] in Ha.
  - set (st2 := if delete_archives_after_extract opts then _ else st1).
    assert (chdman_calls st2 = chdman_calls st1) as H2.
    { unfold st2. destruct (delete_archives_after_extract opts); [|reflexivity].
      destruct (Fs.unlink (fs st1) a); reflexivity. }
    specialize (IH st2). destruct (extract_each opts rest st2) as [st3 folders].
    cbn [fst] in *. congruence.
  - rewrite IH. exact Ha.
Qed.

Lemma extraction_stage_calls directory st :
  chdman_calls (extraction_stage opts directory st) = chdman_calls st
  /\ extract_calls (extraction_stage opts directory st) =
     extract_calls st ++
       (if extract_compressed opts
        then find_compressed_files (fs st) directory (recursive opts) else []).
Proof.
  unfold extraction_stage. destruct (extract_compressed opts);
    [|split; [reflexivity | symmetry; apply app_nil_r]].
  pose proof (extract_all_archives_calls opts directory (recursive opts)
                (add_log LogExtractingHeader st)) as Hx.
  assert (chdman_calls (fst (extract_all_archives opts directory (recursive opts)
                               (add_log LogExtractingHeader st))) = chdman_calls st) as Hc.
  { unfold extract_all_archives.
    destruct (find_compressed_files _ _ _); [reflexivity|].
    rewrite extract_each_chdman. reflexivity. }
  destruct (extract_all_archives opts directory (recursive opts)
              (add_log LogExtractingHeader st)) as [st1 folders].
  cbn [fst] in *. destruct folders; split; assumption.
Qed.

(** what a pool that is stopped before its first job leaves behind *)
Lemma stopped_pool_idle schedule p :
  is_converting (app p) = false -> running p = [] -> started p = [] ->
  successful p = 0 -> failed p = 0 ->
  let q := exec opts schedule p in
  fs (app q) = fs (app p) /\ chdman_calls (app q) = chdman_calls (app p)
  /\ extract_calls (app q) = extract_calls (app p)
  /\ started q = [] /\ running q = [] /\ successful q = 0 /\ failed q = 0.
Proof.
  intros Hc Hr Hs Hok Hko q.
  assert (idle_inv (fs (app p)) (chdman_calls (app p)) (extract_calls (app p)) p) as H0.
  { repeat split; assumption. }
  destruct (exec_idle_inv opts _ _ _ schedule _ H0) as [(_ & Hrun & Hfs & Hcalls & Hx) Hst].
  destruct (exec_stopped opts schedule p Hc) as (_ & _ & _ & Hs' & Hf').
  fold q in Hrun, Hfs, Hcalls, Hx, Hst, Hs', Hf'.
  repeat split; congruence.
Qed.

Lemma summary_keeps p :
  fs (summary p) = fs (app p) /\ chdman_calls (summary p) = chdman_calls (app p)
  /\ extract_calls (summary p) = extract_calls (app p).
Proof.
  unfold summary. cbn [fs chdman_calls extract_calls with_converting].
  match goal with |- context [if ?b then _ else _] => destruct b end; cbn; auto.
Qed.

Lemma extraction_stage_converting directory st :
  is_converting (extraction_stage opts directory st) = is_converting st.
Proof.
  replace st with (with_converting (is_converting st) st) at 1 by (destruct st; reflexivity).
  rewrite extraction_stage_flag. reflexivity.
Qed.

(** the thread when the stop comes before the first job: [pre] is [Stop],
    or empty when the flag was cleared before the thread began *)
Lemma conversion_thread_idle directory schedule st (pre : list Event) :
  pre = [Stop] \/ (pre = [] /\ is_converting st = false) ->
  let r := conversion_thread opts directory (pre ++ schedule) st in
  fs r = fs (extraction_stage opts directory st)
  /\ chdman_calls r = chdman_calls st
  /\ extract_calls r = extract_calls (extraction_stage opts directory st).
Proof.
  intros Hpre r.
  destruct (extraction_stage_calls directory st) as [Hcalls _].
  pose proof (extraction_stage_converting directory st) as Hflag.
  unfold r, conversion_thread. fold (extraction_stage opts directory st).
  set (st1 := extraction_stage opts directory st) in *.
  destruct (find_game_files opts (fs st1) directory (recursive opts)) as [|g l] eqn:Hg.
  { cbn. auto. }
  set (st3 := add_log _ _).
  assert (fs st3 = fs st1 /\ chdman_calls st3 = chdman_calls st1
          /\ extract_calls st3 = extract_calls st1
          /\ is_converting st3 = is_converting st1) as (F & C & X & K) by (cbn; auto).
  rewrite exec_app.
  set (p1 := exec opts pre (submit_all (g :: l) st3)).
  assert (is_converting (app p1) = false /\ running p1 = [] /\ started p1 = []
          /\ successful p1 = 0 /\ failed p1 = 0 /\ fs (app p1) = fs st3
          /\ chdman_calls (app p1) = chdman_calls st3
          /\ extract_calls (app p1) = extract_calls st3) as (I1 & I2 & I3 & I4 & I5 & I6 & I7 & I8).
  { unfold p1. destruct Hpre as [->|[-> Hoff]]; cbn; [auto 10|].
    repeat split. congruence. }
  destruct (stopped_pool_idle schedule p1 I1 I2 I3 I4 I5) as (Q1 & Q2 & Q3 & _).
  destruct (summary_keeps (exec opts schedule p1)) as (S1 & S2 & S3).
  destruct (quiescent (exec opts schedule p1)); repeat split; congruence.
Qed.

End StopEarly.

Section PoolExtract.
Context {tools : ExternalTools}.
Variable opts : Options.

Lemma run_chdman_extract cmd n label p chd st :
  extract_calls (fst (run_chdman cmd n label p chd st)) = extract_calls st.
Proof.
  unfold run_chdman. cbn.
  destruct (chdman cmd (fs st)) as [rc err f'|f'|f']; cbn; try reflexivity.
  destruct (Z.eqb rc 0); [|reflexivity].
  destruct (Fs.st_size f' chd); reflexivity.
Qed.

Lemma parse_cue_file_extract p st :
  extract_calls (fst (parse_cue_file p st)) = extract_calls st.
Proof.
  pose proof (parse_cue_file_control p st) as H. apply control_fields in H. tauto.
Qed.

Lemma convert_to_chd_extract path st :
  extract_calls (fst (convert_to_chd opts path st)) = extract_calls st.
Proof.
  unfold convert_to_chd.
  destruct (Fs.exists_ (fs st) (Pathlib.with_suffix path ".chd")); [reflexivity|].
  destruct (String.eqb _ ".cue").
  - pose proof (parse_cue_file_extract path st) as Hp.
    destruct (parse_cue_file path st) as [st1 bins]. cbn [fst] in Hp.
    destruct (sum_sizes (fs st1) bins); [|exact Hp].
    destruct (Fs.st_size (fs st1) path); [|exact Hp].
    match goal with |- context [run_chdman ?c ?n ?l ?p ?q ?s] =>
      pose proof (run_chdman_extract c n l p q s) as Hr;
      destruct (run_chdman c n l p q s) as [st2 ok] end.
    cbn [fst] in *. congruence.
  - destruct (String.eqb _ ".iso"); [|reflexivity].
    destruct (Fs.st_size (fs st) path); [|reflexivity].
    match goal with |- context [run_chdman ?c ?n ?l ?p ?q ?s] =>
      pose proof (run_chdman_extract c n l p q s) as Hr;
      destruct (run_chdman c n l p q s) as [st2 ok] end.
    cbn [fst] in *. exact Hr.
Qed.

Lemma process_body_extract path st :
  extract_calls (fst (process_body opts path st)) = extract_calls st.
Proof.
  unfold process_body. pose proof (convert_to_chd_extract path st) as H.
  destruct (convert_to_chd opts path st) as [st1 [[|]|]]; cbn [fst] in *; try exact H.
  pose proof (postprocess_control opts path st1) as Hc. apply control_fields in Hc.
  destruct Hc as (_ & _ & -> & _). exact H.
Qed.

Lemma step_extract p e : extract_calls (app (step opts p e)) = extract_calls (app p).
Proof.
  destruct e as [now|i|now|]; cbn [step]; [| | |reflexivity].
  - unfold dispatch. destruct (length (running p) <? cpu_cores opts); [|reflexivity].
    destruct (pending p) as [|[n f] rest]; [reflexivity|].
    unfold process_begin. destruct (negb (is_converting (app p))); reflexivity.
  - unfold finish. destruct (running p !! i) as [f|]; [|reflexivity].
    pose proof (process_body_extract f (app p)) as H.
    destruct (process_body opts f (app p)). exact H.
  - unfold collect. destruct (collecting p); [|reflexivity].
    destruct (finished p) as [|[f out] rest]; [reflexivity|].
    destruct (negb (is_converting (app p))); [reflexivity|].
    destruct out as [[result|]|]; reflexivity.
Qed.

Lemma exec_extract schedule p :
  extract_calls (app (exec opts schedule p)) = extract_calls (app p).
Proof.
  revert p. induction schedule as [|e rest IH]; intros p; [reflexivity|].
  cbn [exec fold_left]. etransitivity; [apply IH | apply step_extract].
Qed.

End PoolExtract.

(** ** The worker pool *)

(** X1.  In a run that is not stopped every submitted job is accounted for:
    at each moment the jobs counted as succeeded or failed, those waiting to
    be collected, those running and those pending are the jobs submitted,
    and when the pool is drained the succeeded and the failed jobs together
    are all of them.  The jobs counted as completed are never more than
    those counted as succeeded or failed (a job that raises is counted as
    failed only). *)
Theorem unstopped_run_counts_every_job
    {tools : ExternalTools} (opts : Options) (game_files : list (list string))
    (schedule : list Event) (st : State) :
  is_converting st = true ->
  ~ In Stop schedule ->
  let p := exec opts schedule (submit_all game_files st) in
  successful p + failed p + length (finished p) + length (running p)
    + length (pending p) = length game_files
  /\ completed p <= successful p + failed p
  /\ (quiescent p = true -> successful p + failed p = length game_files).
Proof.
  intros Hconv Hstop p.
  pose proof (exec_account_inv opts schedule _
                (submit_all_account_inv game_files st Hconv) Hstop) as Hinv.
  fold p in Hinv. destruct Hinv as (_ & Hcol & _ & Hsum & Hle).
  assert (total p = length game_files) as Htot by apply exec_total.
  rewrite Htot in Hsum. split; [exact Hsum|]. split; [exact Hle|].
  unfold quiescent. rewrite Hcol.
  destruct (pending p); [|discriminate]. destruct (running p); [|discriminate].
  destruct (finished p); [|discriminate]. cbn in Hsum. lia.
Qed.

Lemma unstopped_run_counts_every_job_witness :
  let p := exec (tools := Demo.ideal) (Demo.options false false true true 2)
             [Dispatch 1; Dispatch 2; Finish 0; Finish 0; Collect 3; Collect 4]
             (submit_all [Demo.game_cue; Demo.other_iso]
                (Demo.state_of Demo.disc_fs true)) in
  successful p + failed p = 2.
Proof.
  destruct (unstopped_run_counts_every_job (tools := Demo.ideal)
              (Demo.options false false true true 2) [Demo.game_cue; Demo.other_iso]
              [Dispatch 1; Dispatch 2; Finish 0; Finish 0; Collect 3; Collect 4]
              (Demo.state_of Demo.disc_fs true)) as (_ & _ & H).
  - reflexivity.
  - simpl. intuition discriminate.
  - apply H. vm_compute. reflexivity.
Defined.

(** X2.  During a run, stopped or not, the number of completed jobs that
    the sampler reads never exceeds the number of jobs: the number of jobs
    remaining is the difference of the two, and the bound at zero in
    [update_metrics] is never reached. *)
Theorem progress_stays_within_total
    {tools : ExternalTools} (opts : Options) (game_files : list (list string))
    (schedule : list Event) (st : State) :
  completed_jobs st = 0 ->
  total_jobs st = length game_files ->
  let tick := app (exec opts schedule (submit_all game_files st)) in
  completed_jobs tick <= total_jobs tick
  /\ total_jobs tick = length game_files
  /\ remaining tick = (Z.of_nat (total_jobs tick) - Z.of_nat (completed_jobs tick))%Z.
Proof.
  intros Hdone Htot tick.
  assert (progress_inv (submit_all game_files st)) as H0.
  { repeat split; cbn; [exact Hdone | exact Htot |].
    rewrite length_combine, length_seq. lia. }
  pose proof (exec_progress_inv opts schedule _ H0) as (H1 & H2 & H3).
  fold tick in H1, H2. rewrite exec_total in H2, H3. cbn [total submit_all] in H2, H3.
  assert (completed_jobs tick <= total_jobs tick) as Hle by lia.
  split; [exact Hle|]. split; [exact H2|]. unfold remaining. lia.
Qed.

Lemma progress_stays_within_total_witness :
  let tick := app (exec (tools := Demo.ideal) (Demo.options false false true true 2)
                     [Dispatch 1; Dispatch 2; Finish 0; Collect 4; Stop; Collect 5]
                     (submit_all [Demo.game_cue; Demo.other_iso]
                        (with_metrics ∅ [] 2 0 true (Demo.state_of Demo.disc_fs true)))) in
  completed_jobs tick <= total_jobs tick /\ remaining tick = 1%Z.
Proof.
  destruct (progress_stays_within_total (tools := Demo.ideal)
              (Demo.options false false true true 2) [Demo.game_cue; Demo.other_iso]
              [Dispatch 1; Dispatch 2; Finish 0; Collect 4; Stop; Collect 5]
              (with_metrics ∅ [] 2 0 true (Demo.state_of Demo.disc_fs true))
              eq_refl eq_refl) as (H1 & _ & H3).
  split; [exact H1|]. rewrite H3. vm_compute. reflexivity.
Defined.

(** X3.  In a run over the files that the scanner finds, the converter is
    called at most once for a file, and only for files of the scan,
    whatever the order in which the jobs run and whether or not the run is
    stopped. *)
Theorem converter_called_once_per_file
    {tools : ExternalTools} (opts : Options) (directory : list string)
    (schedule : list Event) (st : State) :
  let game_files := find_game_files opts (fs st) directory (recursive opts) in
  let p := exec opts schedule (submit_all game_files st) in
  exists calls,
    chdman_calls (app p) = chdman_calls st ++ calls
    /\ List.NoDup (map input calls)
    /\ (forall c, In c calls -> In (input c) game_files).
Proof.
  intros game_files p.
  destruct (find_game_files_spec opts (fs st) directory (recursive opts)) as (_ & Hnd & _).
  fold game_files in Hnd.
  destruct (exec_once_inv opts _ _ schedule _ (submit_all_once_inv game_files st Hnd))
    as (calls & H1 & H2 & H3).
  exists calls. split; [exact H1|]. split.
  - exact (NoDup_app_remove_r _ _ H2).
  - intros c Hc. apply H3. apply in_or_app. left. apply in_map. exact Hc.
Qed.

(** X4.  A stop that comes before the first job is started, before the
    thread begins or between the extraction and the first job, prevents
    every conversion: whatever happens afterwards, the converter is not
    called, no job is started or counted, and the files are those that the
    extraction left.  The extraction itself is not held back: it does not
    read the flag, and the archives are handed to the extractor as in a run
    that is not stopped. *)
Theorem stop_before_first_job
    {tools : ExternalTools} (opts : Options) (directory : list string)
    (schedule : list Event) (st : State) :
  let extracted := extraction_stage opts directory st in
  let early := conversion_thread opts directory schedule (with_converting false st) in
  let late := conversion_thread opts directory (Stop :: schedule) st in
  chdman_calls early = chdman_calls st /\ chdman_calls late = chdman_calls st
  /\ fs early = fs extracted /\ fs late = fs extracted
  /\ extract_calls early = extract_calls extracted
  /\ extract_calls late = extract_calls extracted
  /\ extract_calls extracted =
     extract_calls st ++
       (if extract_compressed opts
        then find_compressed_files (fs st) directory (recursive opts) else [])
  /\ (forall (game_files : list (list string)) (st0 : State),
        let p := exec opts (Stop :: schedule) (submit_all game_files st0) in
        started p = [] /\ running p = [] /\ successful p = 0 /\ failed p = 0
        /\ fs (app p) = fs st0 /\ chdman_calls (app p) = chdman_calls st0)
  /\ (forall (game_files : list (list string)) (st0 : State),
        is_converting st0 = false ->
        let p := exec opts schedule (submit_all game_files st0) in
        started p = [] /\ running p = [] /\ successful p = 0 /\ failed p = 0
        /\ fs (app p) = fs st0 /\ chdman_calls (app p) = chdman_calls st0).
Proof.
  intros extracted early late.
  destruct (conversion_thread_idle opts directory schedule (with_converting false st) [])
    as (E1 & E2 & E3); [right; split; reflexivity|].
  destruct (conversion_thread_idle opts directory schedule st [Stop])
    as (L1 & L2 & L3); [left; reflexivity|].
  cbn [List.app] in E1, E2, E3, L1, L2, L3. fold early in E1, E2, E3. fold late in L1, L2, L3.
  rewrite extraction_stage_flag in E1, E3. fold extracted in E1, E3, L1, L3.
  destruct (extraction_stage_calls opts directory st) as [_ Hx]. fold extracted in Hx.
  repeat (split; [assumption|]).
  split.
  - intros game_files st0 p.
    destruct (stopped_pool_idle opts schedule (stop (submit_all game_files st0))
                eq_refl eq_refl eq_refl eq_refl eq_refl) as (Q1 & Q2 & _ & Q4 & Q5 & Q6 & Q7).
    change (exec opts schedule (stop (submit_all game_files st0))) with p in *.
    cbn in Q1, Q2. auto 10.
  - intros game_files st0 Hoff p.
    destruct (stopped_pool_idle opts schedule (submit_all game_files st0)
                Hoff eq_refl eq_refl eq_refl eq_refl) as (Q1 & Q2 & _ & Q4 & Q5 & Q6 & Q7).
    fold p in Q1, Q2, Q4, Q5, Q6, Q7. cbn in Q1, Q2. auto 10.
Qed.

(** X5.  A run calls the extractor before the conversion and not during it:
    the archives handed to the extractor in a run are those that the search
    for compressed files returns at the start, in that order, and none when
    the extraction is switched off. *)
Theorem extraction_precedes_conversion
    {tools : ExternalTools} (opts : Options) (directory : list string)
    (schedule : list Event) (st : State) :
  extract_calls (conversion_thread opts directory schedule st) =
  extract_calls st ++
    (if extract_compressed opts
     then find_compressed_files (fs st) directory (recursive opts) else []).
Proof.
  unfold conversion_thread.
  set (st1 := if extract_compressed opts then _ else st).
  assert (extract_calls st1 = extract_calls st ++
            (if extract_compressed opts
             then find_compressed_files (fs st) directory (recursive opts) else [])) as H1.
  { unfold st1. destruct (extract_compressed opts); [|rewrite app_nil_r; reflexivity].
    pose proof (extract_all_archives_calls opts directory (recursive opts)
                  (add_log LogExtractingHeader st)) as H.
    destruct (extract_all_archives opts directory (recursive opts)
                (add_log LogExtractingHeader st)) as [st2 folders].
    cbn [fst] in H. destruct folders; exact H. }
  rewrite <- H1. clearbody st1.
  destruct (find_game_files opts (fs st1) directory (recursive opts)) as [|g l] eqn:Hg;
    [reflexivity|].
  match goal with |- context [exec opts schedule ?q] =>
    pose proof (exec_extract opts schedule q) as He; set (p := exec opts schedule q) in * end.
  cbn in He.
  destruct (quiescent p); [|exact He].
  unfold summary. cbn [extract_calls with_converting].
  match goal with |- context [if ?b then _ else _] => destruct b end; cbn; exact He.
Qed.

Section EngineMore.
Context {tools : ExternalTools}.
Variable opts : Options.

Lemma run_chdman_true cmd n label p chd st st' :
  run_chdman cmd n label p chd st = (st', true) -> Fs.exists_ (fs st') chd = true.
Proof.
  unfold run_chdman. cbn.
  destruct (chdman cmd (fs st)) as [rc err f'|f'|f']; cbn; try discriminate.
  destruct (Z.eqb rc 0); [|discriminate].
  destruct (Fs.st_size f' chd) as [n'|] eqn:E; [|discriminate].
  intros [= <-]. cbn. unfold Fs.st_size in E. unfold Fs.exists_.
  destruct (f' !! chd); [reflexivity | discriminate].
Qed.

Lemma convert_to_chd_true path st st' :
  convert_to_chd opts path st = (st', Return true) ->
  Fs.exists_ (fs st') (Pathlib.with_suffix path ".chd") = true.
Proof.
  unfold convert_to_chd.
  destruct (Fs.exists_ (fs st) (Pathlib.with_suffix path ".chd")) eqn:Ex.
  { intros [= <-]. exact Ex. }
  destruct (String.eqb _ ".cue").
  - destruct (parse_cue_file path st) as [st1 bins].
    destruct (sum_sizes (fs st1) bins); [|discriminate].
    destruct (Fs.st_size (fs st1) path); [|discriminate].
    match goal with |- context [run_chdman ?c ?n ?l ?p ?q ?s] =>
      pose proof (run_chdman_true c n l p q s) as Hr;
      destruct (run_chdman c n l p q s) as [st2 ok] end.
    intros [= <- ->]. apply Hr. reflexivity.
  - destruct (String.eqb _ ".iso"); [|discriminate].
    destruct (Fs.st_size (fs st) path); [|discriminate].
    match goal with |- context [run_chdman ?c ?n ?l ?p ?q ?s] =>
      pose proof (run_chdman_true c n l p q s) as Hr;
      destruct (run_chdman c n l p q s) as [st2 ok] end.
    intros [= <- ->]. apply Hr. reflexivity.
Qed.

(** *** Deleting *)

Lemma delete_one_frame p st st' q :
  delete_one p st = Some st' -> q <> p -> fs st' !! q = fs st !! q.
Proof.
  unfold delete_one, Fs.unlink. destruct (Fs.exists_ (fs st) p); [|intros [= <-]; reflexivity].
  destruct (fs st !! p) as [[c|]|]; try discriminate.
  intros [= <-] Hq. cbn. apply lookup_delete_ne. congruence.
Qed.

Lemma delete_all_frame l st q :
  ~ In q l -> fs (fst (delete_all l st)) !! q = fs st !! q.
Proof.
  revert st. induction l as [|p l IH]; intros st Hq; [reflexivity|].
  cbn [delete_all]. destruct (delete_one p st) as [st1|] eqn:E; [|reflexivity].
  rewrite IH by (intros H; apply Hq; right; exact H).
  apply (delete_one_frame p st st1 q E). intros ->. apply Hq. left. reflexivity.
Qed.

Lemma delete_original_files_frame path st q :
  q <> path -> ~ In q (snd (parse_cue_file path st)) ->
  fs (fst (delete_original_files path st)) !! q = fs st !! q.
Proof.
  intros Hq Hrefs. unfold delete_original_files.
  pose proof (parse_cue_file_fs path st) as Hfs.
  destruct (parse_cue_file path st) as [st1 bins]. cbn [fst snd] in *.
  pose proof (delete_all_frame (bins ++ [path]) st1 q) as Hf.
  destruct (delete_all (bins ++ [path]) st1) as [st2 [|]]; cbn [fst] in *;
    rewrite <- Hfs; apply Hf; intros Hin; apply in_app_or in Hin;
    destruct Hin as [Hin|[Hin|[]]]; auto.
Qed.

Lemma delete_all_dir l st b :
  In b l -> fs st !! b = Some Dir -> snd (delete_all l st) = false.
Proof.
  revert st. induction l as [|p l IH]; intros st Hin Hb; [destruct Hin|].
  cbn [delete_all]. destruct (delete_one p st) as [st1|] eqn:E; [|reflexivity].
  destruct (decide (p = b)) as [->|Hne].
  - exfalso. unfold delete_one, Fs.exists_, Fs.unlink in E. rewrite Hb in E. discriminate E.
  - destruct Hin as [Hin|Hin]; [contradiction|].
    apply (IH st1 Hin). rewrite (delete_one_frame p st st1 b E) by congruence. exact Hb.
Qed.

Lemma delete_all_app_false l1 l2 st :
  snd (delete_all l1 st) = false -> delete_all (l1 ++ l2) st = delete_all l1 st.
Proof.
  revert st. induction l1 as [|p l IH]; intros st H; [discriminate H|].
  rewrite <- app_comm_cons. cbn [delete_all] in *.
  destruct (delete_one p st) as [st1|]; [|reflexivity].
  apply IH, H.
Qed.

(** *** Moving to the backup folder *)

Lemma backup_one_file d p st st1 :
  fs st !! p <> Some Dir -> backup_one d p st = Some st1 ->
  fs st1 !! p = None
  /\ (forall q e, fs st !! q = Some e -> q <> p -> fs st1 !! q = Some e)
  /\ (forall c, has_content (fs st) c -> has_content (fs st1) c)
  /\ (forall q, fs st1 !! q = Some Dir -> fs st !! q = Some Dir).
Proof.
  intros Hp. unfold backup_one, Fs.exists_.
  destruct (fs st !! p) as [[c|]|] eqn:E; [|contradiction|].
  - destruct (Fs.first_free _ _ _ _ _) as [dest|] eqn:Ef; [|discriminate].
    apply Collide.first_free_result in Ef as [Hfree _].
    assert (fs st !! dest = None) as Hd.
    { unfold Fs.exists_ in Hfree. destruct (fs st !! dest); [discriminate | reflexivity]. }
    assert (dest <> p) as Hdp by congruence.
    unfold Fs.move. rewrite E. intros [= <-]. cbn.
    split; [|split; [|split]].
    + rewrite lookup_insert_ne by exact Hdp. apply lookup_delete_eq.
    + intros q e Hq Hne. rewrite lookup_insert_ne by congruence.
      rewrite lookup_delete_ne by congruence. exact Hq.
    + intros c' [q Hq]. destruct (decide (q = p)) as [->|Hne].
      * exists dest. rewrite lookup_insert_eq. congruence.
      * exists q. rewrite lookup_insert_ne by congruence.
        rewrite lookup_delete_ne by congruence. exact Hq.
    + intros q Hq. destruct (decide (dest = q)) as [->|Hne].
      * rewrite lookup_insert_eq in Hq. discriminate Hq.
      * rewrite lookup_insert_ne in Hq by exact Hne.
        destruct (decide (p = q)) as [->|Hne'].
        -- rewrite lookup_delete_eq in Hq. discriminate Hq.
        -- rewrite lookup_delete_ne in Hq by exact Hne'. exact Hq.
  - intros [= <-]. split; [exact E|]. auto.
Qed.

Lemma backup_all_files d l st st' :
  (forall b, In b l -> fs st !! b <> Some Dir) ->
  backup_all d l st = (st', true) ->
  (forall q e, fs st !! q = Some e -> ~ In q l -> fs st' !! q = Some e)
  /\ (forall c, has_content (fs st) c -> has_content (fs st') c)
  /\ (forall q, fs st' !! q = Some Dir -> fs st !! q = Some Dir).
Proof.
  revert st. induction l as [|p l IH]; intros st Hl.
  - intros [= <-]. auto.
  - cbn [backup_all]. destruct (backup_one d p st) as [st1|] eqn:E; [|discriminate].
    destruct (backup_one_file d p st st1 (Hl p (or_introl eq_refl)) E) as (_ & K1 & K2 & K3).
    intros Hrest. destruct (IH st1) as (G1 & G2 & G3); [|exact Hrest|].
    { intros b Hb Hdir. apply (Hl b); [right; exact Hb | apply K3, Hdir]. }
    split; [|split].
    + intros q e Hq Hn. apply G1; [|intros H; apply Hn; right; exact H].
      apply K1; [exact Hq|]. intros ->. apply Hn. left. reflexivity.
    + intros c Hc. apply G2, K2, Hc.
    + intros q Hq. apply K3, G3, Hq.
Qed.

Lemma backup_all_last d l p st st' :
  (forall b, In b (l ++ [p]) -> fs st !! b <> Some Dir) ->
  backup_all d (l ++ [p]) st = (st', true) -> fs st' !! p = None.
Proof.
  revert st. induction l as [|x l IH]; intros st Hl.
  - change ([] ++ [p]) with [p] in *. cbn [backup_all].
    destruct (backup_one d p st) as [st1|] eqn:E; [|discriminate].
    intros [= <-].
    exact (proj1 (backup_one_file d p st st1 (Hl p (or_introl eq_refl)) E)).
  - rewrite <- app_comm_cons in *. cbn [backup_all].
    destruct (backup_one d x st) as [st1|] eqn:E; [|discriminate].
    destruct (backup_one_file d x st st1 (Hl x (or_introl eq_refl)) E) as (_ & _ & _ & K3).
    apply IH. intros b Hb Hdir. apply (Hl b); [right; exact Hb | apply K3, Hdir].
Qed.

End EngineMore.

Section EngineDir.

Lemma delete_all_keeps_dir l st b :
  fs st !! b = Some Dir -> fs (fst (delete_all l st)) !! b = Some Dir.
Proof.
  revert st. induction l as [|p l IH]; intros st Hb; [exact Hb|].
  cbn [delete_all]. destruct (delete_one p st) as [st1|] eqn:E; [|exact Hb].
  apply IH. destruct (decide (p = b)) as [->|Hne].
  - exfalso. unfold delete_one, Fs.exists_, Fs.unlink in E. rewrite Hb in E. discriminate E.
  - rewrite (delete_one_frame p st st1 b E) by congruence. exact Hb.
Qed.

End EngineDir.

(** ** Conversion and postprocessing *)

(** X6.  A conversion step reports success only when the output is there:
    whatever the converter does, after [convert_to_chd] has returned [True]
    the CHD file of the descriptor exists. *)
Theorem successful_conversion_leaves_output
    {tools : ExternalTools} (opts : Options) (path : list string) (st st' : State) :
  convert_to_chd opts path st = (st', Return true) ->
  Fs.exists_ (fs st') (Pathlib.with_suffix path ".chd") = true.
Proof. apply convert_to_chd_true. Qed.

Lemma successful_conversion_leaves_output_witness :
  Fs.exists_
    (fs (fst (convert_to_chd (tools := Demo.ideal) (Demo.options false false true true 2)
                Demo.game_cue (Demo.state_of Demo.disc_fs true))))
    (Demo.roms ++ ["Game.chd"%string]) = true.
Proof.
  apply (successful_conversion_leaves_output (tools := Demo.ideal)
           (Demo.options false false true true 2) Demo.game_cue
           (Demo.state_of Demo.disc_fs true)).
  rewrite (surjective_pairing (convert_to_chd _ _ _)) at 1.
  f_equal; vm_compute; reflexivity.
Defined.

(** X7.  Deleting the originals of a descriptor touches nothing but the
    descriptor and the files it names that exist: for a descriptor given by
    its full path whose references take no step back to a parent folder,
    every other full path keeps its entry, whether or not the deletion
    succeeds. *)
Theorem delete_leaves_other_files
    (path : list string) (st : State) (q : list string) :
  direct path -> direct q ->
  (forall content, fs st !! path = Some (File content) -> plain_refs content) ->
  q <> path ->
  ~ In q (snd (parse_cue_file path st)) ->
  fs (fst (delete_original_files path st)) !! q = fs st !! q.
Proof. intros _ _ _. apply delete_original_files_frame. Qed.

Lemma delete_leaves_other_files_witness :
  fs (fst (delete_original_files Demo.game_cue (Demo.state_of Demo.disc_fs true)))
    !! Demo.other_iso = Some (File "isoisoiso").
Proof.
  rewrite (delete_leaves_other_files Demo.game_cue (Demo.state_of Demo.disc_fs true)
             Demo.other_iso).
  - vm_compute. reflexivity.
  - split; [eexists; reflexivity|]. vm_compute. intuition discriminate.
  - split; [eexists; reflexivity|]. vm_compute. intuition discriminate.
  - intros content Hc m Hm.
    vm_compute in Hc. injection Hc as <-. vm_compute in Hm. destruct Hm as [<-|[<-|[<-|[]]]]; vm_compute; intuition discriminate.
  - discriminate.
  - vm_compute. intuition discriminate.
Defined.

(** X8.  When a file named by the descriptor is a folder, deleting the
    originals ends with an error at that entry: the call returns [False]
    and logs the error, the folder stays, and the descriptor itself is not
    deleted (unless it names itself). *)
Theorem delete_stops_at_a_folder
    (path : list string) (st : State) (b : list string) :
  In b (snd (parse_cue_file path st)) ->
  fs st !! b = Some Dir ->
  ~ In path (snd (parse_cue_file path st)) ->
  let r := delete_original_files path st in
  snd r = false
  /\ fs (fst r) !! path = fs st !! path
  /\ fs (fst r) !! b = Some Dir
  /\ exists l, log (fst r) = l ++ [LogDeleteError].
Proof.
  intros Hb Hdir Hself. unfold delete_original_files.
  pose proof (parse_cue_file_fs path st) as Hfs.
  destruct (parse_cue_file path st) as [st1 bins]. cbn [fst snd] in *.
  rewrite <- Hfs in Hdir.
  pose proof (delete_all_dir bins st1 b Hb Hdir) as Hfalse.
  rewrite (delete_all_app_false bins [path] st1 Hfalse).
  pose proof (delete_all_frame bins st1 path Hself) as Hframe.
  pose proof (delete_all_keeps_dir bins st1 b Hdir) as Hkeep.
  destruct (delete_all bins st1) as [st2 ok]. cbn [fst snd] in *. subst ok.
  cbn. split; [reflexivity|]. split; [congruence|]. split; [exact Hkeep|].
  eexists. reflexivity.
Qed.

Lemma delete_stops_at_a_folder_witness :
  let r := delete_original_files Demo.game_cue (Demo.state_of Cases.folder_fs true) in
  snd r = false /\ fs (fst r) !! Demo.game_cue = Some (File Cases.folder_list).
Proof.
  destruct (delete_stops_at_a_folder Demo.game_cue (Demo.state_of Cases.folder_fs true)
              (Demo.roms ++ ["extras"%string])) as (H1 & H2 & _).
  - vm_compute. auto.
  - vm_compute. reflexivity.
  - vm_compute. intuition discriminate.
  - split; [exact H1|]. rewrite H2. vm_compute. reflexivity.
Defined.

(** a call whose steps follow one another and that ends is the call that
    [move_to_backup_folder] computes *)
Lemma backup_run_add (a b : nat) : forall (j : BackupJob) (st : State),
  backup_run (a + b) j st =
  (let '(s, j') := backup_run a j st in backup_run b j' s).
Proof.
  induction a as [|a IH]; intros j st; [reflexivity|].
  cbn [Nat.add backup_run]. destruct (backup_step j st) as [s j']. apply IH.
Qed.

Lemma backup_run_result (fuel : nat) (path : list string) (st st' : State) (ok : bool) :
  backup_run fuel (BackupStart path) st = (st', BackupEnd ok) ->
  move_to_backup_folder path st = (st', ok).
Proof.
  intros H. destruct (backup_run_alone path st) as [n Hn].
  specialize (Hn (fuel + n) ltac:(lia)).
  rewrite backup_run_add, H, backup_run_end in Hn.
  rewrite (surjective_pairing (move_to_backup_folder path st)).
  injection Hn as <- <-. reflexivity.
Qed.

(** X9.  Moving the originals to the backup folder loses nothing when no
    other job acts on the files between the steps of the call.  For a
    descriptor given by its full path whose references take no step back to
    a parent folder and name regular files: when the steps of the call
    follow one another and the call returns [True], the descriptor is gone
    from its place, every content that some file held before is held by
    some file afterwards, and every entry other than the descriptor and the
    files it names is unchanged. *)
Theorem backup_keeps_every_file
    (path : list string) (content : string) (st st' : State) (fuel : nat) :
  direct path ->
  fs st !! path = Some (File content) ->
  plain_refs content ->
  (forall m, In m (Cue.findall content) ->
     let b := Pathlib.joinpath (Pathlib.parent path) m in
     fs st !! b <> Some Dir
     /\ b <> Pathlib.joinpath (Pathlib.parent path) "original_backup") ->
  backup_run fuel (BackupStart path) st = (st', BackupEnd true) ->
  move_to_backup_folder path st = (st', true)
  /\ fs st' !! path = None
  /\ (forall c, has_content (fs st) c -> has_content (fs st') c)
  /\ (forall q e, direct q -> fs st !! q = Some e -> q <> path ->
        ~ In q (map (Pathlib.joinpath (Pathlib.parent path)) (Cue.findall content)) ->
        fs st' !! q = Some e).
Proof.
  intros _ Hfile _ Hrefs Hrun. apply backup_run_result in Hrun.
  split; [exact Hrun|]. revert Hrun. unfold move_to_backup_folder.
  set (backup_dir := Pathlib.joinpath (Pathlib.parent path) "original_backup") in *.
  destruct (Fs.mkdir (fs st) backup_dir) as [f1|] eqn:Emk; [|discriminate].
  assert (forall q e, fs st !! q = Some e -> f1 !! q = Some e) as Hkeep.
  { intros q e Hq. unfold Fs.mkdir in Emk.
    destruct (fs st !! backup_dir) as [[c|]|] eqn:Eb; [discriminate| |];
      injection Emk as <-; [exact Hq|].
    rewrite lookup_insert_ne by congruence. exact Hq. }
  assert (forall q, f1 !! q = Some Dir -> q = backup_dir \/ fs st !! q = Some Dir) as Hdirs.
  { intros q Hq. unfold Fs.mkdir in Emk.
    destruct (fs st !! backup_dir) as [[c|]|] eqn:Eb; [discriminate| |];
      injection Emk as <-; [right; exact Hq|].
    destruct (decide (backup_dir = q)) as [->|Hne]; [left; reflexivity|].
    rewrite lookup_insert_ne in Hq by exact Hne. right. exact Hq. }
  unfold parse_cue_file. cbn [fs with_fs].
  rewrite (Hkeep path _ Hfile), resolve_refs_spec. cbn [fs with_fs].
  set (st1 := add_logs _ _).
  set (bins := List.filter _ _).
  assert (fs st1 = f1) as Hfs1 by (unfold st1; rewrite fs_add_logs; reflexivity).
  assert (forall b, In b bins ->
            In b (map (Pathlib.joinpath (Pathlib.parent path)) (Cue.findall content))) as Hbins.
  { intros b Hb. unfold bins in Hb. apply filter_In in Hb. tauto. }
  assert (forall b, In b (bins ++ [path]) -> fs st1 !! b <> Some Dir) as Hnodir.
  { intros b Hb Hdir. rewrite Hfs1 in Hdir. apply in_app_or in Hb.
    destruct Hb as [Hb|[<-|[]]].
    - apply Hbins, in_map_iff in Hb as (m & <- & Hm).
      destruct (Hrefs m Hm) as [H1 H2]. destruct (Hdirs _ Hdir); contradiction.
    - rewrite (Hkeep path _ Hfile) in Hdir. discriminate Hdir. }
  destruct (backup_all backup_dir (bins ++ [path]) st1) as [st2 [|]] eqn:Eb; [|discriminate].
  intros [= <-].
  destruct (backup_all_files backup_dir _ st1 st2 Hnodir Eb) as (G1 & G2 & _).
  split; [exact (backup_all_last backup_dir bins path st1 st2 Hnodir Eb)|]. split.
  - intros c [q Hq]. apply G2. exists q. rewrite Hfs1. apply Hkeep, Hq.
  - intros q e _ Hq Hne Hnot. apply G1; [rewrite Hfs1; apply Hkeep, Hq|].
    intros Hin. apply in_app_or in Hin. destruct Hin as [Hin|[Hin|[]]]; [|congruence].
    apply Hnot, Hbins, Hin.
Qed.

Lemma backup_keeps_every_file_witness :
  match backup_run 8 (BackupStart Demo.game_cue) (Demo.state_of Demo.disc_fs true) with
  | (st', BackupEnd true) =>
      fs st' !! Demo.game_cue = None
      /\ has_content (fs st') Demo.track_list
      /\ fs st' !! Demo.other_iso = Some (File "isoisoiso")
  | _ => False
  end.
Proof.
  destruct (backup_run 8 (BackupStart Demo.game_cue) (Demo.state_of Demo.disc_fs true))
    as [st' j] eqn:E.
  assert (j = BackupEnd true) as ->.
  { apply (f_equal snd) in E. cbn [snd] in E. rewrite <- E. vm_compute. reflexivity. }
  destruct (backup_keeps_every_file Demo.game_cue Demo.track_list
              (Demo.state_of Demo.disc_fs true) st' 8) as (_ & H1 & H2 & H3).
  - split; [eexists; reflexivity|]. vm_compute. intuition discriminate.
  - vm_compute. reflexivity.
  - intros m Hm. vm_compute in Hm.
    destruct Hm as [<-|[<-|[<-|[]]]]; vm_compute; intuition discriminate.
  - intros m Hm. vm_compute in Hm.
    destruct Hm as [<-|[<-|[<-|[]]]]; vm_compute; split; discriminate.
  - exact E.
  - split; [exact H1|]. split.
    + apply H2. exists Demo.game_cue. vm_compute. reflexivity.
    + apply (H3 Demo.other_iso).
      * split; [eexists; reflexivity|]. vm_compute. intuition discriminate.
      * vm_compute. reflexivity.
      * discriminate.
      * vm_compute. intuition discriminate.
Defined.

Section MoveMore.
Variables remove_locale copy_instead : bool.
Variable dest_path : list string.

Lemma mkdir_keeps (f f' : gmap (list string) entry) (p : list string) :
  Fs.mkdir f p = Some f' -> forall q e, f !! q = Some e -> f' !! q = Some e.
Proof.
  unfold Fs.mkdir. intros H q e Hq.
  destruct (f !! p) as [[c|]|] eqn:E; [discriminate| |]; injection H as <-; [exact Hq|].
  rewrite lookup_insert_ne by congruence. exact Hq.
Qed.

Lemma mkdir_parents_keeps (f f' : gmap (list string) entry) (done todo : list string) :
  Fs.mkdir_parents f done todo = Some f' ->
  forall q e, f !! q = Some e -> f' !! q = Some e.
Proof.
  revert f done. induction todo as [|x todo IH]; intros f done; cbn [Fs.mkdir_parents].
  - intros [= <-]. auto.
  - destruct (Fs.mkdir f (done ++ [x])) as [f1|] eqn:E; [|discriminate].
    intros H q e Hq. apply (IH _ _ H). exact (mkdir_keeps _ _ _ E q e Hq).
Qed.

Lemma move_one_cases (chd : list string) (f f' : gmap (list string) entry) (r : MoveReport) :
  move_one remove_locale copy_instead dest_path chd f = (f', r) ->
  (f' = f /\ r = NotMoved (Pathlib.name chd))
  \/ (exists d, f !! d = None /\ r = Moved (Pathlib.stem chd) (Pathlib.name d)
      /\ ((exists c, f !! chd = Some (File c)
             /\ f' = if copy_instead then <[d := File c]> f
                     else <[d := File c]> (delete chd f))
          \/ (copy_instead = false /\ f !! chd = Some Dir
              /\ f' = Fs.rename_tree chd d f))).
Proof.
  unfold move_one.
  destruct (dest_for remove_locale dest_path chd f) as [d|] eqn:Ed;
    [|intros [= <- <-]; left; auto].
  unfold dest_for in Ed. apply Collide.first_free_result in Ed as [Hfree _].
  assert (f !! d = None) as Hd.
  { unfold Fs.exists_ in Hfree. destruct (f !! d); [discriminate | reflexivity]. }
  destruct copy_instead.
  - unfold Fs.copy2. destruct (f !! chd) as [[c|]|] eqn:E; intros [= <- <-];
      [right | left; auto | left; auto].
    exists d. split; [exact Hd|]. split; [reflexivity|]. left. exists c. auto.
  - unfold Fs.move. destruct (f !! chd) as [[c|]|] eqn:E; intros [= <- <-];
      [right | right | left; auto]; exists d; (split; [exact Hd|]); (split; [reflexivity|]).
    + left. exists c. auto.
    + right. auto.
Qed.

(** one round on a found file that is no folder *)
Lemma move_one_file (chd : list string) (f f' : gmap (list string) entry) (r : MoveReport) :
  f !! chd <> Some Dir ->
  move_one remove_locale copy_instead dest_path chd f = (f', r) ->
  (forall q x, f !! q = Some x -> q <> chd -> f' !! q = Some x)
  /\ (forall c, has_content f c -> has_content f' c)
  /\ (forall q, f' !! q = Some Dir -> f !! q = Some Dir)
  /\ (copy_instead = true -> forall q x, f !! q = Some x -> f' !! q = Some x).
Proof.
  intros Hnd H. apply move_one_cases in H.
  destruct H as [[-> _]|(d & Hd & _ & [(c & Hc & ->)|(_ & Hdir & _)])];
    [auto | | contradiction].
  destruct copy_instead.
  - assert (forall q x, f !! q = Some x -> <[d := File c]> f !! q = Some x) as Hk.
    { intros q x Hq. rewrite lookup_insert_ne by congruence. exact Hq. }
    split; [auto|]. split; [|split; [|auto]].
    + intros c' [q Hq]. exists q. auto.
    + intros q Hq. destruct (decide (d = q)) as [->|Hne].
      * rewrite lookup_insert_eq in Hq. discriminate Hq.
      * rewrite lookup_insert_ne in Hq by exact Hne. exact Hq.
  - split; [|split; [|split; [|discriminate]]].
    + intros q x Hq Hne. rewrite lookup_insert_ne by congruence.
      rewrite lookup_delete_ne by congruence. exact Hq.
    + intros c' [q Hq]. destruct (decide (q = chd)) as [->|Hne].
      * exists d. rewrite lookup_insert_eq. congruence.
      * exists q. rewrite lookup_insert_ne by congruence.
        rewrite lookup_delete_ne by congruence. exact Hq.
    + intros q Hq. destruct (decide (d = q)) as [->|Hne].
      * rewrite lookup_insert_eq in Hq. discriminate Hq.
      * rewrite lookup_insert_ne in Hq by exact Hne.
        destruct (decide (chd = q)) as [->|Hne'].
        -- rewrite lookup_delete_eq in Hq. discriminate Hq.
        -- rewrite lookup_delete_ne in Hq by exact Hne'. exact Hq.
Qed.

Lemma move_each_files (found : list (list string)) (f f' : gmap (list string) entry)
    (reports : list MoveReport) :
  (forall chd, In chd found -> f !! chd <> Some Dir) ->
  move_each remove_locale copy_instead dest_path found f = (f', reports) ->
  (forall q x, f !! q = Some x -> ~ In q found -> f' !! q = Some x)
  /\ (forall c, has_content f c -> has_content f' c)
  /\ (copy_instead = true -> forall q x, f !! q = Some x -> f' !! q = Some x)
  /\ length reports = length found.
Proof.
  revert f reports. induction found as [|chd rest IH]; intros f reports Hnd.
  - intros [= <- <-]. auto.
  - cbn [move_each].
    destruct (move_one remove_locale copy_instead dest_path chd f) as [f1 r] eqn:E1.
    destruct (move_each remove_locale copy_instead dest_path rest f1) as [f2 rs] eqn:E2.
    intros [= <- <-].
    destruct (move_one_file chd f f1 r (Hnd chd (or_introl eq_refl)) E1) as (K1 & K2 & K3 & K4).
    destruct (IH f1 rs) as (G1 & G2 & G3 & G4); [|exact E2|].
    { intros b Hb Hdir. apply (Hnd b); [right; exact Hb | apply K3, Hdir]. }
    split; [|split; [|split]].
    + intros q x Hq Hn. apply G1; [|intros H; apply Hn; right; exact H].
      apply K1; [exact Hq|]. intros ->. apply Hn. left. reflexivity.
    + intros c Hc. apply G2, K2, Hc.
    + intros Hci q x Hq. apply (G3 Hci), (K4 Hci), Hq.
    + cbn. rewrite G4. reflexivity.
Qed.

(** in copy mode folders among the found files do no harm *)
Lemma move_each_copy (found : list (list string)) (f f' : gmap (list string) entry)
    (reports : list MoveReport) :
  copy_instead = true ->
  move_each remove_locale copy_instead dest_path found f = (f', reports) ->
  (forall q x, f !! q = Some x -> f' !! q = Some x) /\ length reports = length found.
Proof.
  intros Hci. revert f reports. induction found as [|chd rest IH]; intros f reports.
  - intros [= <- <-]. auto.
  - cbn [move_each].
    destruct (move_one remove_locale copy_instead dest_path chd f) as [f1 r] eqn:E1.
    destruct (move_each remove_locale copy_instead dest_path rest f1) as [f2 rs] eqn:E2.
    intros [= <- <-]. destruct (IH f1 rs E2) as [G1 G2].
    split; [|cbn; rewrite G2; reflexivity].
    intros q x Hq. apply G1. apply move_one_cases in E1.
    destruct E1 as [[-> _]|(d & Hd & _ & [(c & Hc & ->)|(Hf & _)])]; [exact Hq | | congruence].
    rewrite Hci. rewrite lookup_insert_ne by congruence. exact Hq.
Qed.

End MoveMore.

Section MoveAll.
Variables remove_locale copy_instead : bool.
Variable dest_path : list string.

Lemma move_each_counts (found : list (list string)) (f : gmap (list string) entry) :
  let reports := snd (move_each remove_locale copy_instead dest_path found f) in
  length (List.filter is_moved reports)
  + length (List.filter (fun r => negb (is_moved r)) reports) = length found.
Proof.
  cbn zeta. rewrite filter_split.
  revert f. induction found as [|chd rest IH]; intros f; [reflexivity|].
  cbn [move_each].
  destruct (move_one remove_locale copy_instead dest_path chd f) as [f1 r].
  specialize (IH f1).
  destruct (move_each remove_locale copy_instead dest_path rest f1) as [f2 rs].
  cbn in *. rewrite IH. reflexivity.
Qed.

End MoveAll.

(** ** Moving converted files *)

(** X10.  Copying converted files changes no entry that was there: every
    path that had an entry keeps it, so the sources stay and nothing at the
    destination is overwritten; and each found file is reported once, as
    copied or as failed. *)
Theorem copying_changes_no_entry
    (remove_locale : bool) (dest_path : list string) (found_files : list (list string))
    (f f' : gmap (list string) entry) (reports : list MoveReport)
    (success_count error_count : nat) :
  execute_move remove_locale true dest_path found_files f
    = Some (f', reports, success_count, error_count) ->
  (forall q x, f !! q = Some x -> f' !! q = Some x)
  /\ length reports = length found_files
  /\ success_count + error_count = length found_files.
Proof.
  unfold execute_move.
  destruct (Fs.mkdir_parents f [] dest_path) as [f0|] eqn:Emk; [|discriminate].
  pose proof (move_each_counts remove_locale true dest_path found_files f0) as Hcount.
  destruct (move_each remove_locale true dest_path found_files f0) as [f1 rs] eqn:E.
  cbn [snd] in Hcount. intros [= <- <- <- <-].
  destruct (move_each_copy remove_locale true dest_path found_files f0 f1 rs eq_refl E)
    as [H1 H2].
  split; [|split; [exact H2 | exact Hcount]].
  intros q x Hq. apply H1. exact (mkdir_parents_keeps _ _ _ _ Emk q x Hq).
Qed.

Lemma copying_changes_no_entry_witness :
  match execute_move true true Demo.shelf [Demo.usa; Demo.europe] Demo.chd_fs with
  | Some (f', _, success_count, error_count) =>
      f' !! Demo.usa = Some (File "usa") /\ f' !! Demo.europe = Some (File "europe")
      /\ success_count + error_count = 2
  | None => False
  end.
Proof.
  destruct (execute_move true true Demo.shelf [Demo.usa; Demo.europe] Demo.chd_fs)
    as [[[[f' reports] s] e]|] eqn:E.
  - destruct (copying_changes_no_entry true Demo.shelf [Demo.usa; Demo.europe]
                Demo.chd_fs f' reports s e E) as (H & _ & Hc).
    split; [apply H; vm_compute; reflexivity|].
    split; [apply H; vm_compute; reflexivity | exact Hc].
  - apply (f_equal is_Some_bool) in E. vm_compute in E. discriminate E.
Defined.

(** X11.  Moving or copying found files that are regular files loses no
    data: every content that some file held before is held by some file
    afterwards, every entry other than the found files is unchanged (so
    nothing at the destination is overwritten), and each found file is
    reported once. *)
Theorem moving_loses_no_content
    (remove_locale copy_instead : bool) (dest_path : list string)
    (found_files : list (list string))
    (f f' : gmap (list string) entry) (reports : list MoveReport)
    (success_count error_count : nat) :
  (forall chd, In chd found_files -> exists c, f !! chd = Some (File c)) ->
  execute_move remove_locale copy_instead dest_path found_files f
    = Some (f', reports, success_count, error_count) ->
  (forall c, has_content f c -> has_content f' c)
  /\ (forall q x, f !! q = Some x -> ~ In q found_files -> f' !! q = Some x)
  /\ success_count + error_count = length found_files.
Proof.
  intros Hfiles. unfold execute_move.
  destruct (Fs.mkdir_parents f [] dest_path) as [f0|] eqn:Emk; [|discriminate].
  pose proof (move_each_counts remove_locale copy_instead dest_path found_files f0) as Hcount.
  destruct (move_each remove_locale copy_instead dest_path found_files f0) as [f1 rs] eqn:E.
  cbn [snd] in Hcount. intros [= <- <- <- <-].
  pose proof (mkdir_parents_keeps _ _ _ _ Emk) as Hk.
  destruct (move_each_files remove_locale copy_instead dest_path found_files f0 f1 rs)
    as (H1 & H2 & _ & _); [|exact E|].
  { intros chd Hin Hdir. destruct (Hfiles chd Hin) as [c Hc].
    rewrite (Hk chd _ Hc) in Hdir. discriminate Hdir. }
  split; [|split; [|exact Hcount]].
  - intros c [q Hq]. apply H2. exists q. apply Hk, Hq.
  - intros q x Hq Hn. apply H1; [apply Hk, Hq | exact Hn].
Qed.

Lemma moving_loses_no_content_witness :
  match execute_move true false Demo.shelf [Demo.usa; Demo.europe] Demo.chd_fs with
  | Some (f', _, _, _) =>
      has_content f' "usa" /\ has_content f' "europe" /\ f' !! Demo.shelf = Some Dir
  | None => False
  end.
Proof.
  destruct (execute_move true false Demo.shelf [Demo.usa; Demo.europe] Demo.chd_fs)
    as [[[[f' reports] s] e]|] eqn:E.
  - destruct (moving_loses_no_content true false Demo.shelf [Demo.usa; Demo.europe]
                Demo.chd_fs f' reports s e) as (H1 & H2 & _); [|exact E|].
    { intros chd [<-|[<-|[]]]; eexists; vm_compute; reflexivity. }
    split; [apply H1; exists Demo.usa; vm_compute; reflexivity|].
    split; [apply H1; exists Demo.europe; vm_compute; reflexivity|].
    apply H2; [vm_compute; reflexivity|]. simpl. intuition discriminate.
  - apply (f_equal is_Some_bool) in E. vm_compute in E. discriminate E.
Defined.

(** ** Facts about decimal numerals and [format_seconds] *)

Module FormatFacts.
Import Text TextFacts Collide.

Lemma digits_all d x :
  In x (of_string (NilEmpty.string_of_uint d)) -> py_isdigit x = true.
Proof.
  unfold of_string.
  induction d as [|d IH|d IH|d IH|d IH|d IH|d IH|d IH|d IH|d IH|d IH]; simpl;
    [tauto|..]; (intros [<-|H]; [reflexivity | exact (IH H)]).
Qed.

Lemma str_of_nat_digits n x : In x (of_string (Pathlib.str_of_nat n)) -> py_isdigit x = true.
Proof. apply digits_all. Qed.

(** a numeral followed by a character that is no digit determines both *)
Lemma numeral_split a b x y r r' :
  of_string (Pathlib.str_of_nat a) ++ x :: r = of_string (Pathlib.str_of_nat b) ++ y :: r' ->
  py_isdigit x = false -> py_isdigit y = false ->
  a = b /\ x = y /\ r = r'.
Proof.
  intros H Hx Hy.
  destruct (run_app py_isdigit (of_string (Pathlib.str_of_nat a)) (x :: r)
              (str_of_nat_digits a) Hx) as [R1 S1].
  destruct (run_app py_isdigit (of_string (Pathlib.str_of_nat b)) (y :: r')
              (str_of_nat_digits b) Hy) as [R2 S2].
  rewrite H in R1, S1. rewrite R2 in R1. rewrite S2 in S1.
  injection S1 as -> ->. split; [|auto].
  apply str_of_nat_inj. rewrite <- (to_of_string (Pathlib.str_of_nat a)), <- R1.
  apply to_of_string.
Qed.

Lemma str_of_Z_nat z : (0 <= z)%Z -> str_of_Z z = Pathlib.str_of_nat (Z.to_nat z).
Proof. intros H. unfold str_of_Z. destruct (Z.ltb_spec z 0); [lia | reflexivity]. Qed.

Lemma py_int_nonneg x : (0 <= x)%Q -> (0 <= py_int x)%Z.
Proof.
  unfold Qle, py_int. cbn. intros H. apply Z.quot_pos; lia.
Qed.

Lemma hms_text_inj h m s h' m' s' :
  hms_text h m s = hms_text h' m' s' -> h = h' /\ m = m' /\ s = s'.
Proof.
  unfold hms_text.
  destruct (Nat.ltb_spec 0 h) as [Hh|Hh]; destruct (Nat.ltb_spec 0 h') as [Hh'|Hh'];
    destruct (Nat.ltb_spec 0 m) as [Hm|Hm]; destruct (Nat.ltb_spec 0 m') as [Hm'|Hm'];
    intros H;
    repeat match type of H with
    | of_string (Pathlib.str_of_nat _) ++ _ :: _ = of_string (Pathlib.str_of_nat _) ++ _ :: _ =>
        apply numeral_split in H; [|reflexivity|reflexivity];
        destruct H as (? & H' & H); try discriminate H'; clear H';
        try (injection H as H)
    end; lia.
Qed.

Lemma hms_text_head h m s :
  exists x t, hms_text h m s = x :: t /\ py_isdigit x = true.
Proof.
  assert (forall n r, exists x t,
            of_string (Pathlib.str_of_nat n) ++ r = x :: t /\ py_isdigit x = true) as Hd.
  { intros n r. destruct (str_of_nat_cons n) as (x & t & E).
    pose proof (str_of_nat_digits n x) as Hx. rewrite E in Hx |- *.
    exists x, (t ++ r). split; [reflexivity | apply Hx; left; reflexivity]. }
  unfold hms_text. destruct (0 <? h); [apply Hd|]. destruct (0 <? m); apply Hd.
Qed.

Lemma format_seconds_hms x :
  (0 <= x)%Q ->
  of_string (format_seconds (Some x)) =
  hms_text (Z.to_nat (py_int x / 60 / 60)) (Z.to_nat ((py_int x / 60) mod 60))
    (Z.to_nat (py_int x mod 60)).
Proof.
  intros Hx. pose proof (py_int_nonneg x Hx) as Hn.
  unfold format_seconds. apply Qle_bool_iff in Hx. rewrite Hx. cbn [negb].
  set (n := py_int x) in *. cbv zeta.
  assert (0 <= n / 60)%Z as Hq by (apply Z.div_pos; lia).
  assert (0 <= n / 60 / 60)%Z as Hh by (apply Z.div_pos; lia).
  assert (0 <= (n / 60) mod 60)%Z as Hm by (apply Z.mod_pos_bound; lia).
  assert (0 <= n mod 60)%Z as Hs by (apply Z.mod_pos_bound; lia).
  rewrite !str_of_Z_nat by assumption. unfold hms_text.
  destruct (Z.ltb_spec 0 (n / 60 / 60)) as [H1|H1];
    destruct (Nat.ltb_spec 0 (Z.to_nat (n / 60 / 60))) as [H1'|H1']; try lia.
  - rewrite !of_string_app. reflexivity.
  - destruct (Z.ltb_spec 0 ((n / 60) mod 60)) as [H2|H2];
      destruct (Nat.ltb_spec 0 (Z.to_nat ((n / 60) mod 60))) as [H2'|H2']; try lia;
      rewrite !of_string_app; reflexivity.
Qed.

End FormatFacts.

(** ** The sampler's texts *)

(** X13.  [format_seconds] shows two dashes for no value and for a negative
    one, and for nothing else; otherwise the text depends on the whole
    seconds of the duration only, and two durations with different whole
    seconds never get the same text. *)
Theorem format_seconds_tells_whole_seconds (a b : Q) :
  (0 <= a)%Q -> (0 <= b)%Q ->
  format_seconds None = "--"%string
  /\ (forall x, (x < 0)%Q -> format_seconds (Some x) = "--"%string)
  /\ format_seconds (Some a) <> "--"%string
  /\ (format_seconds (Some a) = format_seconds (Some b) <-> py_int a = py_int b).
Proof.
  intros Ha Hb. split; [reflexivity|]. split; [|split; [|split]].
  - intros x Hx. unfold format_seconds.
    destruct (Qle_bool 0 x) eqn:E; [|reflexivity].
    apply Qle_bool_iff in E. exfalso. exact (Qlt_not_le _ _ Hx E).
  - intros H. apply (f_equal Text.of_string) in H.
    rewrite (FormatFacts.format_seconds_hms a Ha) in H.
    destruct (FormatFacts.hms_text_head (Z.to_nat (py_int a / 60 / 60))
                (Z.to_nat ((py_int a / 60) mod 60)) (Z.to_nat (py_int a mod 60)))
      as (x & t & E & Hx).
    rewrite E in H. injection H as -> _. discriminate Hx.
  - intros H. apply (f_equal Text.of_string) in H.
    rewrite (FormatFacts.format_seconds_hms a Ha), (FormatFacts.format_seconds_hms b Hb) in H.
    apply FormatFacts.hms_text_inj in H. destruct H as (H1 & H2 & H3).
    pose proof (FormatFacts.py_int_nonneg a Ha) as Na.
    pose proof (FormatFacts.py_int_nonneg b Hb) as Nb.
    set (n := py_int a) in *. set (k := py_int b) in *.
    pose proof (Z.div_mod n 60). pose proof (Z.div_mod k 60).
    pose proof (Z.div_mod (n / 60) 60). pose proof (Z.div_mod (k / 60) 60).
    pose proof (Z.mod_pos_bound n 60). pose proof (Z.mod_pos_bound k 60).
    pose proof (Z.mod_pos_bound (n / 60) 60). pose proof (Z.mod_pos_bound (k / 60) 60).
    assert (0 <= n / 60)%Z by (apply Z.div_pos; lia).
    assert (0 <= k / 60)%Z by (apply Z.div_pos; lia).
    assert (0 <= n / 60 / 60)%Z by (apply Z.div_pos; lia).
    assert (0 <= k / 60 / 60)%Z by (apply Z.div_pos; lia).
    lia.
  - intros H. unfold format_seconds. rewrite H. apply Qle_bool_iff in Ha, Hb.
    rewrite Ha, Hb. reflexivity.
Qed.

Lemma format_seconds_tells_whole_seconds_witness :
  format_seconds (Some (7451 # 2)) = format_seconds (Some (3725 # 1))
  /\ format_seconds (Some (3725 # 1)) = "1h 2m 5s"%string.
Proof.
  split; [|vm_compute; reflexivity].
  apply (format_seconds_tells_whole_seconds (7451 # 2) (3725 # 1)); [discriminate | discriminate |].
  vm_compute. reflexivity.
Defined.

(** X14.  During a run, as long as no job has been collected, the sampler
    has no estimate and the status line shows two dashes for the time
    remaining. *)
Theorem eta_is_blank_before_first_sample
    {tools : ExternalTools} (opts : Options) (game_files : list (list string))
    (schedule : list Event) (st : State) :
  completed_jobs st = 0 -> file_durations st = [] ->
  (forall now, In (Dispatch now) schedule -> ~ (now == 0)%Q) ->
  let tick := app (exec opts schedule (submit_all game_files st)) in
  completed_jobs tick = 0 ->
  overall_eta opts tick = None
  /\ (metrics_running tick = true ->
      status_text opts tick =
      Some ("Converting 0/" ++ Pathlib.str_of_nat (total_jobs tick) ++ " ETA --")%string).
Proof.
  intros Hc Hd Hclock tick Hzero.
  destruct (exec_sampler_inv opts schedule _ (submit_all_sampler_inv game_files st Hc Hd))
    as (Hdone & Hlen & _).
  { intros now Hin. destruct (Qeq_bool now 0) eqn:E; [|reflexivity].
    apply Qeq_bool_iff in E. destruct (Hclock now Hin E). }
  fold tick in Hdone, Hlen.
  assert (file_durations tick = []) as Hnil.
  { destruct (file_durations tick); [reflexivity|]. cbn in Hlen. lia. }
  assert (overall_eta opts tick = None) as Heta.
  { unfold overall_eta, avg_time. rewrite Hnil. reflexivity. }
  split; [exact Heta|]. intros Hrun. unfold status_text.
  rewrite Hrun, Heta, Hzero. reflexivity.
Qed.

Lemma eta_is_blank_before_first_sample_witness :
  status_text (Demo.options false false true true 2)
    (app (exec (tools := Demo.ideal) (Demo.options false false true true 2)
            [Dispatch 1; Finish 0]
            (submit_all [Demo.game_cue; Demo.other_iso]
               (with_metrics ∅ [] 2 0 true (Demo.state_of Demo.disc_fs true)))))
  = Some "Converting 0/2 ETA --"%string.
Proof.
  destruct (eta_is_blank_before_first_sample (tools := Demo.ideal)
              (Demo.options false false true true 2) [Demo.game_cue; Demo.other_iso]
              [Dispatch 1; Finish 0]
              (with_metrics ∅ [] 2 0 true (Demo.state_of Demo.disc_fs true))
              eq_refl eq_refl) as (_ & H).
  - intros now [[= <-]|[[=]|[]]]. discriminate.
  - vm_compute. reflexivity.
  - rewrite H by (vm_compute; reflexivity). vm_compute. reflexivity.
Defined.

(** ** Facts about the version texts *)

Module VersionFacts.
Import Text TextFacts Version.

(** a text of decimal digits *)
Lemma forallb_digits s : (forall x, In x s -> py_isdigit x = true) -> forallb py_isdigit s = true.
Proof. intros H. apply forallb_forall. exact H. Qed.

Lemma search_some pattern_at s m :
  search pattern_at s = Some m -> exists u, pattern_at u = Some m.
Proof.
  induction s as [|x t IH]; cbn [search].
  - destruct (pattern_at []) eqn:E; [intros [= <-]; eauto | discriminate].
  - destruct (pattern_at (x :: t)) eqn:E; [intros [= <-]; eauto | exact IH].
Qed.

Lemma digits4_some s v rest :
  digits4 s = Some (v, rest) -> length v = 4 /\ forall x, In x v -> py_isdigit x = true.
Proof.
  unfold digits4. destruct s as [|a [|b [|c [|d r]]]]; try discriminate.
  destruct (py_isdigit a) eqn:Ea; [|discriminate].
  destruct (py_isdigit b) eqn:Eb; [|discriminate].
  destruct (py_isdigit c) eqn:Ec; [|discriminate].
  destruct (py_isdigit d) eqn:Ed; [|discriminate].
  intros [= <- <-]. split; [reflexivity|].
  intros x [<-|[<-|[<-|[<-|[]]]]]; assumption.
Qed.

Lemma decimal_at_some s m :
  decimal_at s = Some m -> forall x, In x m -> py_isdigit x = true \/ x = "."%char.
Proof.
  unfold decimal_at.
  pose proof (run_all py_isdigit s) as Hw.
  destruct (run py_isdigit s) as [|w ws]; [discriminate|].
  destruct (skip py_isdigit s) as [|y s1]; [discriminate|].
  destruct (Ascii.eqb_spec y "."%char) as [->|Hne].
  - pose proof (run_all py_isdigit s1) as Hf.
    destruct (run py_isdigit s1) as [|f fs]; [discriminate|].
    intros [= <-] x Hx. destruct Hx as [<-|Hx]; [left; apply Hw; left; reflexivity|].
    apply in_app_or in Hx.
    destruct Hx as [Hx|[<-|Hx]];
      [left; apply Hw; right; exact Hx | right; reflexivity | left; apply Hf, Hx].
  - destruct y as [[] [] [] [] [] [] [] []]; try discriminate. contradiction Hne. reflexivity.
Qed.

Lemma remove_dots_filter s :
  remove_dots s = List.filter (fun x => negb (Ascii.eqb "."%char x)) s.
Proof.
  unfold remove_dots. induction s as [|x t IH]; [reflexivity|].
  cbn [Pathlib.remove_all Pathlib.starts_with List.filter length Nat.sub].
  rewrite andb_true_r. destruct (Ascii.eqb "."%char x); cbn [negb]; rewrite IH; reflexivity.
Qed.

Lemma remove_dots_digits s :
  (forall x, In x s -> py_isdigit x = true \/ x = "."%char) ->
  forall x, In x (remove_dots s) -> py_isdigit x = true.
Proof.
  intros H x. rewrite remove_dots_filter, filter_In. intros [Hin Hx].
  destruct (H x Hin) as [Hd| ->]; [exact Hd | discriminate Hx].
Qed.

Lemma zfill_digits s :
  (forall x, In x s -> py_isdigit x = true) ->
  4 <= length (zfill 4 s) /\ forall x, In x (zfill 4 s) -> py_isdigit x = true.
Proof.
  intros H.
  assert (zfill 4 s = repeat "0"%char (4 - length s) ++ s) as ->.
  { unfold zfill. destruct s as [|c t]; [rewrite app_nil_r; reflexivity|].
    pose proof (H c (or_introl eq_refl)) as Hc.
    destruct (Ascii.eqb_spec c "+"%char) as [->|_]; [discriminate Hc|].
    destruct (Ascii.eqb_spec c "-"%char) as [->|_]; [discriminate Hc|]. reflexivity. }
  split.
  - rewrite length_app, repeat_length. lia.
  - intros x Hx. apply in_app_or in Hx. destruct Hx as [Hx|Hx]; [|auto].
    apply repeat_spec in Hx. subst x. reflexivity.
Qed.

Lemma installed_version_numeral output v :
  installed_version_of output = Some v -> numeral v.
Proof.
  unfold installed_version_of.
  destruct (search installed_tag_at output) as [m|] eqn:E1.
  - intros [= <-]. apply search_some in E1 as [u Hu]. unfold installed_tag_at in Hu.
    destruct (lit (of_string "(mame") u); [|discriminate].
    destruct (digits4 t) as [[d rest]|] eqn:E4; [|discriminate].
    destruct rest as [|c r]; [discriminate|].
    destruct (digits4_some _ _ _ E4) as [Hl Hd].
    destruct c as [[] [] [] [] [] [] [] []]; try discriminate.
    injection Hu as <-. split; [lia | exact Hd].
  - destruct (search decimal_at output) as [m|] eqn:E2; [|discriminate].
    intros [= <-]. apply search_some in E2 as [u Hu].
    apply zfill_digits, remove_dots_digits, (decimal_at_some u m Hu).
Qed.

Lemma latest_version_numeral html v :
  latest_version_of html = Some v -> numeral v.
Proof.
  unfold latest_version_of.
  destruct (search latest_tag_at html) as [m|] eqn:E1.
  - intros [= <-]. apply search_some in E1 as [u Hu]. unfold latest_tag_at in Hu.
    destruct (ilit (of_string "mame") u); [|discriminate].
    destruct (digits4 t) as [[d rest]|] eqn:E4; [|discriminate].
    destruct (digits4_some _ _ _ E4) as [Hl Hd].
    injection Hu as <-. split; [lia | exact Hd].
  - destruct (search latest_decimal_at html) as [m|] eqn:E2; [|discriminate].
    intros [= <-]. apply search_some in E2 as [u Hu].
    unfold latest_decimal_at in Hu.
    destruct (lit (of_string "MAME") u); [|discriminate].
    destruct (run py_isspace t); [discriminate|].
    apply zfill_digits, remove_dots_digits, (decimal_at_some _ m Hu).
Qed.

Lemma length_of_string s : length (of_string s) = String.length s.
Proof. induction s as [|x s IH]; [reflexivity|]. cbn. f_equal. exact IH. Qed.

(** [int] on a text of digits: defined within the limit, an error beyond *)
Lemma numeral_int limit v :
  numeral v -> limit = 0 \/ length v <= limit ->
  exists n, int_of_text limit v = Some n.
Proof.
  intros [Hl Hd] Hlim. unfold int_of_text. destruct v as [|c t]; [cbn in Hl; lia|].
  rewrite (forallb_digits _ Hd).
  replace ((0 <? limit) && (limit <? length (c :: t))) with false; [eauto|].
  symmetry. apply andb_false_iff. destruct Hlim as [->|Hle]; [left; reflexivity|].
  right. apply Nat.ltb_ge. exact Hle.
Qed.

Lemma numeral_int_long limit v :
  numeral v -> 0 < limit < length v -> int_of_text limit v = None.
Proof.
  intros [Hl Hd] [H0 Hlong]. unfold int_of_text. destruct v as [|c t]; [reflexivity|].
  rewrite (forallb_digits _ Hd).
  replace ((0 <? limit) && (limit <? length (c :: t))) with true; [reflexivity|].
  symmetry. apply andb_true_iff. split; apply Nat.ltb_lt; assumption.
Qed.

Lemma numeral_shown v : numeral v -> exists s, shown_version v = Some s.
Proof. intros [Hl _]. destruct v as [|c t]; [cbn in Hl; lia|]. cbn. eauto. Qed.

Lemma installed_numeral chdman_path printed v :
  get_installed_chdman_version chdman_path printed = Some v -> numeral (of_string v).
Proof.
  unfold get_installed_chdman_version.
  destruct chdman_path as [[|c p]|]; try discriminate.
  destruct printed as [[out err]|]; [|discriminate].
  destruct (installed_version_of _) as [t|] eqn:E; [|discriminate].
  intros [= <-]. rewrite Collide.of_to_string. exact (installed_version_numeral _ _ E).
Qed.

Lemma latest_numeral page v :
  get_latest_mame_version page = Some v -> numeral (of_string v).
Proof.
  unfold get_latest_mame_version. destruct page as [html|]; [|discriminate].
  destruct (latest_version_of _) as [t|] eqn:E; [|discriminate].
  intros [= <-]. rewrite Collide.of_to_string. exact (latest_version_numeral _ _ E).
Qed.

End VersionFacts.

(** ** The version check *)

(** X15.  A version that [get_installed_chdman_version] or
    [get_latest_mame_version] returns is a text of at least four decimal
    digits, whatever chdman prints and whatever the release page holds.
    [int] is defined on it when the interpreter has no limit on the digits
    of a number or the text is within the limit, and raises when the text
    is longer than the limit. *)
Theorem version_texts_are_numerals
    (chdman_path : option string) (printed : option (string * string))
    (page : option string) (v : string) :
  Version.get_installed_chdman_version chdman_path printed = Some v
  \/ Version.get_latest_mame_version page = Some v ->
  4 <= String.length v
  /\ forallb Text.py_isdigit (Text.of_string v) = true
  /\ (forall limit, limit = 0 \/ String.length v <= limit ->
        exists n, Version.int_of_text limit (Text.of_string v) = Some n)
  /\ (forall limit, 0 < limit < String.length v ->
        Version.int_of_text limit (Text.of_string v) = None).
Proof.
  intros H.
  assert (Version.numeral (Text.of_string v)) as Hn.
  { destruct H as [H|H];
      [exact (VersionFacts.installed_numeral _ _ _ H) | exact (VersionFacts.latest_numeral _ _ H)]. }
  pose proof Hn as [Hl Hd]. rewrite VersionFacts.length_of_string in Hl.
  split; [exact Hl|]. split; [exact (VersionFacts.forallb_digits _ Hd)|]. split.
  - intros limit Hlim. apply VersionFacts.numeral_int; [exact Hn|].
    rewrite VersionFacts.length_of_string. exact Hlim.
  - intros limit Hlim. apply VersionFacts.numeral_int_long; [exact Hn|].
    rewrite VersionFacts.length_of_string. exact Hlim.
Qed.

Lemma version_texts_are_numerals_witness :
  Version.get_installed_chdman_version (Some "chdman"%string)
    (Some ("chdman - MAME Compressed Hunks of Data (CHD) manager 0.271 (mame0271)"%string,
           EmptyString)) = Some "0271"%string
  /\ Version.int_of_text 4300 (Text.of_string "0271") = Some 271%N.
Proof.
  split; [vm_compute; reflexivity|].
  destruct (version_texts_are_numerals (Some "chdman"%string)
             (Some ("chdman - MAME Compressed Hunks of Data (CHD) manager 0.271 (mame0271)"%string,
                    EmptyString)) None "0271") as (_ & _ & H & _).
  - left. vm_compute. reflexivity.
  - destruct (H 4300) as [n Hn]; [right; vm_compute; lia|].
    rewrite Hn. vm_compute in Hn. congruence.
Defined.

(** X16.  The check for a newer chdman is skipped when a version is
    missing.  When both are found, and the interpreter has no limit on the
    digits of a number or both are within it, both are numbers and the
    update is offered exactly when the latest is the greater; when one of
    them is longer than the limit, [int] raises and the check ends in its
    [except] branch.  The versions lead to that branch in no other way. *)
Theorem update_check_outcomes
    (limit : nat) (chdman_path : option string) (printed : option (string * string))
    (page : option string) :
  let check := Version.check_for_chdman_update limit chdman_path printed page in
  (Version.get_installed_chdman_version chdman_path printed = None
   \/ Version.get_latest_mame_version page = None -> check = Version.Skipped)
  /\ (forall i l,
        Version.get_installed_chdman_version chdman_path printed = Some i ->
        Version.get_latest_mame_version page = Some l ->
        (limit = 0 \/ (String.length i <= limit /\ String.length l <= limit) ->
         exists installed latest si sl,
           Version.int_of_text limit (Text.of_string i) = Some installed
           /\ Version.int_of_text limit (Text.of_string l) = Some latest
           /\ Version.shown_version (Text.of_string i) = Some si
           /\ Version.shown_version (Text.of_string l) = Some sl
           /\ check = if (installed <? latest)%N then Version.UpdateOffered si sl
                      else Version.UpToDate)
        /\ (0 < limit -> limit < String.length i \/ limit < String.length l ->
            check = Version.CheckFailed))
  /\ (check = Version.CheckFailed ->
      0 < limit
      /\ exists v, (Version.get_installed_chdman_version chdman_path printed = Some v
                    \/ Version.get_latest_mame_version page = Some v)
                   /\ limit < String.length v).
Proof.
  intros check.
  assert (Version.get_installed_chdman_version chdman_path printed = None
          \/ Version.get_latest_mame_version page = None -> check = Version.Skipped) as Hskip.
  { intros [H|H]; unfold check, Version.check_for_chdman_update; rewrite H; [reflexivity|].
    destruct (Version.get_installed_chdman_version chdman_path printed) as [[|c t]|];
      reflexivity. }
  assert (forall i l,
            Version.get_installed_chdman_version chdman_path printed = Some i ->
            Version.get_latest_mame_version page = Some l ->
            (limit = 0 \/ (String.length i <= limit /\ String.length l <= limit) ->
             exists installed latest si sl,
               Version.int_of_text limit (Text.of_string i) = Some installed
               /\ Version.int_of_text limit (Text.of_string l) = Some latest
               /\ Version.shown_version (Text.of_string i) = Some si
               /\ Version.shown_version (Text.of_string l) = Some sl
               /\ check = if (installed <? latest)%N then Version.UpdateOffered si sl
                          else Version.UpToDate)
            /\ (0 < limit -> limit < String.length i \/ limit < String.length l ->
                check = Version.CheckFailed)) as Hboth.
  { intros i l Hi Hl.
    pose proof (VersionFacts.installed_numeral _ _ _ Hi) as Ni.
    pose proof (VersionFacts.latest_numeral _ _ Hl) as Nl.
    assert (check =
            match Version.int_of_text limit (Text.of_string l),
                  Version.int_of_text limit (Text.of_string i) with
            | Some latest, Some installed =>
                if (installed <? latest)%N then
                  match Version.shown_version (Text.of_string i),
                        Version.shown_version (Text.of_string l) with
                  | Some si, Some sl => Version.UpdateOffered si sl
                  | _, _ => Version.CheckFailed
                  end
                else Version.UpToDate
            | _, _ => Version.CheckFailed
            end) as Hcheck.
    { unfold check, Version.check_for_chdman_update. rewrite Hi, Hl.
      destruct i as [|ci ti]; [destruct Ni as [Ni _]; cbn in Ni; lia|].
      destruct l as [|cl tl]; [destruct Nl as [Nl _]; cbn in Nl; lia|].
      reflexivity. }
    split.
    - intros Hlim.
      destruct (VersionFacts.numeral_int limit _ Ni) as [a Ha].
      { rewrite VersionFacts.length_of_string. tauto. }
      destruct (VersionFacts.numeral_int limit _ Nl) as [b Hb].
      { rewrite VersionFacts.length_of_string. tauto. }
      destruct (VersionFacts.numeral_shown _ Ni) as [si Hsi].
      destruct (VersionFacts.numeral_shown _ Nl) as [sl Hsl].
      exists a, b, si, sl. repeat (split; [assumption|]).
      rewrite Hcheck, Ha, Hb, Hsi, Hsl. reflexivity.
    - intros H0 [Hlong|Hlong]; rewrite Hcheck.
      + rewrite (VersionFacts.numeral_int_long limit _ Ni)
          by (rewrite VersionFacts.length_of_string; lia).
        destruct (Version.int_of_text limit (Text.of_string l)); reflexivity.
      + rewrite (VersionFacts.numeral_int_long limit _ Nl)
          by (rewrite VersionFacts.length_of_string; lia).
        reflexivity. }
  split; [exact Hskip|]. split; [exact Hboth|].
  intros Hfail.
  destruct (Version.get_installed_chdman_version chdman_path printed) as [i|] eqn:Hi;
    [|rewrite Hskip in Hfail by (left; reflexivity); discriminate Hfail].
  destruct (Version.get_latest_mame_version page) as [l|] eqn:Hl;
    [|rewrite Hskip in Hfail by (right; reflexivity); discriminate Hfail].
  destruct (Hboth i l eq_refl eq_refl) as [Hok _].
  destruct (Nat.eq_dec limit 0) as [H0|H0].
  { destruct (Hok (or_introl H0)) as (a & b & si & sl & _ & _ & _ & _ & E).
    rewrite E in Hfail. destruct (a <? b)%N; discriminate Hfail. }
  split; [lia|].
  destruct (le_lt_dec (String.length i) limit) as [Hle1|Hlt1];
    [|exists i; split; [left; reflexivity | exact Hlt1]].
  destruct (le_lt_dec (String.length l) limit) as [Hle2|Hlt2];
    [|exists l; split; [right; reflexivity | exact Hlt2]].
  destruct (Hok (or_intror (conj Hle1 Hle2))) as (a & b & si & sl & _ & _ & _ & _ & E).
  rewrite E in Hfail. destruct (a <? b)%N; discriminate Hfail.
Qed.

Lemma update_check_outcomes_witness :
  Version.check_for_chdman_update 4300 (Some "chdman"%string)
    (Some (Cases.long_output, EmptyString)) (Some "mame0283"%string)
  = Version.CheckFailed
  /\ Version.check_for_chdman_update 4300 (Some "chdman"%string)
       (Some ("chdman 0.271 (mame0271)"%string, EmptyString)) (Some "mame0283"%string)
     = Version.UpdateOffered "MAME 0.271" "MAME 0.283".
Proof.
  split.
  - destruct (update_check_outcomes 4300 (Some "chdman"%string)
                (Some (Cases.long_output, EmptyString)) (Some "mame0283"%string))
      as (_ & H & _).
    destruct (H Cases.long_version "0283"%string) as [_ Hfail];
      [vm_compute; reflexivity | vm_compute; reflexivity|].
    apply Hfail; [lia|]. left. apply Nat.ltb_lt. vm_compute. reflexivity.
  - destruct (update_check_outcomes 4300 (Some "chdman"%string)
                (Some ("chdman 0.271 (mame0271)"%string, EmptyString))
                (Some "mame0283"%string)) as (_ & H & _).
    destruct (H "0271"%string "0283"%string) as [Hok _];
      [vm_compute; reflexivity | vm_compute; reflexivity|].
    destruct Hok as (a & b & si & sl & Ha & Hb & Hsi & Hsl & E).
    { right. vm_compute. lia. }
    rewrite E. vm_compute in Ha, Hb, Hsi, Hsl.
    injection Ha as <-. injection Hb as <-. injection Hsi as <-. injection Hsl as <-.
    reflexivity.
Defined.

(** ** Facts about names and extensions *)

Module NameFacts.
Import Text TextFacts Pathlib.

Lemma starts_with_app pre s : starts_with pre s = true <-> exists t, s = pre ++ t.
Proof.
  revert s. induction pre as [|a pre IH]; intros s; cbn [starts_with].
  - split; [intros _; exists s; reflexivity | reflexivity].
  - destruct s as [|b s]; [split; [discriminate | intros [t [=]]]|].
    rewrite andb_true_iff, IH. split.
    + intros [Hab [t ->]]. apply Ascii.eqb_eq in Hab. subst b. exists t. reflexivity.
    + intros [t [= -> ->]]. split; [apply Ascii.eqb_refl | exists t; reflexivity].
Qed.

Lemma endswith_app nm sfx :
  endswith nm sfx = true <-> exists base, of_string nm = base ++ of_string sfx.
Proof.
  unfold endswith. rewrite starts_with_app. split.
  - intros [t Ht]. exists (rev t). apply (f_equal (@rev ascii)) in Ht.
    rewrite rev_involutive, rev_app_distr, rev_involutive in Ht. exact Ht.
  - intros [base Hb]. exists (rev base). rewrite Hb, rev_app_distr. reflexivity.
Qed.

(** a name [base.ext] with a non-empty base and an extension without a dot *)
Lemma split_ext_app base ext :
  base <> [] -> ext <> [] -> ~ In "."%char ext ->
  split_ext (base ++ "."%char :: ext) = (base, "."%char :: ext).
Proof.
  intros Hb He Hdot. unfold split_ext.
  rewrite rev_app_distr. cbn [rev]. rewrite <- app_assoc. cbn [app].
  change (rev ext ++ ["."%char] ++ rev base) with (rev ext ++ "."%char :: rev base).
  destruct (run_app not_dot (rev ext) ("."%char :: rev base)) as [R S]; [|reflexivity|].
  { intros x Hx. apply in_rev in Hx. unfold not_dot.
    destruct (Ascii.eqb_spec x "."%char) as [->|_]; [contradiction | reflexivity]. }
  rewrite R, S.
  destruct (rev ext) as [|e es] eqn:Ee.
  { apply (f_equal (@rev ascii)) in Ee. rewrite rev_involutive in Ee. contradiction. }
  destruct (rev base) as [|b bs] eqn:Eb.
  { apply (f_equal (@rev ascii)) in Eb. rewrite rev_involutive in Eb. contradiction. }
  change (rev es ++ [e]) with (rev (e :: es)).
  rewrite <- Ee, <- Eb, !rev_involutive. reflexivity.
Qed.

(** the suffix of a name that ends with [.ext] and is longer than it *)
Lemma suffix_of_ext (p : list string) (ext : string) (e : ascii) (es : text) :
  of_string ext = "."%char :: e :: es -> ~ In "."%char (e :: es) ->
  endswith (name p) ext = true -> name p <> ext ->
  suffix p = ext /\ (stem p ++ ext)%string = name p.
Proof.
  intros Hext Hdot Hend Hne. apply endswith_app in Hend as [base Hb].
  rewrite Hext in Hb.
  assert (base <> []) as Hbase.
  { intros ->. apply Hne. rewrite <- (Collide.to_of_string (name p)), Hb, <- Hext.
    apply Collide.to_of_string. }
  unfold suffix, stem. rewrite Hb, (split_ext_app base (e :: es) Hbase); [|discriminate|exact Hdot].
  cbn [fst snd]. split.
  - rewrite <- Hext. apply Collide.to_of_string.
  - rewrite <- (Collide.to_of_string (to_string base ++ ext)).
    rewrite Collide.of_string_app, Collide.of_to_string, Hext, <- Hb.
    apply Collide.to_of_string.
Qed.

End NameFacts.

Section CountFacts.

Lemma count_glob (f : gmap (list string) entry) (dir : list string) (rec : bool)
    (ext : string) (p : list string) :
  is_Some (f !! p) -> Fs.below dir rec p = true ->
  count_occ path_eq_dec (Fs.glob f dir rec ext) p =
  if Pathlib.endswith (Pathlib.name p) ext then 1 else 0.
Proof.
  intros Hp Hb.
  pose proof (proj1 (NoDup_count_occ path_eq_dec _) (glob_NoDup f dir rec ext) p) as Hle.
  destruct (Pathlib.endswith (Pathlib.name p) ext) eqn:E.
  - assert (In p (Fs.glob f dir rec ext)) as Hin by (apply glob_In; auto).
    apply (count_occ_In path_eq_dec) in Hin. lia.
  - apply count_occ_not_In. rewrite glob_In. intros (_ & _ & H). congruence.
Qed.

Lemma count_flat_glob (f : gmap (list string) entry) (dir : list string) (rec : bool)
    (exts : list string) (p : list string) :
  is_Some (f !! p) -> Fs.below dir rec p = true ->
  count_occ path_eq_dec (flat_map (Fs.glob f dir rec) exts) p =
  length (List.filter (Pathlib.endswith (Pathlib.name p)) exts).
Proof.
  intros Hp Hb. induction exts as [|ext exts IH]; [reflexivity|].
  cbn [flat_map List.filter]. rewrite count_occ_app, IH, (count_glob f dir rec ext p Hp Hb).
  destruct (Pathlib.endswith (Pathlib.name p) ext); reflexivity.
Qed.

Lemma ext_matches (nm : string) :
  let k := length (List.filter (Pathlib.endswith nm) COMPRESSED_EXTENSIONS) in
  k = 0 \/ k = (if Pathlib.endswith nm ".tar.gz" then 2 else 1).
Proof.
  unfold COMPRESSED_EXTENSIONS, Pathlib.endswith. cbn [List.filter].
  change (rev (Text.of_string ".zip")) with (Text.of_string "piz.").
  change (rev (Text.of_string ".7z")) with (Text.of_string "z7.").
  change (rev (Text.of_string ".rar")) with (Text.of_string "rar.").
  change (rev (Text.of_string ".gz")) with (Text.of_string "zg.").
  change (rev (Text.of_string ".tar")) with (Text.of_string "rat.").
  change (rev (Text.of_string ".tar.gz")) with (Text.of_string "zg.rat.").
  change (rev (Text.of_string ".tgz")) with (Text.of_string "zgt.").
  generalize (rev (Text.of_string nm)). intros r.
  destruct r as [|c1 [|c2 [|c3 [|c4 [|c5 [|c6 [|c7 r]]]]]]];
    cbn [Pathlib.starts_with Text.of_string list_ascii_of_string andb length];
    repeat (match goal with
            | |- context [Ascii.eqb ?c ?x] =>
                is_var x; destruct (Ascii.eqb_spec c x) as [?E|?E]; try congruence
            end;
            cbn [andb length]);
    auto.
Qed.

End CountFacts.

(** ** The scanners *)

(** X17.  The search for converted files returns the entries below the
    folder (directly below it when the search is not recursive) whose names
    end in [.chd], each once, sorted by path; and the search for track
    lists returns what the scanner of game files returns when only track
    lists are asked for. *)
Theorem find_chd_files_lists_each_once
    (f : gmap (list string) entry) (dir : list string) (rec : bool) :
  StronglySorted Pathlib.path_le (find_chd_files f dir rec)
  /\ List.NoDup (find_chd_files f dir rec)
  /\ (forall p, In p (find_chd_files f dir rec) <->
        is_Some (f !! p) /\ Fs.below dir rec p = true
        /\ Pathlib.endswith (Pathlib.name p) ".chd" = true)
  /\ (forall opts, process_ps1_cues opts = true -> process_ps2_isos opts = false ->
        find_game_files opts f dir rec = find_cue_files f dir rec).
Proof.
  unfold find_chd_files. split; [apply sorted_Sorted|]. split; [|split].
  - apply NoDup_ListNoDup. rewrite (sorted_Permutation _).
    apply NoDup_ListNoDup, glob_NoDup.
  - intros p. rewrite <- glob_In, <- !list_elem_of_In.
    rewrite (sorted_Permutation _). reflexivity.
  - intros opts Hc Hi. unfold find_game_files, find_cue_files.
    rewrite Hc, Hi, app_nil_r. reflexivity.
Qed.

(** X18.  The search for compressed files returns an archive once, unless
    its name ends in [.tar.gz]: then it returns it twice.  No archive is
    returned more often. *)
Theorem archive_found_once_or_twice
    (f : gmap (list string) entry) (dir : list string) (rec : bool) (p : list string) :
  In p (find_compressed_files f dir rec) ->
  count_occ path_eq_dec (find_compressed_files f dir rec) p =
  if Pathlib.endswith (Pathlib.name p) ".tar.gz" then 2 else 1.
Proof.
  intros Hin.
  pose proof (proj1 (count_occ_In path_eq_dec _ _) Hin) as Hpos.
  unfold find_compressed_files in *.
  rewrite (count_occ_Permutation _ _ _ (sorted_Permutation _)) in Hpos |- *.
  assert (is_Some (f !! p) /\ Fs.below dir rec p = true) as [Hp Hb].
  { apply list_elem_of_In in Hin. rewrite (sorted_Permutation _) in Hin.
    apply list_elem_of_In, in_flat_map in Hin as (ext & _ & Hg).
    apply glob_In in Hg. tauto. }
  rewrite (count_flat_glob f dir rec _ p Hp Hb) in Hpos |- *.
  destruct (ext_matches (Pathlib.name p)) as [H|H]; [lia | exact H].
Qed.

Lemma archive_found_once_or_twice_witness :
  count_occ path_eq_dec (find_compressed_files Demo.disc_fs Demo.roms true) Demo.pack = 2.
Proof.
  rewrite (archive_found_once_or_twice Demo.disc_fs Demo.roms true Demo.pack).
  - vm_compute. reflexivity.
  - vm_compute. auto.
Defined.

(** ** Reading back a track list *)

Module CueMore.
Import Text TextFacts Cue CueFacts.

Lemma file_at_other x t : x <> "F"%char -> x <> "f"%char -> file_at (x :: t) = None.
Proof.
  intros H1 H2. unfold file_at. cbn [of_string list_ascii_of_string ilit].
  replace (ieq x "F") with false; [reflexivity|].
  symmetry. unfold ieq. apply Ascii.eqb_neq. intros H. unfold lower in H.
  change (ascii_of_nat (nat_of_ascii "F" + 32)) with "f"%char in H.
  cbn [nat_of_ascii] in H.
  destruct x as [[] [] [] [] [] [] [] []]; cbn in H; try discriminate H;
    first [apply H1; reflexivity | apply H2; reflexivity].
Qed.

Lemma findall_gap gap T n :
  ~ In "F"%char gap -> ~ In "f"%char gap -> length (gap ++ T) <= n ->
  findall_fuel n (gap ++ T) = findall_fuel n T.
Proof.
  revert n. induction gap as [|x gap IH]; intros n H1 H2 Hn; [reflexivity|].
  rewrite <- app_comm_cons in *. cbn [length] in Hn.
  destruct n as [|n]; [lia|].
  assert (length T <= n) as HT by (rewrite length_app in Hn; lia).
  transitivity (findall_fuel n T); [|apply findall_fuel_enough; lia].
  cbn [findall_fuel].
  rewrite file_at_other
    by (intros ->; first [apply H1; left; reflexivity | apply H2; left; reflexivity]).
  apply IH; [intros H; apply H1; right; exact H | intros H; apply H2; right; exact H | lia].
Qed.

Lemma file_at_entry nm R :
  nm <> [] -> ~ In "034"%char nm ->
  file_at (of_string "FILE " ++ "034"%char :: nm ++ "034"%char :: of_string " BINARY" ++ R)
  = Some (nm, R).
Proof.
  intros Hne Hq. unfold file_at.
  change (of_string "FILE " ++ "034"%char :: nm ++ "034"%char :: of_string " BINARY" ++ R)
    with ("F"%char :: "I"%char :: "L"%char :: "E"%char :: " "%char :: "034"%char
          :: (nm ++ "034"%char :: " "%char :: "B"%char :: "I"%char :: "N"%char
                :: "A"%char :: "R"%char :: "Y"%char :: R)).
  change (ilit (of_string "FILE") ("F"%char :: "I"%char :: "L"%char :: "E"%char :: ?s))
    with (Some s).
  change (ilit (of_string "FILE")
            ("F"%char :: "I"%char :: "L"%char :: "E"%char :: " "%char :: "034"%char
             :: (nm ++ "034"%char :: " "%char :: "B"%char :: "I"%char :: "N"%char
                   :: "A"%char :: "R"%char :: "Y"%char :: R)))
    with (Some (" "%char :: "034"%char
                :: (nm ++ "034"%char :: " "%char :: "B"%char :: "I"%char :: "N"%char
                      :: "A"%char :: "R"%char :: "Y"%char :: R))).
  cbn [run skip].
  change (py_isspace " ") with true. change (py_isspace "034") with false.
  cbn [Ascii.eqb Bool.eqb].
  destruct (run_app not_quote nm ("034"%char :: " "%char :: "B"%char :: "I"%char
                                    :: "N"%char :: "A"%char :: "R"%char :: "Y"%char :: R))
    as [Hr Hs]; [|reflexivity|].
  { intros x Hx. unfold not_quote.
    destruct (Ascii.eqb_spec x "034"%char) as [->|_]; [contradiction | reflexivity]. }
  rewrite Hr, Hs. destruct nm as [|c nm']; [contradiction|].
  cbn [run skip]. change (py_isspace " ") with true. change (py_isspace "B") with false.
  reflexivity.
Qed.

Lemma of_string_cue nm gap S :
  of_string (cue_entry (nm, gap) ++ S) =
  of_string "FILE " ++ "034"%char :: of_string nm ++ "034"%char
    :: of_string " BINARY" ++ (of_string gap ++ of_string S).
Proof.
  unfold cue_entry. cbn [fst snd]. rewrite !Collide.of_string_app.
  repeat rewrite <- app_assoc. reflexivity.
Qed.

Lemma findall_entries entries n :
  Forall cue_entry_ok entries ->
  length (of_string (cue_text entries)) <= n ->
  findall_fuel n (of_string (cue_text entries)) = map (fun e => of_string (fst e)) entries.
Proof.
  intros Hok. revert n. induction Hok as [|[nm gap] rest (Hne & Hq & HF & Hf) _ IH];
    intros n Hn.
  { destruct n; reflexivity. }
  cbn [cue_text fst snd map] in *. rewrite of_string_cue in *.
  assert (of_string nm <> []) as Hne'.
  { intros H. apply Hne. rewrite <- (Collide.to_of_string nm), H. reflexivity. }
  set (R := of_string gap ++ of_string (cue_text rest)) in *.
  pose proof (file_at_entry (of_string nm) R Hne' Hq) as Hat.
  pose proof (file_at_length _ _ _ Hat) as Hlen.
  remember (of_string "FILE " ++ "034"%char :: of_string nm ++ "034"%char
              :: of_string " BINARY" ++ R) as subject eqn:Es.
  destruct subject as [|x t]; [cbn in Hlen; lia|].
  destruct n as [|n]; [cbn in Hn; lia|].
  cbn [findall_fuel]. rewrite Hat. f_equal.
  assert (length R <= n) as HR by (cbn [length] in Hn, Hlen; lia).
  unfold R in *. rewrite findall_gap by assumption.
  apply IH. rewrite length_app in HR. lia.
Qed.

End CueMore.

(** X19.  A track list that is written as one [FILE "name" BINARY] line for
    each name, each followed by lines in which no [FILE] entry begins, is
    read back as these names, in their order: the references that
    [parse_cue_file] resolves are exactly the names written. *)
Theorem cue_names_are_read_back (entries : list (string * string)) :
  Forall cue_entry_ok entries ->
  Cue.findall (cue_text entries) = map fst entries.
Proof.
  intros Hok. unfold Cue.findall.
  rewrite (CueMore.findall_entries entries _ Hok).
  - rewrite map_map. induction entries as [|e l IH]; [reflexivity|].
    cbn [map]. rewrite Collide.to_of_string. f_equal. apply IH.
    inversion Hok; assumption.
  - rewrite VersionFacts.length_of_string. lia.
Qed.

Lemma cue_names_are_read_back_witness :
  Cue.findall
    (cue_text [("Game (Track 1).bin", Demo.newline ++ "  TRACK 01 MODE2/2352" ++ Demo.newline);
               ("Game (Track 2).bin", Demo.newline ++ "  TRACK 02 AUDIO" ++ Demo.newline)]%string)
  = ["Game (Track 1).bin"; "Game (Track 2).bin"]%string.
Proof.
  apply (cue_names_are_read_back
           [("Game (Track 1).bin", Demo.newline ++ "  TRACK 01 MODE2/2352" ++ Demo.newline);
            ("Game (Track 2).bin", Demo.newline ++ "  TRACK 02 AUDIO" ++ Demo.newline)]%string).
  repeat constructor; try discriminate; vm_compute; intuition discriminate.
Defined.

(** ** Cleaned names *)

Section CleanMore.
Import Text TextFacts.

Lemma no_open_quiet (o c : ascii) (s : text) : ~ In o s -> quiet o c s.
Proof.
  induction s as [|x t IH]; intros Hn; [exact I|].
  split; [|apply IH; intros H; apply Hn; right; exact H].
  unfold group_at. destruct (skip py_isspace (x :: t)) as [|y u] eqn:E; [reflexivity|].
  destruct (Ascii.eqb_spec y o) as [->|_]; [|reflexivity].
  exfalso. apply Hn. apply (skip_incl py_isspace). rewrite E. left. reflexivity.
Qed.

Lemma clean_game_text_plain (x : text) :
  ~ In "("%char x -> ~ In "["%char x -> tidy x -> headed x -> clean_game_text x = x.
Proof.
  intros Hp Hb Ht Hh. unfold clean_game_text, clean_base.
  rewrite (search_disc_quiet x (no_open_quiet _ _ x Hp)).
  rewrite (quiet_rm_id _ _ x (no_open_quiet _ _ x Hp)).
  rewrite (quiet_rm_id _ _ x (no_open_quiet _ _ x Hb)).
  apply strip_collapse_id; assumption.
Qed.

End CleanMore.

(** X20.  A name without tags is left as it is: when the name holds no
    opening parenthesis and no opening bracket, and its white space is
    single spaces inside the name only, [clean_game_name] returns the name
    itself. *)
Theorem clean_game_name_keeps_plain_names (x : string) :
  ~ In "("%char (Text.of_string x) ->
  ~ In "["%char (Text.of_string x) ->
  Text.tidy (Text.of_string x) ->
  Text.headed (Text.of_string x) ->
  clean_game_name x = x.
Proof.
  intros Hp Hb Ht Hh. unfold clean_game_name.
  rewrite clean_game_text_plain by assumption. apply Collide.to_of_string.
Qed.

Lemma clean_game_name_keeps_plain_names_witness :
  clean_game_name "Final Fantasy VII" = "Final Fantasy VII"%string.
Proof.
  apply clean_game_name_keeps_plain_names; vm_compute; intuition discriminate.
Defined.

(** X21.  What [clean_game_name] returns is a base name, followed by a
    space and the first disc tag of the input when the input has one.  In
    the base name the patterns for a parenthesised and for a bracketed tag
    match nowhere, and its white space is single spaces inside the name
    only; the disc tag is a text that the disc pattern matches as a
    whole. *)
Theorem clean_game_name_leaves_no_tags (x : string) :
  let base := clean_base (Text.of_string x) in
  Text.quiet "(" ")" base /\ Text.quiet "[" "]" base
  /\ Text.tidy base /\ Text.headed base
  /\ match Text.search_disc (Text.of_string x) with
     | None => clean_game_name x = Text.to_string base
     | Some tag =>
         clean_game_name x = Text.to_string (base ++ " "%char :: tag)
         /\ Text.disc_at tag = Some tag
     end.
Proof.
  intros base. destruct (clean_base_quiet (Text.of_string x)) as (H1 & H2 & H3 & H4).
  repeat (split; [assumption|]).
  unfold clean_game_name, clean_game_text. fold base.
  destruct (Text.search_disc (Text.of_string x)) as [tag|] eqn:E; [|reflexivity].
  split; [reflexivity|].
  destruct (TextFacts.search_disc_some _ _ E) as [u Hu].
  exact (proj1 (proj2 (TextFacts.disc_at_inv _ _ Hu))).
Qed.

(** ** Extraction, by kind of archive *)

Section ExtractMore.
Context {tools : ExternalTools}.
Variable opts : Options.

Lemma suffix_tar_gz (a : list string) :
  Pathlib.endswith (Pathlib.name a) ".tar.gz" = true -> Pathlib.suffix a = ".gz"%string.
Proof.
  intros H.
  apply (NameFacts.suffix_of_ext a ".gz" "g"%char ["z"%char]).
  - reflexivity.
  - cbn. intuition discriminate.
  - apply tar_gz_is_gz, H.
  - intros E. rewrite E in H. vm_compute in H. discriminate H.
Qed.

Lemma run_decoder_log d label a folder st x :
  In (LogUnsupportedArchive x) (log (fst (run_decoder d label a folder st))) ->
  In (LogUnsupportedArchive x) (log st).
Proof.
  unfold run_decoder. cbn [fs add_log].
  destruct (unpack d a folder (fs st)); cbn; intros H;
    repeat (apply in_app_or in H; destruct H as [H|[H|[]]]; try discriminate H);
    exact H.
Qed.

(** the suffix of an archive that the search finds under a pattern *)
Lemma found_suffix (a : list string) (ext : string) :
  In ext COMPRESSED_EXTENSIONS ->
  Pathlib.endswith (Pathlib.name a) ext = true -> Pathlib.name a <> ext ->
  In (Pathlib.lower_string (Pathlib.suffix a))
     [".zip"; ".7z"; ".rar"; ".gz"; ".tar"; ".tgz"]%string.
Proof.
  intros Hext Hend Hne. unfold COMPRESSED_EXTENSIONS in Hext.
  assert (forall e c cs, ext = e -> Text.of_string e = "."%char :: c :: cs ->
            ~ In "."%char (c :: cs) -> Pathlib.suffix a = e) as Hs.
  { intros e c cs -> He Hdot.
    exact (proj1 (NameFacts.suffix_of_ext a e c cs He Hdot Hend Hne)). }
  destruct Hext as [E|[E|[E|[E|[E|[E|[E|[]]]]]]]]; symmetry in E.
  - rewrite (Hs ".zip"%string "z"%char _ E eq_refl); [cbn; auto|cbn; intuition discriminate].
  - rewrite (Hs ".7z"%string "7"%char _ E eq_refl); [cbn; auto|cbn; intuition discriminate].
  - rewrite (Hs ".rar"%string "r"%char _ E eq_refl); [cbn; auto 10|cbn; intuition discriminate].
  - rewrite (Hs ".gz"%string "g"%char _ E eq_refl); [cbn; auto 10|cbn; intuition discriminate].
  - rewrite (Hs ".tar"%string "t"%char _ E eq_refl); [cbn; auto 10|cbn; intuition discriminate].
  - subst ext. rewrite (suffix_tar_gz a Hend). cbn. auto 10.
  - rewrite (Hs ".tgz"%string "t"%char _ E eq_refl); [cbn; auto 10|cbn; intuition discriminate].
Qed.

End ExtractMore.

(** X22.  An archive with the suffix [.7z] or [.rar] is not unpacked when
    no 7-Zip is configured: [extract_archive] returns failure without
    calling a decoder, whatever the decoders would do, and the only change
    it may leave is the extraction folder, which it makes before it looks
    at the suffix; with such an archive alone the extraction stage returns
    no folder. *)
Theorem seven_zip_archive_needs_seven_zip
    {tools : ExternalTools} (opts : Options) (archive : list string) (st : State) :
  seven_zip_path opts = None ->
  Pathlib.lower_string (Pathlib.suffix archive) = ".7z"%string
  \/ Pathlib.lower_string (Pathlib.suffix archive) = ".rar"%string ->
  let r := extract_archive opts archive st in
  snd r = None
  /\ (fs (fst r) = fs st \/ fs (fst r) = <[extract_folder archive := Dir]> (fs st))
  /\ (forall q, q <> extract_folder archive -> fs (fst r) !! q = fs st !! q)
  /\ snd (extract_each opts [archive] st) = [].
Proof.
  intros H7 Hext.
  assert (Pathlib.endswith (Pathlib.name archive) ".tar.gz" = false) as Htgz.
  { destruct (Pathlib.endswith (Pathlib.name archive) ".tar.gz") eqn:E; [|reflexivity].
    rewrite (suffix_tar_gz archive E) in Hext. destruct Hext as [H|H]; discriminate H. }
  assert (let r := extract_archive opts archive st in
          snd r = None
          /\ (fs (fst r) = fs st \/ fs (fst r) = <[extract_folder archive := Dir]> (fs st))) as Hr.
  { unfold extract_archive. cbn [fs record_extract].
    unfold Fs.mkdir.
    destruct (fs st !! extract_folder archive) as [[c|]|] eqn:Ef; cbn [fst snd fs add_log];
      [auto | |];
      rewrite Htgz; destruct Hext as [-> | ->]; cbn; rewrite H7; cbn; auto. }
  cbv zeta in *. destruct Hr as [H1 H2]. split; [exact H1|]. split; [exact H2|]. split.
  - intros q Hq. destruct H2 as [-> | ->]; [reflexivity|].
    apply lookup_insert_ne. congruence.
  - cbn [extract_each]. destruct (extract_archive opts archive st) as [st1 [folder|]];
      [discriminate H1 | reflexivity].
Qed.

Lemma seven_zip_archive_needs_seven_zip_witness :
  let st := Demo.state_of (<[Demo.roms ++ ["pack.7z"%string] := File "7z"]> Demo.disc_fs) true in
  let r := extract_archive (tools := Demo.ideal) (Demo.options false false true true 2)
             (Demo.roms ++ ["pack.7z"%string]) st in
  snd r = None /\ fs (fst r) !! (Demo.roms ++ ["pack.7z"%string]) = Some (File "7z").
Proof.
  destruct (seven_zip_archive_needs_seven_zip (tools := Demo.ideal)
              (Demo.options false false true true 2) (Demo.roms ++ ["pack.7z"%string])
              (Demo.state_of (<[Demo.roms ++ ["pack.7z"%string] := File "7z"]> Demo.disc_fs) true))
    as (H1 & _ & H3 & _).
  - reflexivity.
  - left. vm_compute. reflexivity.
  - split; [exact H1|]. cbv zeta. rewrite H3; [vm_compute; reflexivity|].
    vm_compute. discriminate.
Defined.

(** X23.  An archive that the search for compressed files returns is never
    refused as an unsupported format, unless its whole name is one of the
    extensions: its suffix is one of those that [extract_archive] has a
    decoder for. *)
Theorem found_archives_are_supported
    {tools : ExternalTools} (opts : Options) (f : gmap (list string) entry)
    (dir : list string) (rec : bool) (archive : list string) (st : State) :
  In archive (find_compressed_files f dir rec) ->
  ~ In (Pathlib.name archive) COMPRESSED_EXTENSIONS ->
  In (Pathlib.lower_string (Pathlib.suffix archive))
     [".zip"; ".7z"; ".rar"; ".gz"; ".tar"; ".tgz"]%string
  /\ forall x, In (LogUnsupportedArchive x) (log (fst (extract_archive opts archive st))) ->
               In (LogUnsupportedArchive x) (log st).
Proof.
  intros Hin Hname.
  assert (In (Pathlib.lower_string (Pathlib.suffix archive))
            [".zip"; ".7z"; ".rar"; ".gz"; ".tar"; ".tgz"]%string) as Hsfx.
  { unfold find_compressed_files in Hin.
    apply list_elem_of_In in Hin. rewrite (sorted_Permutation _) in Hin.
    apply list_elem_of_In, in_flat_map in Hin as (ext & Hext & Hg).
    apply glob_In in Hg as (_ & _ & Hend).
    apply (found_suffix archive ext Hext Hend). intros E. apply Hname. rewrite E. exact Hext. }
  split; [exact Hsfx|]. intros x. unfold extract_archive. cbn [fs record_extract].
  destruct (Fs.mkdir (fs st) (extract_folder archive)) as [f1|].
  2:{ cbn. intros H. apply in_app_or in H. destruct H as [H|[H|[]]]; [exact H | discriminate H]. }
  cbn [fst snd].
  assert (forall st' : State,
            In (LogUnsupportedArchive x)
              (log (add_log (LogNoSevenZip (Pathlib.lower_string (Pathlib.suffix archive))) st')) ->
            In (LogUnsupportedArchive x) (log st')) as Hno.
  { intros st'. cbn. intros H. apply in_app_or in H.
    destruct H as [H|[H|[]]]; [exact H | discriminate H]. }
  destruct Hsfx as [E|[E|[E|[E|[E|[E|[]]]]]]]; rewrite <- E in *;
    repeat match goal with
           | |- context [String.eqb ?a ?b] =>
               let v := eval vm_compute in (String.eqb a b) in
               change (String.eqb a b) with v
           end;
    cbn [orb];
    try apply run_decoder_log;
    destruct (Pathlib.endswith (Pathlib.name archive) ".tar.gz");
    try apply run_decoder_log;
    destruct (seven_zip_path opts); try apply run_decoder_log; apply Hno.
Qed.

Lemma found_archives_are_supported_witness :
  Pathlib.lower_string (Pathlib.suffix Demo.pack) = ".gz"%string
  /\ In (Pathlib.lower_string (Pathlib.suffix Demo.pack))
        [".zip"; ".7z"; ".rar"; ".gz"; ".tar"; ".tgz"]%string.
Proof.
  split; [vm_compute; reflexivity|].
  apply (found_archives_are_supported (tools := Demo.ideal)
           (Demo.options false false true true 2) Demo.disc_fs Demo.roms true Demo.pack
           (Demo.state_of Demo.disc_fs true)).
  - vm_compute. auto.
  - vm_compute. intuition discriminate.
Defined.

(** ** The scan of a folder *)

Section ScanMore.

Lemma st_size_some (f : gmap (list string) entry) (p : list string) :
  is_Some (f !! p) -> exists n, Fs.st_size f p = Some n.
Proof. intros [[c|] H]; unfold Fs.st_size; rewrite H; eauto. Qed.

Lemma scan_archives_some (f : gmap (list string) entry) (files : list (list string)) :
  (forall p, In p files -> is_Some (f !! p)) -> exists r, scan_archives f files = Some r.
Proof.
  induction files as [|p l IH]; intros H; [cbn; eauto|].
  cbn [scan_archives].
  destruct (st_size_some f p (H p (or_introl eq_refl))) as [n ->].
  destruct IH as [[lines total] ->]; [intros q Hq; apply H; right; exact Hq|]. eauto.
Qed.

Lemma scan_bins_some (f : gmap (list string) entry) (files : list (list string)) :
  (forall p, In p files -> is_Some (f !! p)) -> exists r, scan_bins f files = Some r.
Proof.
  induction files as [|p l IH]; intros H; [cbn; eauto|].
  cbn [scan_bins].
  destruct (st_size_some f p (H p (or_introl eq_refl))) as [n ->].
  destruct IH as [[lines total] ->]; [intros q Hq; apply H; right; exact Hq|]. eauto.
Qed.

Lemma scan_game_ok (g : list string) (st : State) :
  is_Some (fs st !! g) ->
  exists r, scan_game g st = Some r
    /\ fs (game_state r) = fs st /\ control (game_state r) = control st
    /\ ps1_count r = (if is_cue g then 1 else 0)
    /\ ps2_count r = (if is_iso g then 1 else 0).
Proof.
  intros Hg. unfold scan_game, is_iso, is_cue.
  destruct (String.eqb (Pathlib.lower_string (Pathlib.suffix g)) ".cue").
  - pose proof (parse_cue_file_fs g st) as Hfs.
    pose proof (parse_cue_file_control g st) as Hc.
    pose proof (parse_cue_file_exist g st) as Hex.
    destruct (parse_cue_file g st) as [st1 bins]. cbn [fst snd] in *.
    destruct (scan_bins_some (fs st1) bins) as [[lines size] ->].
    { intros b Hb. specialize (Hex b Hb). rewrite Hfs. unfold Fs.exists_ in Hex.
      destruct (fs st !! b); [eauto | discriminate]. }
    rewrite Hfs. destruct (st_size_some (fs st) g Hg) as [n ->].
    eexists. split; [reflexivity|]. cbn. auto.
  - cbn [negb andb].
    destruct (String.eqb (Pathlib.lower_string (Pathlib.suffix g)) ".iso").
    + destruct (st_size_some (fs st) g Hg) as [n ->].
      eexists. split; [reflexivity|]. cbn. auto.
    + eexists. split; [reflexivity|]. cbn. auto.
Qed.

Lemma scan_games_ok (files : list (list string)) (st : State) :
  (forall g, In g files -> is_Some (fs st !! g)) ->
  exists r, scan_games files st = Some r
    /\ fs (game_state r) = fs st /\ control (game_state r) = control st
    /\ ps1_count r = length (List.filter is_cue files)
    /\ ps2_count r = length (List.filter is_iso files).
Proof.
  revert st. induction files as [|g l IH]; intros st H.
  - eexists. split; [reflexivity|]. cbn. auto.
  - cbn [scan_games].
    destruct (scan_game_ok g st (H g (or_introl eq_refl))) as (r1 & -> & F1 & C1 & P1 & Q1).
    destruct (IH (game_state r1)) as (r2 & -> & F2 & C2 & P2 & Q2).
    { intros q Hq. rewrite F1. apply H. right. exact Hq. }
    eexists. split; [reflexivity|]. cbn [game_state ps1_count ps2_count List.filter].
    split; [congruence|]. split; [congruence|].
    rewrite P1, P2, Q1, Q2. destruct (is_cue g), (is_iso g); cbn; auto.
Qed.

(** a game file of the scan is counted once: as a track list, as a disc
    image, or as a file whose whole name is the extension *)
Lemma game_file_kind (g : list string) :
  Pathlib.endswith (Pathlib.name g) ".cue" = true
  \/ Pathlib.endswith (Pathlib.name g) ".iso" = true ->
  (if is_cue g then 1 else 0) + (if is_iso g then 1 else 0)
  + (if bare_name g then 1 else 0) = 1.
Proof.
  intros Hend. unfold is_iso, is_cue, bare_name, Pathlib.suffix.
  destruct (String.eqb_spec (Pathlib.name g) ".cue") as [E|N1]; [rewrite E; reflexivity|].
  destruct (String.eqb_spec (Pathlib.name g) ".iso") as [E|N2]; [rewrite E; reflexivity|].
  change (Text.to_string (snd (Pathlib.split_ext (Text.of_string (Pathlib.name g)))))
    with (Pathlib.suffix g).
  destruct Hend as [H|H].
  - rewrite (proj1 (NameFacts.suffix_of_ext g ".cue" "c"%char _ eq_refl
                      ltac:(cbn; intuition discriminate) H N1)).
    reflexivity.
  - rewrite (proj1 (NameFacts.suffix_of_ext g ".iso" "i"%char _ eq_refl
                      ltac:(cbn; intuition discriminate) H N2)).
    reflexivity.
Qed.

Lemma count_kinds (files : list (list string)) :
  (forall g, In g files ->
     Pathlib.endswith (Pathlib.name g) ".cue" = true
     \/ Pathlib.endswith (Pathlib.name g) ".iso" = true) ->
  length (List.filter is_cue files) + length (List.filter is_iso files)
  + length (List.filter bare_name files) = length files.
Proof.
  induction files as [|g l IH]; intros H; [reflexivity|].
  pose proof (game_file_kind g (H g (or_introl eq_refl))) as Hg.
  specialize (IH (fun q Hq => H q (or_intror Hq))).
  cbn [List.filter length].
  destruct (is_cue g), (is_iso g), (bare_name g); cbn [length] in *; lia.
Qed.

End ScanMore.

(** X24.  Scanning a folder is read-only: when [scan_directory] returns,
    it has left the file system, the conversion flag and the calls of the
    converter and of the extractor as they are.  With a valid folder the
    convert button is then enabled exactly when a game file was found or,
    with extraction on, a compressed file; otherwise a warning is shown and
    label and button are left alone. *)
Theorem scan_is_read_only (opts : Options) (st : State) (r : ScanResult) :
  scan_directory opts st = Return r ->
  fs (scan_state r) = fs st
  /\ is_converting (scan_state r) = is_converting st
  /\ chdman_calls (scan_state r) = chdman_calls st
  /\ extract_calls (scan_state r) = extract_calls st
  /\ match source_dir opts with
     | Some directory =>
         if Fs.isdir (fs st) directory then
           dialogs (scan_state r) = dialogs st
           /\ convert_enabled r =
              Some (match find_game_files opts (fs st) directory (recursive opts) with
                    | [] =>
                        extract_compressed opts
                        && match find_compressed_files (fs st) directory (recursive opts) with
                           | [] => false
                           | _ => true
                           end
                    | _ => true
                    end)
         else convert_enabled r = None /\ scan_status r = None
              /\ dialogs (scan_state r) = dialogs st ++ [WarnInvalidDirectory]
     | None => convert_enabled r = None /\ scan_status r = None
               /\ dialogs (scan_state r) = dialogs st ++ [WarnInvalidDirectory]
     end.
Proof.
  intros Hret.
  assert (exists r',
            scan_directory opts st = Return r'
            /\ fs (scan_state r') = fs st
            /\ is_converting (scan_state r') = is_converting st
            /\ chdman_calls (scan_state r') = chdman_calls st
            /\ extract_calls (scan_state r') = extract_calls st
            /\ match source_dir opts with
               | Some directory =>
                   if Fs.isdir (fs st) directory then
                     dialogs (scan_state r') = dialogs st
                     /\ convert_enabled r' =
                        Some (match find_game_files opts (fs st) directory (recursive opts) with
                              | [] =>
                                  extract_compressed opts
                                  && match find_compressed_files (fs st) directory (recursive opts) with
                                     | [] => false
                                     | _ => true
                                     end
                              | _ => true
                              end)
                   else convert_enabled r' = None /\ scan_status r' = None
                        /\ dialogs (scan_state r') = dialogs st ++ [WarnInvalidDirectory]
               | None => convert_enabled r' = None /\ scan_status r' = None
                         /\ dialogs (scan_state r') = dialogs st ++ [WarnInvalidDirectory]
               end) as (r' & E & H).
  {
    unfold scan_directory.
    destruct (source_dir opts) as [directory|]; [|eexists; split; [reflexivity|]; cbn; auto 10].
    destruct (Fs.isdir (fs st) directory); cbn [negb];
      [|eexists; split; [reflexivity|]; cbn; auto 10].
    set (compressed_files := if extract_compressed opts then _ else []).
    destruct (scan_archives_some (fs st) compressed_files) as [[alines size] ->].
    { intros p Hp. unfold compressed_files in Hp.
      destruct (extract_compressed opts); [|destruct Hp].
      unfold find_compressed_files in Hp.
      apply list_elem_of_In in Hp. rewrite (sorted_Permutation _) in Hp.
      apply list_elem_of_In, in_flat_map in Hp as (ext & _ & Hg).
      apply glob_In in Hg. tauto. }
    assert ((length compressed_files =? 0) =
            negb (extract_compressed opts
                  && match find_compressed_files (fs st) directory (recursive opts) with
                     | [] => false
                     | _ => true
                     end)) as Hcount.
    { unfold compressed_files. destruct (extract_compressed opts); [|reflexivity].
      destruct (find_compressed_files (fs st) directory (recursive opts)); reflexivity. }
    destruct (find_game_files opts (fs st) directory (recursive opts)) as [|g l] eqn:Eg.
    - rewrite Hcount.
      destruct (extract_compressed opts && _); cbn [negb];
        eexists; (split; [reflexivity|]); cbn; auto 10.
    - destruct (scan_games_ok (g :: l) st) as (gs & -> & F & C & _).
      { intros q Hq. rewrite <- Eg in Hq.
        apply (find_game_files_spec opts (fs st) directory (recursive opts)) in Hq.
        destruct Hq as [Hq _]. exact Hq. }
      eexists. split; [reflexivity|]. cbn [scan_state convert_enabled].
      split; [exact F|]. unfold control in C. injection C as C1 C2 C3 _ _ _ _ _ _ C4.
      auto 10. }
  rewrite E in Hret. injection Hret as <-. exact H.
Qed.

Lemma scan_is_read_only_witness :
  match scan_directory (Demo.options false false true true 2)
          (Demo.state_of Demo.disc_fs false) with
  | Return r => fs (scan_state r) = Demo.disc_fs /\ convert_enabled r = Some true
  | Raise => False
  end.
Proof.
  destruct (scan_directory (Demo.options false false true true 2)
              (Demo.state_of Demo.disc_fs false)) as [r|] eqn:E.
  - destruct (scan_is_read_only (Demo.options false false true true 2)
                (Demo.state_of Demo.disc_fs false) r E) as (H1 & _ & _ & _ & H5).
    split; [exact H1|]. cbn [source_dir Demo.options] in H5.
    replace (Fs.isdir (fs (Demo.state_of Demo.disc_fs false)) Demo.roms) with true in H5
      by (vm_compute; reflexivity).
    destruct H5 as [_ H5]. rewrite H5. vm_compute. reflexivity.
  - apply (f_equal (fun o => match o with Return _ => true | Raise => false end)) in E.
    vm_compute in E. discriminate E.
Defined.

(** X25.  When the scan finds game files, each of them is counted once in
    the status line, as a track list or as a disc image, except the files
    whose whole name is [.cue] or [.iso], which are listed but counted as
    neither; and the number of archives shown is the number of compressed
    files found, zero with extraction off. *)
Theorem scan_counts_named_files
    (opts : Options) (st : State) (directory : list string) (r : ScanResult) :
  source_dir opts = Some directory ->
  Fs.isdir (fs st) directory = true ->
  find_game_files opts (fs st) directory (recursive opts) <> [] ->
  scan_directory opts st = Return r ->
  let game_files := find_game_files opts (fs st) directory (recursive opts) in
  exists ps1 ps2 archives size,
    scan_status r = Some (StatusFound ps1 ps2 archives size)
    /\ ps1 = length (List.filter is_cue game_files)
    /\ ps2 = length (List.filter is_iso game_files)
    /\ ps1 + ps2 + length (List.filter bare_name game_files) = length game_files
    /\ archives = (if extract_compressed opts
                   then length (find_compressed_files (fs st) directory (recursive opts))
                   else 0).
Proof.
  intros Hd Hdir Hne. unfold scan_directory. rewrite Hd, Hdir. cbn [negb].
  set (compressed_files := if extract_compressed opts then _ else []).
  assert (length compressed_files =
          if extract_compressed opts
          then length (find_compressed_files (fs st) directory (recursive opts)) else 0) as Hc.
  { unfold compressed_files. destruct (extract_compressed opts); reflexivity. }
  destruct (scan_archives (fs st) compressed_files) as [[alines size]|]; [|discriminate].
  pose proof (find_game_files_spec opts (fs st) directory (recursive opts)) as (_ & _ & Hspec & _).
  destruct (find_game_files opts (fs st) directory (recursive opts)) as [|g l] eqn:Eg;
    [contradiction|].
  destruct (scan_games_ok (g :: l) st) as (gs & Egs & _ & _ & P1 & P2).
  { intros q Hq. apply Hspec in Hq. destruct Hq as [Hq _]. exact Hq. }
  rewrite Egs. intros [= <-]. cbn [scan_status].
  exists (ps1_count gs), (ps2_count gs), (length compressed_files), (game_size gs).
  split; [reflexivity|]. split; [exact P1|]. split; [exact P2|]. split; [|exact Hc].
  rewrite P1, P2. apply count_kinds. intros q Hq. apply Hspec in Hq.
  destruct Hq as (_ & _ & [[_ H]|[_ H]]); auto.
Qed.

Lemma scan_counts_named_files_witness :
  match scan_directory (Demo.options false false true true 2)
          (Demo.state_of Demo.disc_fs false) with
  | Return r => exists size, scan_status r = Some (StatusFound 1 1 2 size)
  | Raise => False
  end.
Proof.
  destruct (scan_directory (Demo.options false false true true 2)
              (Demo.state_of Demo.disc_fs false)) as [r|] eqn:E.
  - destruct (scan_counts_named_files (Demo.options false false true true 2)
                (Demo.state_of Demo.disc_fs false) Demo.roms r)
      as (ps1 & ps2 & archives & size & H & H1 & H2 & _ & H4).
    + reflexivity.
    + vm_compute. reflexivity.
    + vm_compute. discriminate.
    + exact E.
    + subst ps1 ps2 archives. exists size. rewrite H. vm_compute. reflexivity.
  - apply (f_equal (fun o => match o with Return _ => true | Raise => false end)) in E.
    vm_compute in E. discriminate E.
Defined.

(** X26.  A descriptor that is gone when its job runs makes the job raise:
    the converter is not called and the file system is left alone, and when
    the run collects the job it counts it as failed, not as completed, and
    logs the exception; the loop goes on with the next job. *)
Theorem vanished_descriptor_counts_as_failed
    {tools : ExternalTools} (opts : Options) (path : list string) (st : State) :
  fs st !! path = None ->
  Fs.exists_ (fs st) (Pathlib.with_suffix path ".chd") = false ->
  Pathlib.lower_string (Pathlib.suffix path) = ".cue"%string
  \/ Pathlib.lower_string (Pathlib.suffix path) = ".iso"%string ->
  let r := process_body opts path st in
  snd r = Raise
  /\ fs (fst r) = fs st
  /\ chdman_calls (fst r) = chdman_calls st
  /\ forall (p : Pool) (now : Q) (rest : list (list string * Outcome (option bool))),
       collecting p = true -> is_converting (app p) = true ->
       finished p = (path, snd r) :: rest ->
       let p' := collect now p in
       failed p' = S (failed p) /\ successful p' = successful p
       /\ completed p' = completed p /\ finished p' = rest
       /\ collecting p' = true
       /\ log (app p') = log (app p) ++ [LogJobException (Pathlib.name path)].
Proof.
  intros Hgone Hchd Hsfx.
  assert (exists st1, process_body opts path st = (st1, Raise)
                      /\ fs st1 = fs st /\ chdman_calls st1 = chdman_calls st)
    as (st1 & E & Hfs & Hcalls).
  { unfold process_body, convert_to_chd. rewrite Hchd.
    destruct Hsfx as [-> | ->]; cbn [String.eqb Ascii.eqb Bool.eqb].
    - unfold parse_cue_file. rewrite Hgone. cbn [sum_sizes fs add_log].
      unfold Fs.st_size. rewrite Hgone. eexists. split; [reflexivity|]. split; reflexivity.
    - unfold Fs.st_size. rewrite Hgone. eexists. split; [reflexivity|]. split; reflexivity. }
  cbv zeta. rewrite E. cbn [fst snd].
  split; [reflexivity|]. split; [exact Hfs|]. split; [exact Hcalls|].
  intros p now rest Hcol Hconv Hfin. unfold collect. rewrite Hcol, Hfin, Hconv. cbn.
  auto 10.
Qed.

Lemma vanished_descriptor_counts_as_failed_witness :
  let r := process_body (tools := Demo.ideal) (Demo.options true false true true 2)
             (Demo.roms ++ ["Ghost.cue"%string]) (Demo.state_of Demo.disc_fs true) in
  snd r = Raise /\ fs (fst r) = Demo.disc_fs.
Proof.
  destruct (vanished_descriptor_counts_as_failed (tools := Demo.ideal)
              (Demo.options true false true true 2) (Demo.roms ++ ["Ghost.cue"%string])
              (Demo.state_of Demo.disc_fs true)) as (H1 & H2 & _).
  - vm_compute. reflexivity.
  - vm_compute. reflexivity.
  - left. vm_compute. reflexivity.
  - split; [exact H1 | exact H2].
Defined.

(** X27.  With delete-originals on, the originals are deleted only behind
    an output that exists: a job that does not report success leaves the
    state as the conversion step left it, and a job that reports success
    had its CHD in place when the deletion began and, unless the descriptor
    names the CHD itself, still has it afterwards. *)
Theorem originals_deleted_only_with_output
    {tools : ExternalTools} (opts : Options) (path : list string) (st : State) :
  delete_originals opts = true ->
  let chd := Pathlib.with_suffix path ".chd" in
  let st1 := fst (convert_to_chd opts path st) in
  let r := process_body opts path st in
  (snd r <> Return (Some true) -> fst r = st1)
  /\ (snd r = Return (Some true) ->
      Fs.exists_ (fs st1) chd = true
      /\ (chd <> path -> ~ In chd (snd (parse_cue_file path st1)) ->
          Fs.exists_ (fs (fst r)) chd = true)).
Proof.
  intros Hdel. cbv zeta. unfold process_body.
  pose proof (convert_to_chd_true opts path st) as Htrue.
  destruct (convert_to_chd opts path st) as [st1 [[|]|]]; cbn [fst snd].
  - split; [intros H; contradiction H; reflexivity|]. intros _.
    pose proof (Htrue st1 eq_refl) as Hex. split; [exact Hex|].
    intros Hne Hnot. unfold postprocess. rewrite Hdel.
    unfold Fs.exists_ in *.
    rewrite (delete_original_files_frame path st1 _ Hne Hnot). exact Hex.
  - split; [reflexivity | discriminate].
  - split; [reflexivity | discriminate].
Qed.

Lemma originals_deleted_only_with_output_witness :
  let r := process_body (tools := Demo.ideal) (Demo.options true false true true 2)
             Demo.game_cue (Demo.state_of Demo.disc_fs true) in
  fs (fst r) !! Demo.game_cue = None
  /\ Fs.exists_ (fs (fst r)) (Demo.roms ++ ["Game.chd"%string]) = true.
Proof.
  split; [vm_compute; reflexivity|].
  destruct (originals_deleted_only_with_output (tools := Demo.ideal)
              (Demo.options true false true true 2) Demo.game_cue
              (Demo.state_of Demo.disc_fs true) eq_refl) as [_ H].
  destruct H as [_ H]; [vm_compute; reflexivity|].
  apply H; [discriminate|]. clear H. vm_compute. intros [E|[E|[]]]; discriminate E.
Defined.

(** X28.  Moving a converted file into the folder in which it already lies,
    with its name unchanged, renames it: the plain name is taken by the
    file itself, so the file ends up under the first numbered name. *)
Theorem moving_within_a_folder_renames
    (dest_path : list string) (nm c : string) (f : gmap (list string) entry) :
  Pathlib.joinpath dest_path nm = dest_path ++ [nm] ->
  f !! (dest_path ++ [nm]) = Some (File c) ->
  f !! chd_candidate dest_path nm 1 = None ->
  move_one false false dest_path (dest_path ++ [nm]) f =
  (<[chd_candidate dest_path nm 1 := File c]> (delete (dest_path ++ [nm]) f),
   Moved (Pathlib.stem (dest_path ++ [nm])) (Pathlib.name (chd_candidate dest_path nm 1))).
Proof.
  intros Hjoin Hf Hfree. unfold move_one, dest_for, new_name.
  rewrite name_child, Hjoin.
  rewrite first_free_step by (unfold Fs.exists_; rewrite Hf; reflexivity).
  rewrite first_free_free by (unfold Fs.exists_; rewrite Hfree; reflexivity).
  unfold Fs.move. rewrite Hf. reflexivity.
Qed.

Lemma moving_within_a_folder_renames_witness :
  snd (move_one false false Demo.shelf (Demo.shelf ++ ["Game.chd"%string]) Cases.same_fs)
  = Moved "Game" "Game (1).chd".
Proof.
  rewrite (moving_within_a_folder_renames Demo.shelf "Game.chd" "game" Cases.same_fs);
    vm_compute; reflexivity.
Defined.

(** X30.  When the deletion of the originals is to be confirmed and the
    user declines, nothing is started: the request leaves the state as it
    was, but for the dialog shown, whatever the schedule; with the
    confirmation given, the run is under way with the sampler reset and the
    number of jobs set to the number of game files found. *)
Theorem declined_deletion_starts_nothing
    {tools : ExternalTools} (opts : Options) (directory : list string)
    (schedule : list Event) (st : State) :
  source_dir opts = Some directory ->
  Fs.isdir (fs st) directory = true ->
  delete_originals opts = true ->
  move_to_backup opts = false ->
  run_request opts false schedule st = show_dialog AskConfirmDeletion st
  /\ (let r := start_conversion opts true st in
      snd r = true /\ is_converting (fst r) = true /\ metrics_running (fst r) = true
      /\ file_durations (fst r) = [] /\ completed_jobs (fst r) = 0
      /\ total_jobs (fst r)
         = length (find_game_files opts (fs st) directory (recursive opts))
      /\ fs (fst r) = fs st).
Proof.
  intros Hd Hdir Hdel Hmove. unfold run_request, start_conversion.
  rewrite Hd, Hdir, Hdel, Hmove. cbn. auto 10.
Qed.

Lemma declined_deletion_starts_nothing_witness :
  run_request (tools := Demo.ideal) (Demo.options true false true true 2) false
    [Dispatch 1; Finish 0; Collect 2] (Demo.state_of Demo.disc_fs false)
  = show_dialog AskConfirmDeletion (Demo.state_of Demo.disc_fs false).
Proof.
  apply (declined_deletion_starts_nothing (tools := Demo.ideal)
           (Demo.options true false true true 2) Demo.roms
           [Dispatch 1; Finish 0; Collect 2] (Demo.state_of Demo.disc_fs false));
    reflexivity.
Defined.
